(** * Window Merge: a shallow embedding of the background script

    The background script of the extension talks to the browser through
    the [chrome.*] API.  The embedding keeps that boundary: the browser is
    a [Host], a record of primitives over an abstract state, and the
    script's functions are programs in a small monad that threads the
    extension's own state (the registry [pwaWindowIds]) and the host state,
    propagates rejections the way [await] does, and records every host
    request and every [console.error] in a trace. *)

From Stdlib Require Import ZArith Lia.
From stdpp Require Import base gmap sets list strings.

Open Scope Z_scope.

(** ** Data model (the objects the host hands to the script) *)

Inductive WindowType := normal | popup | panel | app | devtools.

Inductive Color :=
  grey | blue | red | yellow | green | pink | purple | cyan | orange.

Record Window := mkWindow {
  win_id : Z;
  win_incognito : bool;
  win_type : WindowType
}.

Record Tab := mkTab {
  tab_id : Z;
  tab_windowId : Z;
  tab_pinned : bool;
  tab_groupId : Z
}.

Record TabGroup := mkGroup {
  group_id : Z;
  group_windowId : Z;
  group_title : string;
  group_color : Color;
  group_collapsed : bool
}.

(** [{ group, tabs }], the element type of [grouped]. *)
Record GroupedTabs := mkGrouped {
  gt_group : TabGroup;
  gt_tabs : list Tab
}.

(** The object returned by [classifyTabs]. *)
Record ClassifiedTabs := mkClassified {
  pinned : list Tab;
  grouped : list GroupedTabs;
  ungrouped : list Tab
}.

Record Message := mkMessage {
  msg_type : string;
  msg_url : string
}.

Record MessageSender := mkSender {
  sender_tab : option Tab
}.

(** ** Constants *)

Definition TAB_POSITION_START : Z := 0.
Definition TAB_POSITION_END : Z := -1.

(** ** Requests, results and traces *)

Definition Error := string.

Inductive Result (A : Type) :=
| Resolved (a : A)
| Rejected (e : Error).
Arguments Resolved {A} a.
Arguments Rejected {A} e.

(** One constructor per host call the script makes. *)
Inductive Request :=
| WindowsGet (windowId : Z)
| WindowsGetAll (windowTypes : list WindowType)
| TabsQuery (windowId : Z) (groupId : option Z)
| TabGroupsQuery (windowId : Z)
| TabsMove (tabId : Z) (windowId index : Z)
| TabsMoveMany (tabIds : list Z) (windowId index : Z)
| TabGroupsMove (groupId : Z) (windowId index : Z)
| TabsUpdate (tabId : Z) (pinned : bool)
| TabsGroup (tabIds : list Z) (windowId : Z)
| TabGroupsUpdate (groupId : Z) (title : string) (color : Color) (collapsed : bool).

Inductive LogMsg :=
| WindowMergeFailed (e : Error)
| FailedToMoveTab (tabId : Z) (e : Error)
| FailedToMoveTabs (e : Error)
| FailedToMoveGroup (groupId : Z) (e : Error)
| FailedToRecreateGroup (e : Error).

(** What the host answered.  [Void] is a resolved promise whose value the
    script does not use. *)
Inductive Reply :=
| Void
| AWindow (w : Window)
| Windows (ws : list Window)
| Tabs (ts : list Tab)
| Groups (gs : list TabGroup)
| GroupId (g : Z)
| Failure (e : Error).

Definition succeeded (a : Reply) : bool :=
  match a with Failure _ => false | _ => true end.

Definition reply_of {A} (inj : A -> Reply) (r : Result A) : Reply :=
  match r with Resolved a => inj a | Rejected e => Failure e end.

Inductive Event :=
| Called (r : Request) (a : Reply)
| Logged (m : LogMsg).

Definition Trace := list Event.

(** A request that changes the browser (everything but get and query). *)
Definition mutating (r : Request) : bool :=
  match r with
  | WindowsGet _ | WindowsGetAll _ | TabsQuery _ _ | TabGroupsQuery _ => false
  | _ => true
  end.

Definition mutating_event (e : Event) : bool :=
  match e with
  | Called r _ => mutating r
  | Logged _ => false
  end.

(** ** The host platform

    Reads answer from the current state; the other primitives also return
    the next state.  Any primitive may reject. *)
Record Host (S : Type) := mkHost {
  windows_get : Z -> S -> Result Window;
  windows_getAll : list WindowType -> S -> Result (list Window);
  tabs_query : Z -> option Z -> S -> Result (list Tab);
  tabGroups_query : Z -> S -> Result (list TabGroup);
  tabs_move : Z -> Z -> Z -> S -> Result unit * S;
  tabs_move_many : list Z -> Z -> Z -> S -> Result unit * S;
  tabGroups_move : Z -> Z -> Z -> S -> Result unit * S;
  tabs_update : Z -> bool -> S -> Result unit * S;
  tabs_group : list Z -> Z -> S -> Result Z * S;
  tabGroups_update : Z -> string -> Color -> bool -> S -> Result unit * S
}.
Arguments windows_get {S} _ _ _.
Arguments windows_getAll {S} _ _ _.
Arguments tabs_query {S} _ _ _ _.
Arguments tabGroups_query {S} _ _ _.
Arguments tabs_move {S} _ _ _ _ _.
Arguments tabs_move_many {S} _ _ _ _ _.
Arguments tabGroups_move {S} _ _ _ _ _.
Arguments tabs_update {S} _ _ _ _.
Arguments tabs_group {S} _ _ _ _.
Arguments tabGroups_update {S} _ _ _ _ _ _.

(** ** Script state and the monad of the script *)

Record St (S : Type) := mkSt {
  pwaWindowIds : gset Z;
  host : S
}.
Arguments mkSt {S} _ _.
Arguments pwaWindowIds {S} _.
Arguments host {S} _.

Definition M (S A : Type) : Type := St S -> Trace * Result A * St S.

Definition ret {S A} (a : A) : M S A := fun st => ([], Resolved a, st).

Definition bind {S A B} (m : M S A) (k : A -> M S B) : M S B :=
  fun st =>
    match m st with
    | (t1, Resolved a, st1) =>
        match k a st1 with
        | (t2, r, st2) => (t1 ++ t2, r, st2)
        end
    | (t1, Rejected e, st1) => (t1, Rejected e, st1)
    end.

(** [try { m } catch (error) { h error }], also [m.catch(h)]. *)
Definition try_catch {S A} (m : M S A) (h : Error -> M S A) : M S A :=
  fun st =>
    match m st with
    | (t1, Resolved a, st1) => (t1, Resolved a, st1)
    | (t1, Rejected e, st1) =>
        match h e st1 with
        | (t2, r, st2) => (t1 ++ t2, r, st2)
        end
    end.

Declare Scope script_scope.
Delimit Scope script_scope with script.
Notation "x <- m ;; k" := (bind m (fun x => k))
  (at level 100, m at next level, right associativity) : script_scope.
Notation "m ;; k" := (bind m (fun _ => k))
  (at level 100, right associativity) : script_scope.
Open Scope script_scope.

(** [for (const x of l) { await body(x) }] *)
Fixpoint for_of {S A} (l : list A) (body : A -> M S unit) : M S unit :=
  match l with
  | [] => ret tt
  | x :: l' => body x ;; for_of l' body
  end.

(** [await Promise.all(l.map(async x => ...))] for callbacks whose awaited
    calls are reads: every callback starts, so every read is issued; the
    whole rejects if one of them does.  The platform rejects with the
    rejection that settles first; the order in which the host settles its
    answers is not part of a state, so the value below is the rejection of
    the first such element of the list, and statements about a rejected
    [Promise.all] speak of the rejection of one of its elements, not of
    which one. *)
Fixpoint promise_all {S A} (l : list (M S A)) : M S (list A) :=
  match l with
  | [] => ret []
  | m :: l' =>
      fun st =>
        match m st with
        | (t1, r1, st1) =>
            match promise_all l' st1 with
            | (t2, r2, st2) =>
                (t1 ++ t2,
                 match r1, r2 with
                 | Resolved a, Resolved l2 => Resolved (a :: l2)
                 | Rejected e, _ => Rejected e
                 | _, Rejected e => Rejected e
                 end,
                 st2)
            end
        end
  end.

(** The run of [m] written after the events [t1] of what came before it. *)
Definition then_run {S A} (t1 : Trace) (m : M S A) (st : St S)
  : Trace * Result A * St S :=
  match m st with
  | (t2, r, st2) => (t1 ++ t2, r, st2)
  end.

Definition get_pwaWindowIds {S} : M S (gset Z) :=
  fun st => ([], Resolved (pwaWindowIds st), st).

Definition console_error {S} (m : LogMsg) : M S unit :=
  fun st => ([Logged m], Resolved tt, st).

(** A read request: traced, answered from the host state. *)
Definition read {S A} (r : Request) (inj : A -> Reply) (f : S -> Result A)
  : M S A :=
  fun st =>
    let a := f (host st) in
    ([Called r (reply_of inj a)], a, st).

(** A mutating request: traced, and the host moves to its next state. *)
Definition mutate {S A} (r : Request) (inj : A -> Reply)
    (f : S -> Result A * S) : M S A :=
  fun st =>
    match f (host st) with
    | (a, h') => ([Called r (reply_of inj a)], a, mkSt (pwaWindowIds st) h')
    end.

(** ** The script *)

Section Script.
Context {S : Type} (H : Host S).

(** *** The [chrome.*] calls, as traced requests *)

Definition chrome_windows_get (windowId : Z) : M S Window :=
  read (WindowsGet windowId) AWindow (windows_get H windowId).

Definition chrome_windows_getAll (windowTypes : list WindowType)
  : M S (list Window) :=
  read (WindowsGetAll windowTypes) Windows (windows_getAll H windowTypes).

Definition chrome_tabs_query (windowId : Z) (groupId : option Z)
  : M S (list Tab) :=
  read (TabsQuery windowId groupId) Tabs (tabs_query H windowId groupId).

Definition chrome_tabGroups_query (windowId : Z) : M S (list TabGroup) :=
  read (TabGroupsQuery windowId) Groups (tabGroups_query H windowId).

Definition chrome_tabs_move (tabId windowId index : Z) : M S unit :=
  mutate (TabsMove tabId windowId index) (fun _ => Void)
         (tabs_move H tabId windowId index).

Definition chrome_tabs_move_many (tabIds : list Z) (windowId index : Z)
  : M S unit :=
  mutate (TabsMoveMany tabIds windowId index) (fun _ => Void)
         (tabs_move_many H tabIds windowId index).

Definition chrome_tabGroups_move (groupId windowId index : Z) : M S unit :=
  mutate (TabGroupsMove groupId windowId index) (fun _ => Void)
         (tabGroups_move H groupId windowId index).

Definition chrome_tabs_update (tabId : Z) (pin : bool) : M S unit :=
  mutate (TabsUpdate tabId pin) (fun _ => Void) (tabs_update H tabId pin).

Definition chrome_tabs_group (tabIds : list Z) (windowId : Z) : M S Z :=
  mutate (TabsGroup tabIds windowId) GroupId (tabs_group H tabIds windowId).

Definition chrome_tabGroups_update
    (groupId : Z) (title : string) (color : Color) (collapsed : bool)
  : M S unit :=
  mutate (TabGroupsUpdate groupId title color collapsed) (fun _ => Void)
         (tabGroups_update H groupId title color collapsed).

(** *** Safe tab operations *)

(** [safeMove(tabId, windowId, index = TAB_POSITION.END)] *)
Definition safeMove (tabId windowId : Z) (index : option Z) : M S bool :=
  let index := default TAB_POSITION_END index in
  try_catch
    (chrome_tabs_move tabId windowId index ;; ret true)
    (fun error => console_error (FailedToMoveTab tabId error) ;; ret false).

Definition safeMoveMultiple (tabIds : list Z) (windowId : Z) : M S bool :=
  try_catch
    (chrome_tabs_move_many tabIds windowId TAB_POSITION_END ;; ret true)
    (fun error => console_error (FailedToMoveTabs error) ;; ret false).

Definition safeMoveGroup (groupId windowId : Z) : M S bool :=
  try_catch
    (chrome_tabGroups_move groupId windowId TAB_POSITION_END ;; ret true)
    (fun error => console_error (FailedToMoveGroup groupId error) ;; ret false).

(** *** Tab migration *)

Definition migratePinnedTabs (tabs : list Tab) (targetWindowId : Z)
  : M S unit :=
  for_of tabs (fun tab =>
    moved <- safeMove (tab_id tab) targetWindowId (Some TAB_POSITION_START) ;;
    if moved : bool
    then try_catch (chrome_tabs_update (tab_id tab) true) (fun _ => ret tt)
    else ret tt).

Definition recreateGroup
    (group : TabGroup) (tabs : list Tab) (targetWindowId : Z) : M S unit :=
  let tabIds := map tab_id tabs in
  moved <- safeMoveMultiple tabIds targetWindowId ;;
  if negb moved then ret tt
  else
    try_catch
      (newGroupId <- chrome_tabs_group tabIds targetWindowId ;;
       chrome_tabGroups_update newGroupId
         (group_title group) (group_color group) (group_collapsed group))
      (fun error => console_error (FailedToRecreateGroup error)).

Definition migrateTabGroups
    (groupedTabs : list GroupedTabs) (targetWindowId : Z) : M S unit :=
  for_of groupedTabs (fun '(mkGrouped group tabs) =>
    if (length tabs =? 0)%nat then ret tt
    else
      moved <- safeMoveGroup (group_id group) targetWindowId ;;
      if negb moved then recreateGroup group tabs targetWindowId
      else ret tt).

Definition migrateTabs (tabIds : list Z) (targetWindowId : Z) : M S unit :=
  if (length tabIds =? 0)%nat then ret tt
  else
    moved <- safeMoveMultiple tabIds targetWindowId ;;
    if negb moved
    then for_of tabIds (fun tabId =>
           safeMove tabId targetWindowId None ;; ret tt)
    else ret tt.

(** *** Tab classification *)

Definition classifyTabs (tabs : list Tab) (windowId : Z)
  : M S ClassifiedTabs :=
  let pinned := List.filter (fun t => tab_pinned t) tabs in
  let unpinned := List.filter (fun t => negb (tab_pinned t)) tabs in
  groups <- chrome_tabGroups_query windowId ;;
  grouped <- promise_all
    (map (fun group =>
            groupTabs <- chrome_tabs_query windowId (Some (group_id group)) ;;
            ret (mkGrouped group groupTabs))
         groups) ;;
  let groupedTabIds : gset Z :=
    list_to_set (concat (map (fun g => map tab_id (gt_tabs g)) grouped)) in
  let ungrouped :=
    List.filter (fun t => negb (bool_decide (tab_id t ∈ groupedTabIds)))
                unpinned in
  ret (mkClassified pinned grouped ungrouped).

(** *** Main processing *)

Definition getSourceWindows (targetWindowId : Z) : M S (list Window) :=
  targetWindow <- chrome_windows_get targetWindowId ;;
  allWindows <- chrome_windows_getAll [normal] ;;
  pwa <- get_pwaWindowIds ;;
  ret (List.filter
         (fun w =>
            negb (win_id w =? targetWindowId)
            && Bool.eqb (win_incognito w) (win_incognito targetWindow)
            && negb (bool_decide (win_id w ∈ pwa)))
         allWindows).

Definition migrateWindow (sourceWindowId targetWindowId : Z) : M S unit :=
  tabs <- chrome_tabs_query sourceWindowId None ;;
  if (length tabs =? 0)%nat then ret tt
  else
    c <- classifyTabs tabs sourceWindowId ;;
    migratePinnedTabs (pinned c) targetWindowId ;;
    migrateTabGroups (grouped c) targetWindowId ;;
    migrateTabs (map tab_id (ungrouped c)) targetWindowId.

Definition executeMerge (targetWindowId : Z) : M S unit :=
  try_catch
    (sourceWindows <- getSourceWindows targetWindowId ;;
     for_of sourceWindows (fun window =>
       migrateWindow (win_id window) targetWindowId))
    (fun error => console_error (WindowMergeFailed error)).

End Script.

(** *** The listeners that maintain the registry *)

(** [chrome.runtime.onMessage] listener. *)
Definition onMessage {S} (message : Message) (sender : MessageSender)
    (st : St S) : St S :=
  if bool_decide (msg_type message = "PWA_DETECTED"%string) then
    match sender_tab sender with
    | Some tab =>
        let windowId := tab_windowId tab in
        mkSt ({[windowId]} ∪ pwaWindowIds st) (host st)
    | None => st
    end
  else st.

(** [chrome.windows.onRemoved] listener. *)
Definition onRemoved {S} (windowId : Z) (st : St S) : St S :=
  mkSt (pwaWindowIds st ∖ {[windowId]}) (host st).

(** ** A reference host

    The browser is outside the repository.  For the claims that speak of
    where tabs and groups end up, the primitives are given the meaning the
    script relies on: a window's tab strip is the sub-list of [b_tabs] that
    belongs to it; a move puts the tab at the requested index of the target
    strip ([-1] is the end); a tab that changes window arrives unpinned and
    ungrouped; a group moves as a unit and keeps its identity; a group made
    by [tabs.group] gets an identifier no listed group has; a group whose
    tabs have all left stays listed, and so does a window whose tabs have
    all left (a browser may close it; nothing below is said of the list of
    windows after a merge); setting the pinned flag does not reorder.  A
    request is rejected when [b_refuses] says so or when it names a tab,
    group or window that does not exist, and a rejected request changes
    nothing.  The order of a window's tabs is kept for the answers to
    queries only: no statement below is about where in its window a tab
    ends up. *)

#[global] Instance WindowType_eq_dec : EqDecision WindowType.
Proof. solve_decision. Defined.

Definition TAB_GROUP_ID_NONE : Z := -1.

Record Browser := mkBrowser {
  b_windows : list Window;
  b_tabs : list Tab;
  b_groups : list TabGroup;
  b_refuses : Request -> bool
}.

Definition set_tabs (b : Browser) (ts : list Tab) : Browser :=
  mkBrowser (b_windows b) ts (b_groups b) (b_refuses b).

Definition has_tab (b : Browser) (tabId : Z) : bool :=
  existsb (fun t => tab_id t =? tabId) (b_tabs b).

Definition has_window (b : Browser) (windowId : Z) : bool :=
  existsb (fun w => win_id w =? windowId) (b_windows b).

Definition has_group (b : Browser) (groupId : Z) : bool :=
  existsb (fun g => group_id g =? groupId) (b_groups b).

(** The request is well-formed in the current state. *)
Definition valid (b : Browser) (r : Request) : bool :=
  match r with
  | WindowsGet w => has_window b w
  | WindowsGetAll _ | TabsQuery _ _ | TabGroupsQuery _ => true
  | TabsMove t w _ => has_tab b t && has_window b w
  | TabsMoveMany ts w _ => forallb (has_tab b) ts && has_window b w
  | TabGroupsMove g w _ => has_group b g && has_window b w
  | TabsUpdate t _ => has_tab b t
  | TabsGroup ts w =>
      negb (length ts =? 0)%nat && forallb (has_tab b) ts && has_window b w
  | TabGroupsUpdate g _ _ _ => has_group b g
  end.

Definition accepts (b : Browser) (r : Request) : bool :=
  negb (b_refuses b r) && valid b r.

(** Insert the block [ts] before the [n]-th tab of window [w]. *)
Fixpoint place (w : Z) (n : nat) (ts l : list Tab) : list Tab :=
  match l with
  | [] => ts
  | x :: l' =>
      if tab_windowId x =? w then
        match n with
        | O => ts ++ x :: l'
        | Datatypes.S n' => x :: place w n' ts l'
        end
      else x :: place w n ts l'
  end.

Definition place_at (w index : Z) (ts l : list Tab) : list Tab :=
  if index <? 0 then l ++ ts else place w (Z.to_nat index) ts l.

(** The tab as it arrives in window [w]. *)
Definition arrive (w : Z) (t : Tab) : Tab :=
  if tab_windowId t =? w then t
  else mkTab (tab_id t) w false TAB_GROUP_ID_NONE.

Definition move_tab (tabId w index : Z) (l : list Tab) : list Tab :=
  place_at w index
    (map (arrive w) (List.filter (fun t => tab_id t =? tabId) l))
    (List.filter (fun t => negb (tab_id t =? tabId)) l).

(** A batch is moved tab by tab, to consecutive indices. *)
Fixpoint move_tabs (tabIds : list Z) (w index : Z) (l : list Tab) : list Tab :=
  match tabIds with
  | [] => l
  | tabId :: rest =>
      move_tabs rest w (if index <? 0 then index else index + 1)
                (move_tab tabId w index l)
  end.

Definition set_pinned (p : bool) (t : Tab) : Tab :=
  mkTab (tab_id t) (tab_windowId t) p (tab_groupId t).

Definition with_window (w : Z) (t : Tab) : Tab :=
  mkTab (tab_id t) w (tab_pinned t) (tab_groupId t).

Definition move_group_tabs (groupId w index : Z) (l : list Tab) : list Tab :=
  place_at w index
    (map (with_window w) (List.filter (fun t => tab_groupId t =? groupId) l))
    (List.filter (fun t => negb (tab_groupId t =? groupId)) l).

Definition fresh_group_id (gs : list TabGroup) : Z :=
  1 + foldr Z.max 0 (map group_id gs).

Definition effect (r : Request) (b : Browser) : Browser :=
  match r with
  | WindowsGet _ | WindowsGetAll _ | TabsQuery _ _ | TabGroupsQuery _ => b
  | TabsMove t w i => set_tabs b (move_tab t w i (b_tabs b))
  | TabsMoveMany ts w i => set_tabs b (move_tabs ts w i (b_tabs b))
  | TabGroupsMove g w i =>
      mkBrowser (b_windows b)
        (move_group_tabs g w i (b_tabs b))
        (map (fun x =>
                if group_id x =? g
                then mkGroup (group_id x) w (group_title x) (group_color x)
                             (group_collapsed x)
                else x)
             (b_groups b))
        (b_refuses b)
  | TabsUpdate t p =>
      set_tabs b
        (map (fun x => if tab_id x =? t then set_pinned p x else x)
             (b_tabs b))
  | TabsGroup ts w =>
      let g := fresh_group_id (b_groups b) in
      mkBrowser (b_windows b)
        (map (fun x =>
                if bool_decide (tab_id x ∈ ts)
                then mkTab (tab_id x) w false g
                else x)
             (b_tabs b))
        (b_groups b ++ [mkGroup g w "" grey false])
        (b_refuses b)
  | TabGroupsUpdate g title color collapsed =>
      mkBrowser (b_windows b) (b_tabs b)
        (map (fun x =>
                if group_id x =? g
                then mkGroup (group_id x) (group_windowId x) title color collapsed
                else x)
             (b_groups b))
        (b_refuses b)
  end.

Definition answer {A} (r : Request) (a : Browser -> A) (b : Browser)
  : Result A :=
  if accepts b r then Resolved (a b) else Rejected "rejected".

Definition perform {A} (r : Request) (a : Browser -> A) (b : Browser)
  : Result A * Browser :=
  if accepts b r then (Resolved (a b), effect r b) else (Rejected "rejected", b).

Definition window_of (windowId : Z) (b : Browser) : Window :=
  default (mkWindow windowId false normal)
          (List.find (fun w => win_id w =? windowId) (b_windows b)).

Definition tabs_of (windowId : Z) (groupId : option Z) (b : Browser)
  : list Tab :=
  List.filter
    (fun t =>
       (tab_windowId t =? windowId)
       && match groupId with
          | Some g => tab_groupId t =? g
          | None => true
          end)
    (b_tabs b).

Definition groups_of (windowId : Z) (b : Browser) : list TabGroup :=
  List.filter (fun g => group_windowId g =? windowId) (b_groups b).

Definition browser : Host Browser := {|
  windows_get w := answer (WindowsGet w) (window_of w);
  windows_getAll tys :=
    answer (WindowsGetAll tys)
      (fun b => List.filter (fun w => bool_decide (win_type w ∈ tys))
                            (b_windows b));
  tabs_query w g := answer (TabsQuery w g) (tabs_of w g);
  tabGroups_query w := answer (TabGroupsQuery w) (groups_of w);
  tabs_move t w i := perform (TabsMove t w i) (fun _ => tt);
  tabs_move_many ts w i := perform (TabsMoveMany ts w i) (fun _ => tt);
  tabGroups_move g w i := perform (TabGroupsMove g w i) (fun _ => tt);
  tabs_update t p := perform (TabsUpdate t p) (fun _ => tt);
  tabs_group ts w :=
    perform (TabsGroup ts w) (fun b => fresh_group_id (b_groups b));
  tabGroups_update g title color collapsed :=
    perform (TabGroupsUpdate g title color collapsed) (fun _ => tt)
|}.

(** The members of group [g] in window [w], as tab identifiers in order. *)
Definition members (w g : Z) (b : Browser) : list Z :=
  map tab_id (tabs_of w (Some g) b).

(** ** Trace shapes of the three phases

    Each relation says which requests a phase issues for its input, in
    which order, and how each reply decides what follows. *)

(** Phase A, one pinned tab after the other. *)
Inductive PhaseA (target : Z) : list Tab -> Trace -> Prop :=
| PhaseA_done : PhaseA target [] []
| PhaseA_pinned tab tabs tr :
    PhaseA target tabs tr ->
    PhaseA target (tab :: tabs)
      (Called (TabsMove (tab_id tab) target TAB_POSITION_START) Void
       :: Called (TabsUpdate (tab_id tab) true) Void :: tr)
| PhaseA_unpinned tab tabs e tr :
    PhaseA target tabs tr ->
    PhaseA target (tab :: tabs)
      (Called (TabsMove (tab_id tab) target TAB_POSITION_START) Void
       :: Called (TabsUpdate (tab_id tab) true) (Failure e) :: tr)
| PhaseA_stayed tab tabs e tr :
    PhaseA target tabs tr ->
    PhaseA target (tab :: tabs)
      (Called (TabsMove (tab_id tab) target TAB_POSITION_START) (Failure e)
       :: Logged (FailedToMoveTab (tab_id tab) e) :: tr).

(** What the script does for one group that has member tabs. *)
Inductive GroupStep (target : Z) (group : TabGroup) (tabs : list Tab)
  : Trace -> Prop :=
| Group_moved :
    GroupStep target group tabs
      [Called (TabGroupsMove (group_id group) target TAB_POSITION_END) Void]
| Group_recreated e newGroupId :
    GroupStep target group tabs
      [Called (TabGroupsMove (group_id group) target TAB_POSITION_END) (Failure e);
       Logged (FailedToMoveGroup (group_id group) e);
       Called (TabsMoveMany (map tab_id tabs) target TAB_POSITION_END) Void;
       Called (TabsGroup (map tab_id tabs) target) (GroupId newGroupId);
       Called (TabGroupsUpdate newGroupId (group_title group)
                 (group_color group) (group_collapsed group)) Void]
| Group_update_failed e newGroupId e' :
    GroupStep target group tabs
      [Called (TabGroupsMove (group_id group) target TAB_POSITION_END) (Failure e);
       Logged (FailedToMoveGroup (group_id group) e);
       Called (TabsMoveMany (map tab_id tabs) target TAB_POSITION_END) Void;
       Called (TabsGroup (map tab_id tabs) target) (GroupId newGroupId);
       Called (TabGroupsUpdate newGroupId (group_title group)
                 (group_color group) (group_collapsed group)) (Failure e');
       Logged (FailedToRecreateGroup e')]
| Group_create_failed e e' :
    GroupStep target group tabs
      [Called (TabGroupsMove (group_id group) target TAB_POSITION_END) (Failure e);
       Logged (FailedToMoveGroup (group_id group) e);
       Called (TabsMoveMany (map tab_id tabs) target TAB_POSITION_END) Void;
       Called (TabsGroup (map tab_id tabs) target) (Failure e');
       Logged (FailedToRecreateGroup e')]
| Group_abandoned e e' :
    GroupStep target group tabs
      [Called (TabGroupsMove (group_id group) target TAB_POSITION_END) (Failure e);
       Logged (FailedToMoveGroup (group_id group) e);
       Called (TabsMoveMany (map tab_id tabs) target TAB_POSITION_END) (Failure e');
       Logged (FailedToMoveTabs e')].

(** Phase B, one group after the other; a group without tabs is skipped. *)
Inductive PhaseB (target : Z) : list GroupedTabs -> Trace -> Prop :=
| PhaseB_done : PhaseB target [] []
| PhaseB_skip g gs tr :
    gt_tabs g = [] ->
    PhaseB target gs tr ->
    PhaseB target (g :: gs) tr
| PhaseB_step g gs t1 tr :
    gt_tabs g <> [] ->
    GroupStep target (gt_group g) (gt_tabs g) t1 ->
    PhaseB target gs tr ->
    PhaseB target (g :: gs) (t1 ++ tr).

(** The fallback of Phase C: every tab on its own, to the end. *)
Inductive OneByOne (target : Z) : list Z -> Trace -> Prop :=
| OneByOne_done : OneByOne target [] []
| OneByOne_moved tabId tabIds tr :
    OneByOne target tabIds tr ->
    OneByOne target (tabId :: tabIds)
      (Called (TabsMove tabId target TAB_POSITION_END) Void :: tr)
| OneByOne_stayed tabId tabIds e tr :
    OneByOne target tabIds tr ->
    OneByOne target (tabId :: tabIds)
      (Called (TabsMove tabId target TAB_POSITION_END) (Failure e)
       :: Logged (FailedToMoveTab tabId e) :: tr).

Inductive PhaseC (target : Z) (tabIds : list Z) : Trace -> Prop :=
| PhaseC_nothing :
    tabIds = [] -> PhaseC target tabIds []
| PhaseC_batch :
    tabIds <> [] ->
    PhaseC target tabIds
      [Called (TabsMoveMany tabIds target TAB_POSITION_END) Void]
| PhaseC_fallback e tr :
    tabIds <> [] ->
    OneByOne target tabIds tr ->
    PhaseC target tabIds
      (Called (TabsMoveMany tabIds target TAB_POSITION_END) (Failure e)
       :: Logged (FailedToMoveTabs e) :: tr).

(** The single-tab move requests of a trace, with whether they succeeded. *)
Definition single_moves (tr : Trace) : list (Z * Z * Z) :=
  omap (fun ev =>
          match ev with
          | Called (TabsMove t w i) _ => Some (t, w, i)
          | _ => None
          end) tr.

(** ** Traces determine the host state

    [respond] is the host's answer to a request, and its next state.  A
    trace is [coherent] from a state when each reply in it is the answer
    the host gives at that point; [after] is the state the trace leads to. *)

Definition respond {S} (H : Host S) (r : Request) (s : S) : Reply * S :=
  match r with
  | WindowsGet w => (reply_of AWindow (windows_get H w s), s)
  | WindowsGetAll tys => (reply_of Windows (windows_getAll H tys s), s)
  | TabsQuery w g => (reply_of Tabs (tabs_query H w g s), s)
  | TabGroupsQuery w => (reply_of Groups (tabGroups_query H w s), s)
  | TabsMove t w i =>
      (reply_of (fun _ => Void) (fst (tabs_move H t w i s)),
       snd (tabs_move H t w i s))
  | TabsMoveMany ts w i =>
      (reply_of (fun _ => Void) (fst (tabs_move_many H ts w i s)),
       snd (tabs_move_many H ts w i s))
  | TabGroupsMove g w i =>
      (reply_of (fun _ => Void) (fst (tabGroups_move H g w i s)),
       snd (tabGroups_move H g w i s))
  | TabsUpdate t p =>
      (reply_of (fun _ => Void) (fst (tabs_update H t p s)),
       snd (tabs_update H t p s))
  | TabsGroup ts w =>
      (reply_of GroupId (fst (tabs_group H ts w s)),
       snd (tabs_group H ts w s))
  | TabGroupsUpdate g title color collapsed =>
      (reply_of (fun _ => Void) (fst (tabGroups_update H g title color collapsed s)),
       snd (tabGroups_update H g title color collapsed s))
  end.

Fixpoint coherent {S} (H : Host S) (s : S) (tr : Trace) : Prop :=
  match tr with
  | [] => True
  | Called r a :: tr' =>
      a = fst (respond H r s) /\ coherent H (snd (respond H r s)) tr'
  | Logged _ :: tr' => coherent H s tr'
  end.

Fixpoint after {S} (H : Host S) (s : S) (tr : Trace) : S :=
  match tr with
  | [] => s
  | Called r _ :: tr' => after H (snd (respond H r s)) tr'
  | Logged _ :: tr' => after H s tr'
  end.

(** A program is sound when every run of it is coherent with the host and
    ends in the state its trace leads to, the registry untouched. *)
Definition sound {S} (H : Host S) {A} (m : M S A) : Prop :=
  forall st tr r st',
    m st = (tr, r, st') ->
    coherent H (host st) tr
    /\ host st' = after H (host st) tr
    /\ pwaWindowIds st' = pwaWindowIds st.

(** ** Classification *)

(** The reads of the per-group callbacks: each group with the host's answer
    to the query for its tabs. *)
Definition group_reads {S} (H : Host S) (w : Z) (s : S)
    (groups : list TabGroup) : list (TabGroup * Result (list Tab)) :=
  map (fun g => (g, tabs_query H w (Some (group_id g)) s)) groups.

(** The value of the [Promise.all] over those answers. *)
Fixpoint gather (l : list (TabGroup * Result (list Tab)))
  : Result (list GroupedTabs) :=
  match l with
  | [] => Resolved []
  | (g, r) :: l' =>
      match r, gather l' with
      | Resolved ts, Resolved gs => Resolved (mkGrouped g ts :: gs)
      | Rejected e, _ => Rejected e
      | _, Rejected e => Rejected e
      end
  end.

Definition read_events (w : Z) (l : list (TabGroup * Result (list Tab)))
  : Trace :=
  map (fun '(g, r) => Called (TabsQuery w (Some (group_id g))) (reply_of Tabs r)) l.

(** The identifiers of all tabs listed in [grouped]. *)
Definition grouped_ids (grouped : list GroupedTabs) : list Z :=
  concat (map (fun g => map tab_id (gt_tabs g)) grouped).

(** The classification computed from the tabs and the per-group answers. *)
Definition classified (tabs : list Tab) (grouped : list GroupedTabs)
  : ClassifiedTabs :=
  mkClassified
    (List.filter (fun t => tab_pinned t) tabs)
    grouped
    (List.filter
       (fun t => negb (bool_decide (tab_id t ∈ (list_to_set (grouped_ids grouped) : gset Z))))
       (List.filter (fun t => negb (tab_pinned t)) tabs)).

(** ** The reference host answers as its state says *)

Definition browser_reply (b : Browser) (r : Request) : Reply :=
  if accepts b r then
    match r with
    | WindowsGet w => AWindow (window_of w b)
    | WindowsGetAll tys =>
        Windows (List.filter (fun w => bool_decide (win_type w ∈ tys))
                             (b_windows b))
    | TabsQuery w g => Tabs (tabs_of w g b)
    | TabGroupsQuery w => Groups (groups_of w b)
    | TabsGroup _ _ => GroupId (fresh_group_id (b_groups b))
    | _ => Void
    end
  else Failure "rejected".

Definition browser_next (b : Browser) (r : Request) : Browser :=
  if accepts b r then effect r b else b.

(** ** Looking a tab up on the reference host *)

Definition lookup_tab (x : Z) (b : Browser) : option Tab :=
  List.find (fun t => tab_id t =? x) (b_tabs b).

(** ** Trace shape of a window's migration and of a merge *)

(** The reads of a classification that resolved with [grouped]. *)
Definition classify_events (w : Z) (grouped : list GroupedTabs) : Trace :=
  Called (TabGroupsQuery w) (Groups (map gt_group grouped))
  :: map (fun g => Called (TabsQuery w (Some (group_id (gt_group g))))
                          (Tabs (gt_tabs g)))
         grouped.

(** A window handled to the end: its reads, then Phase A, then Phase B,
    then Phase C, each on its part of the classification. *)
Inductive WindowDone (target source : Z) : Trace -> Prop :=
| Window_empty :
    WindowDone target source [Called (TabsQuery source None) (Tabs [])]
| Window_migrated tabs grouped trA trB trC :
    tabs <> [] ->
    PhaseA target (pinned (classified tabs grouped)) trA ->
    PhaseB target (grouped) trB ->
    PhaseC target (map tab_id (ungrouped (classified tabs grouped))) trC ->
    WindowDone target source
      (Called (TabsQuery source None) (Tabs tabs)
       :: classify_events source grouped ++ trA ++ trB ++ trC).

(** A window whose reads were rejected: nothing but reads was issued. *)
Inductive WindowAborted (source : Z) : Trace -> Error -> Prop :=
| Aborted_query e :
    WindowAborted source [Called (TabsQuery source None) (Failure e)] e
| Aborted_groups tabs e :
    tabs <> [] ->
    WindowAborted source
      [Called (TabsQuery source None) (Tabs tabs);
       Called (TabGroupsQuery source) (Failure e)] e
| Aborted_group_tabs tabs reads e :
    tabs <> [] ->
    gather reads = Rejected e ->
    WindowAborted source
      (Called (TabsQuery source None) (Tabs tabs)
       :: Called (TabGroupsQuery source) (Groups (map fst reads))
       :: read_events source reads) e.

(** The source windows in order: each window's trace is complete before the
    next window's begins; a rejected read ends the run. *)
Inductive WindowsRun (target : Z) : list Window -> Trace -> Result unit -> Prop :=
| Run_done : WindowsRun target [] [] (Resolved tt)
| Run_next w ws t1 tr r :
    WindowDone target (win_id w) t1 ->
    WindowsRun target ws tr r ->
    WindowsRun target (w :: ws) (t1 ++ tr) r
| Run_abort w ws t1 e :
    WindowAborted (win_id w) t1 e ->
    WindowsRun target (w :: ws) t1 (Rejected e).

(** ** Classification on the reference host *)

(** All tabs listed in [grouped]. *)
Definition grouped_tabs (grouped : list GroupedTabs) : list Tab :=
  concat (map gt_tabs grouped).

(** ** A group and its tabs on the reference host

    [TabsInv W gid ids l]: in the tab list [l] the tabs named in [ids] all
    exist, are in window [W] and in group [gid], and no other tab is in
    that group.  [GroupsInv W gid G gs]: the group list [gs] has the group
    [gid], in window [W], with the title, color and collapsed flag of [G]. *)

Record TabsInv (W gid : Z) (ids : list Z) (l : list Tab) : Prop := {
  ti_in : forall t, t ∈ l -> tab_id t ∈ ids ->
                    tab_windowId t = W /\ tab_groupId t = gid;
  ti_out : forall t, t ∈ l -> tab_id t ∉ ids -> tab_groupId t <> gid;
  ti_ex : forall x, x ∈ ids -> exists t, t ∈ l /\ tab_id t = x
}.

Definition GroupsInv (W gid : Z) (G : TabGroup) (gs : list TabGroup) : Prop :=
  (exists g, g ∈ gs /\ group_id g = gid)
  /\ forall g, g ∈ gs -> group_id g = gid ->
               g = mkGroup gid W (group_title G) (group_color G)
                           (group_collapsed G).

(** Every tab is ungrouped or in a listed group. *)
Definition grouped_ok (b : Browser) : Prop :=
  forall t, t ∈ b_tabs b ->
            tab_groupId t = TAB_GROUP_ID_NONE
            \/ tab_groupId t ∈ map group_id (b_groups b).

(** The group identifiers [gids] are still listed. *)
Definition keeps (gids : list Z) (b : Browser) : Prop :=
  forall g, g ∈ gids -> g ∈ map group_id (b_groups b).

Record Inv (W gid : Z) (G : TabGroup) (ids gids : list Z) (target : Z)
    (b : Browser) : Prop := {
  inv_tabs : TabsInv W gid ids (b_tabs b);
  inv_groups : GroupsInv W gid G (b_groups b);
  inv_ok : grouped_ok b;
  inv_keeps : keeps gids b;
  inv_target : has_window b target = true;
  inv_gid : gid <> TAB_GROUP_ID_NONE
}.

(** A request that names neither a tab of [ids] nor the group [gid]. *)
Definition foreign (ids : list Z) (gid : Z) (r : Request) : Prop :=
  match r with
  | TabsMove x _ _ => x ∉ ids
  | TabsMoveMany xs _ _ => forall x, x ∈ xs -> x ∉ ids
  | TabGroupsMove g _ _ => g <> gid
  | TabsGroup xs _ => forall x, x ∈ xs -> x ∉ ids
  | TabGroupsUpdate g _ _ _ => g <> gid
  | _ => True
  end.

(** The three successful requests of the recreate path, one after the
    other. *)
Definition recreated (G : TabGroup) (ids : list Z) (target i : Z)
    (b : Browser) : Browser :=
  let b2 := effect (TabsMoveMany ids target i) b in
  let n := fresh_group_id (b_groups b2) in
  effect (TabGroupsUpdate n (group_title G) (group_color G)
                          (group_collapsed G))
         (effect (TabsGroup ids target) b2).

(** ** The group after the window's migration *)

(** [g] is a group of window [target] with the title, color and collapsed
    flag of [G] whose members are exactly [ids]. *)
Definition carries (b : Browser) (target : Z) (G : TabGroup) (ids : list Z)
    (g : TabGroup) : Prop :=
  g ∈ b_groups b
  /\ group_windowId g = target
  /\ group_title g = group_title G
  /\ group_color g = group_color G
  /\ group_collapsed g = group_collapsed G
  /\ forall x, x ∈ members target (group_id g) b <-> x ∈ ids.

(** ** Concrete states for the examples *)

(** A window in which tab 20 is pinned and a member of group 7. *)
Definition pinned_in_group : Browser :=
  mkBrowser
    [mkWindow 1 false normal; mkWindow 2 false normal]
    [mkTab 10 1 false (-1); mkTab 20 2 true 7; mkTab 22 2 false 7;
     mkTab 23 2 false (-1)]
    [mkGroup 7 2 "Work" blue false]
    (fun _ => false).

(** What the classifier returns for window 2 of [pinned_in_group]. *)
Definition pinned_in_group_classified : ClassifiedTabs :=
  mkClassified
    [mkTab 20 2 true 7]
    [mkGrouped (mkGroup 7 2 "Work" blue false)
               [mkTab 20 2 true 7; mkTab 22 2 false 7]]
    [mkTab 23 2 false (-1)].

(** A host that refuses to move groups and to move tabs in batches. *)
Definition stubborn : Browser :=
  mkBrowser
    [mkWindow 1 false normal; mkWindow 2 false normal]
    [mkTab 10 1 false (-1); mkTab 22 2 false 7]
    [mkGroup 7 2 "Work" blue false]
    (fun r => match r with
              | TabGroupsMove _ _ _ | TabsMoveMany _ _ _ => true
              | _ => false
              end).

(** [stubborn] after the migration of window 2 into window 1. *)
Definition stubborn_after : Browser :=
  host (snd (migrateWindow browser 2 1 (mkSt ∅ stubborn))).

(** Six windows (3 is incognito, 5 is a popup, 6 is empty); window 2 has
    two pinned tabs, one tab in group 7 and one loose tab. *)
Definition demo (refuses : Request -> bool) : Browser :=
  mkBrowser
    [mkWindow 1 false normal; mkWindow 2 false normal; mkWindow 3 true normal;
     mkWindow 4 false normal; mkWindow 5 false popup; mkWindow 6 false normal]
    [mkTab 10 1 false (-1); mkTab 20 2 true (-1); mkTab 21 2 true (-1);
     mkTab 22 2 false 7; mkTab 23 2 false (-1); mkTab 30 3 false (-1);
     mkTab 40 4 false (-1); mkTab 50 5 false (-1)]
    [mkGroup 7 2 "Work" blue false]
    refuses.

(** The host refuses nothing. *)
Definition willing : Request -> bool := fun _ => false.

(** The host refuses to move tab 20 and to pin tab 21. *)
Definition picky : Request -> bool :=
  fun r =>
    match r with
    | TabsMove 20 _ _ => true
    | TabsUpdate 21 _ => true
    | _ => false
    end.

(** The host refuses to move groups. *)
Definition reluctant : Request -> bool :=
  fun r => match r with TabGroupsMove _ _ _ => true | _ => false end.

(** Two windows; window 2 has group 7 with tab 22 and group 8 with tab 24.
    The host refuses to move group 7 and to move its tab as a batch. *)
Definition two_groups : Browser :=
  mkBrowser
    [mkWindow 1 false normal; mkWindow 2 false normal]
    [mkTab 10 1 false (-1); mkTab 22 2 false 7; mkTab 24 2 false 8]
    [mkGroup 7 2 "Work" blue false; mkGroup 8 2 "Play" red true]
    (fun r => match r with
              | TabGroupsMove 7 _ _ => true
              | TabsMoveMany (22 :: _) _ _ => true
              | _ => false
              end).



(** The migration of window 2 of [demo] into window 1. *)
Definition demo_window (refuses : Request -> bool) :=
  migrateWindow browser 2 1 (mkSt ∅ (demo refuses)).

(** Group 7 of [demo]. *)
Definition work : TabGroup := mkGroup 7 2 "Work" blue false.

(** ** The entry points *)

Definition COMMANDS_MERGE_WINDOWS : string := "merge-windows".

(** [chrome.action.onClicked] listener. *)
Definition onClicked {S} (H : Host S) (windowId : Z) : M S unit :=
  executeMerge H windowId.

(** [chrome.commands.onCommand] listener.  [active] is the host's answer to
    [chrome.tabs.query({ active: true, currentWindow: true })]; the traces
    record the requests of a merge, and this read, which precedes the merge,
    leaves no event.  [const [tab] = ...] takes the first tab, if any.  The
    listener starts the merge without awaiting it; the run below is that of
    the merge it started. *)
Definition onCommand {S} (H : Host S) (active : S -> Result (list Tab))
    (command : string) : M S unit :=
  if bool_decide (command = COMMANDS_MERGE_WINDOWS) then
    tabs <- (fun st => ([], active (host st), st)) ;;
    match tabs with
    | tab :: _ => executeMerge H (tab_windowId tab)
    | [] => ret tt
    end
  else ret tt.

(** ** The content script

    [matchMedia q] stands for [window.matchMedia(q).matches] in the page. *)

Definition PWA_DISPLAY_MODES : list string :=
  ["standalone"; "minimal-ui"; "fullscreen"; "window-controls-overlay"]%string.

(** The template literal [`(display-mode: ${mode})`]. *)
Definition display_mode_query (mode : string) : string :=
  String.append "(display-mode: " (String.append mode ")").

Definition isPWAMode (matchMedia : string -> bool) : bool :=
  existsb (fun mode => matchMedia (display_mode_query mode)) PWA_DISPLAY_MODES.

(** The message the page sends, if it sends one; a failure to send is
    swallowed by the [catch]. *)
Definition notifyPWAStatus (matchMedia : string -> bool) (href : string)
  : option Message :=
  if isPWAMode matchMedia then Some (mkMessage "PWA_DETECTED" href) else None.

(** The runtime hands a sent message to the background listener. *)
Definition deliver {S} (sent : option Message) (sender : MessageSender)
    (st : St S) : St S :=
  match sent with
  | Some message => onMessage message sender st
  | None => st
  end.

(** ** What a trace asks for *)

(** The requests of a trace, in order. *)
Definition requests (tr : Trace) : list Request :=
  omap (fun ev => match ev with Called r _ => Some r | Logged _ => None end) tr.

(** The windows whose tabs were queried, that is, whose migration began. *)
Definition window_reads (tr : Trace) : list Z :=
  omap (fun ev =>
          match ev with
          | Called (TabsQuery w None) _ => Some w
          | _ => None
          end) tr.

(** The request moves nothing anywhere but to [target], places only at the
    start or the end, and sets the pinned flag only to true. *)
Definition to_target (target : Z) (r : Request) : Prop :=
  match r with
  | TabsMove _ w i =>
      w = target /\ (i = TAB_POSITION_START \/ i = TAB_POSITION_END)
  | TabsMoveMany _ w i => w = target /\ i = TAB_POSITION_END
  | TabGroupsMove _ w i => w = target /\ i = TAB_POSITION_END
  | TabsGroup _ w => w = target
  | TabsUpdate _ p => p = true
  | _ => True
  end.

Definition event_to_target (target : Z) (ev : Event) : Prop :=
  match ev with
  | Called r _ => to_target target r
  | Logged _ => True
  end.

(** A read that the host rejected. *)
Definition read_rejected (ev : Event) : bool :=
  match ev with
  | Called r (Failure _) => negb (mutating r)
  | _ => false
  end.

(** The log entry of an aborted merge. *)
Definition merge_failed (ev : Event) : bool :=
  match ev with
  | Logged (WindowMergeFailed _) => true
  | _ => false
  end.

(** An event of one of the three phases: a mutating request that is
    [to_target], or a log entry other than that of an aborted merge. *)
Definition phase_event (target : Z) (ev : Event) : Prop :=
  match ev with
  | Called r _ => mutating r = true /\ to_target target r
  | Logged (WindowMergeFailed _) => False
  | Logged _ => True
  end.

(** A page shown in an ordinary browser tab. *)
Definition browser_page : string -> bool :=
  fun q => String.eqb q "(display-mode: browser)".

(** ** Where the tabs are after a merge on the reference host *)

(** [t'] is the tab [t] brought to window [target], or left in its window
    and in its group. *)
Definition linked (target : Z) (t t' : Tab) : Prop :=
  tab_id t' = tab_id t
  /\ (tab_windowId t' = target
      \/ (tab_windowId t' = tab_windowId t /\ tab_groupId t' = tab_groupId t)).

(** From the tab list [l] to [l'], tabs have gone nowhere but to [target]:
    each tab of [l'] comes from one of [l], and each tab of [l] is still
    there in [l']. *)
Definition drift (target : Z) (l l' : list Tab) : Prop :=
  (forall t', t' ∈ l' -> exists t, t ∈ l /\ linked target t t')
  /\ (forall t, t ∈ l -> exists t', t' ∈ l' /\ linked target t t').

(** Every tab with identifier [x] is in window [target]. *)
Definition gone (target x : Z) (l : list Tab) : Prop :=
  forall t, t ∈ l -> tab_id t = x -> tab_windowId t = target.

(** Every tab of group [g] is in window [target]. *)
Definition group_gone (target g : Z) (l : list Tab) : Prop :=
  forall t, t ∈ l -> tab_groupId t = g -> tab_windowId t = target.

(** The request is a move that names tab [x]. *)
Definition moves_tab (x : Z) (r : Request) : bool :=
  match r with
  | TabsMove y _ _ => y =? x
  | TabsMoveMany ys _ _ => bool_decide (x ∈ ys)
  | _ => false
  end.

(** Some move that names tab [x] was rejected. *)
Definition refused_for (x : Z) (tr : Trace) : Prop :=
  exists r e, Called r (Failure e) ∈ tr /\ moves_tab x r = true.

(** Nothing rejected, nothing logged. *)
Definition clean (ev : Event) : bool :=
  match ev with
  | Called _ a => succeeded a
  | Logged _ => false
  end.

(** Some move of the trace names tab [x], whatever its reply. *)
Definition attempted (x : Z) (tr : Trace) : Prop :=
  exists r a, Called r a ∈ tr /\ moves_tab x r = true.

(** The move of group [g] as a unit succeeded. *)
Definition group_moved (g : Z) (tr : Trace) : Prop :=
  exists w i a, Called (TabGroupsMove g w i) a ∈ tr /\ succeeded a = true.

(** The windows a merge into [target] migrates on the reference host: the
    normal windows of the target's profile, the target and the registered
    windows left out. *)
Definition sources (target : Z) (registry : gset Z) (b : Browser)
  : list Window :=
  List.filter
    (fun w =>
       negb (win_id w =? target)
       && Bool.eqb (win_incognito w) (win_incognito (window_of target b))
       && negb (bool_decide (win_id w ∈ registry)))
    (List.filter (fun w => bool_decide (win_type w ∈ [normal])) (b_windows b)).

(** The host refuses nothing of its own accord: it rejects a request only
    when the request names a tab, group or window that does not exist. *)
Definition cooperative (b : Browser) : Prop :=
  forall r, b_refuses b r = false.

(** Every request of the trace that is well-formed in [b] succeeded. *)
Definition sure (b : Browser) (tr : Trace) : Prop :=
  forall r a, Called r a ∈ tr -> valid b r = true -> succeeded a = true.

(** ** What the script has been told

    The tab identifiers and the group identifiers an event makes known to
    the script: those of the tabs a tab query answered with, those of the
    groups a group query answered with, and the identifier of a group that
    [tabs.group] made. *)
Definition learned_tabs (ev : Event) : list Z :=
  match ev with
  | Called (TabsQuery _ _) (Tabs ts) => map tab_id ts
  | _ => []
  end.

Definition learned_groups (ev : Event) : list Z :=
  match ev with
  | Called (TabGroupsQuery _) (Groups gs) => map group_id gs
  | Called (TabsGroup _ _) (GroupId n) => [n]
  | _ => []
  end.

(** The request names only tabs of [tabs] and groups of [groups]. *)
Definition names_known (tabs groups : list Z) (r : Request) : Prop :=
  match r with
  | TabsMove x _ _ | TabsUpdate x _ => x ∈ tabs
  | TabsMoveMany xs _ _ | TabsGroup xs _ => forall x, x ∈ xs -> x ∈ tabs
  | TabGroupsMove g _ _ | TabGroupsUpdate g _ _ _ => g ∈ groups
  | _ => True
  end.

(** Every request of the trace names only what is in [tabs] and [groups]
    or what an earlier event of the trace made known. *)
Fixpoint informed (tabs groups : list Z) (tr : Trace) : Prop :=
  match tr with
  | [] => True
  | Called r a :: tr' =>
      names_known tabs groups r
      /\ informed (learned_tabs (Called r a) ++ tabs)
                  (learned_groups (Called r a) ++ groups) tr'
  | Logged _ :: tr' => informed tabs groups tr'
  end.

(** ** Tabs a merge leaves alone on the reference host *)

(** The request names neither the tab [t] nor its group. *)
Definition spares (t : Tab) (r : Request) : Prop :=
  match r with
  | TabsMove x _ _ | TabsUpdate x _ => x <> tab_id t
  | TabsMoveMany xs _ _ | TabsGroup xs _ => tab_id t ∉ xs
  | TabGroupsMove g _ _ => g <> tab_groupId t
  | _ => True
  end.

(** The event is no query of the tabs or groups of window [w]. *)
Definition asks_elsewhere (w : Z) (ev : Event) : Prop :=
  match ev with
  | Called (TabsQuery w' _) _ | Called (TabGroupsQuery w') _ => w' <> w
  | _ => True
  end.

(** The tab [t] is in [b], where tab identifiers are unique, the groups
    with the identifier of its group are listed in its window only, and its
    group is listed unless it has none. *)
Record Apart (t : Tab) (b : Browser) : Prop := {
  apart_in : t ∈ b_tabs b;
  apart_ids : NoDup (map tab_id (b_tabs b));
  apart_groups : forall g, g ∈ b_groups b -> group_id g = tab_groupId t ->
                           group_windowId g = tab_windowId t;
  apart_listed : tab_groupId t = TAB_GROUP_ID_NONE
                 \/ tab_groupId t ∈ map group_id (b_groups b)
}.

(** * Facts about the script and the reference host *)

(** ** Running the safe operations *)

Section ScriptFacts.
Context {S : Type} (H : Host S).

Lemma safeMove_run tabId w index st :
  safeMove H tabId w index st =
    let i := default TAB_POSITION_END index in
    match tabs_move H tabId w i (host st) with
    | (Resolved _, h) =>
        ([Called (TabsMove tabId w i) Void], Resolved true,
         mkSt (pwaWindowIds st) h)
    | (Rejected e, h) =>
        ([Called (TabsMove tabId w i) (Failure e);
          Logged (FailedToMoveTab tabId e)], Resolved false,
         mkSt (pwaWindowIds st) h)
    end.
Proof.
  unfold safeMove, try_catch, bind, chrome_tabs_move, mutate, ret,
    console_error; simpl.
  destruct (tabs_move H tabId w _ (host st)) as [[u|e] h]; reflexivity.
Qed.

Lemma safeMoveMultiple_run tabIds w st :
  safeMoveMultiple H tabIds w st =
    match tabs_move_many H tabIds w TAB_POSITION_END (host st) with
    | (Resolved _, h) =>
        ([Called (TabsMoveMany tabIds w TAB_POSITION_END) Void],
         Resolved true, mkSt (pwaWindowIds st) h)
    | (Rejected e, h) =>
        ([Called (TabsMoveMany tabIds w TAB_POSITION_END) (Failure e);
          Logged (FailedToMoveTabs e)], Resolved false,
         mkSt (pwaWindowIds st) h)
    end.
Proof.
  unfold safeMoveMultiple, try_catch, bind, chrome_tabs_move_many, mutate,
    ret, console_error; simpl.
  destruct (tabs_move_many H tabIds w _ (host st)) as [[u|e] h]; reflexivity.
Qed.

Lemma safeMoveGroup_run groupId w st :
  safeMoveGroup H groupId w st =
    match tabGroups_move H groupId w TAB_POSITION_END (host st) with
    | (Resolved _, h) =>
        ([Called (TabGroupsMove groupId w TAB_POSITION_END) Void],
         Resolved true, mkSt (pwaWindowIds st) h)
    | (Rejected e, h) =>
        ([Called (TabGroupsMove groupId w TAB_POSITION_END) (Failure e);
          Logged (FailedToMoveGroup groupId e)], Resolved false,
         mkSt (pwaWindowIds st) h)
    end.
Proof.
  unfold safeMoveGroup, try_catch, bind, chrome_tabGroups_move, mutate,
    ret, console_error; simpl.
  destruct (tabGroups_move H groupId w _ (host st)) as [[u|e] h]; reflexivity.
Qed.

Lemma for_of_cons {A} (x : A) l (body : A -> M S unit) st :
  for_of (x :: l) body st =
    match body x st with
    | (t1, Resolved _, st1) =>
        match for_of l body st1 with
        | (t2, r, st2) => (t1 ++ t2, r, st2)
        end
    | (t1, Rejected e, st1) => (t1, Rejected e, st1)
    end.
Proof. reflexivity. Qed.

(** *** Phase A *)

Lemma pinned_step_run tab target st :
  (moved <- safeMove H (tab_id tab) target (Some TAB_POSITION_START) ;;
   if moved : bool
   then try_catch (chrome_tabs_update H (tab_id tab) true) (fun _ => ret tt)
   else ret tt) st =
    match tabs_move H (tab_id tab) target TAB_POSITION_START (host st) with
    | (Resolved _, h) =>
        match tabs_update H (tab_id tab) true h with
        | (Resolved _, h') =>
            ([Called (TabsMove (tab_id tab) target TAB_POSITION_START) Void;
              Called (TabsUpdate (tab_id tab) true) Void],
             Resolved tt, mkSt (pwaWindowIds st) h')
        | (Rejected e, h') =>
            ([Called (TabsMove (tab_id tab) target TAB_POSITION_START) Void;
              Called (TabsUpdate (tab_id tab) true) (Failure e)],
             Resolved tt, mkSt (pwaWindowIds st) h')
        end
    | (Rejected e, h) =>
        ([Called (TabsMove (tab_id tab) target TAB_POSITION_START) (Failure e);
          Logged (FailedToMoveTab (tab_id tab) e)],
         Resolved tt, mkSt (pwaWindowIds st) h)
    end.
Proof.
  unfold bind at 1. rewrite safeMove_run. simpl.
  destruct (tabs_move H (tab_id tab) target TAB_POSITION_START (host st))
    as [[u|e] h]; [|reflexivity].
  unfold try_catch, chrome_tabs_update, mutate, ret. simpl.
  destruct (tabs_update H (tab_id tab) true h) as [[[]|e'] h']; reflexivity.
Qed.

Lemma migratePinnedTabs_shape tabs target st :
  exists tr st',
    migratePinnedTabs H tabs target st = (tr, Resolved tt, st')
    /\ PhaseA target tabs tr
    /\ pwaWindowIds st' = pwaWindowIds st.
Proof.
  revert st. induction tabs as [|tab tabs IH]; intros st.
  - exists [], st. repeat split. constructor.
  - unfold migratePinnedTabs in *. rewrite for_of_cons.
    rewrite pinned_step_run.
    destruct (tabs_move H (tab_id tab) target TAB_POSITION_START (host st))
      as [[u|e] h].
    + destruct (tabs_update H (tab_id tab) true h) as [[u'|e'] h'];
        match goal with
        | |- context [for_of tabs _ ?s] =>
            destruct (IH s) as (tr & st' & -> & Hsh & Hp)
        end;
        eexists _, _; (split; [reflexivity|]); split; auto;
        simpl; constructor; assumption.
    + match goal with
      | |- context [for_of tabs _ ?s] =>
          destruct (IH s) as (tr & st' & -> & Hsh & Hp)
      end.
      eexists _, _; (split; [reflexivity|]); split; auto.
      simpl. constructor. assumption.
Qed.

(** *** Phase B *)

Lemma recreateGroup_run group tabs target st :
  recreateGroup H group tabs target st =
    let tabIds := map tab_id tabs in
    let p := pwaWindowIds st in
    match tabs_move_many H tabIds target TAB_POSITION_END (host st) with
    | (Rejected e, h) =>
        ([Called (TabsMoveMany tabIds target TAB_POSITION_END) (Failure e);
          Logged (FailedToMoveTabs e)], Resolved tt, mkSt p h)
    | (Resolved _, h) =>
        match tabs_group H tabIds target h with
        | (Rejected e, h1) =>
            ([Called (TabsMoveMany tabIds target TAB_POSITION_END) Void;
              Called (TabsGroup tabIds target) (Failure e);
              Logged (FailedToRecreateGroup e)], Resolved tt, mkSt p h1)
        | (Resolved newGroupId, h1) =>
            match tabGroups_update H newGroupId (group_title group)
                    (group_color group) (group_collapsed group) h1 with
            | (Rejected e, h2) =>
                ([Called (TabsMoveMany tabIds target TAB_POSITION_END) Void;
                  Called (TabsGroup tabIds target) (GroupId newGroupId);
                  Called (TabGroupsUpdate newGroupId (group_title group)
                            (group_color group) (group_collapsed group))
                         (Failure e);
                  Logged (FailedToRecreateGroup e)], Resolved tt, mkSt p h2)
            | (Resolved _, h2) =>
                ([Called (TabsMoveMany tabIds target TAB_POSITION_END) Void;
                  Called (TabsGroup tabIds target) (GroupId newGroupId);
                  Called (TabGroupsUpdate newGroupId (group_title group)
                            (group_color group) (group_collapsed group))
                         Void], Resolved tt, mkSt p h2)
            end
        end
    end.
Proof.
  unfold recreateGroup. unfold bind at 1. rewrite safeMoveMultiple_run. simpl.
  destruct (tabs_move_many H (map tab_id tabs) target TAB_POSITION_END (host st))
    as [[u|e] h]; [|reflexivity].
  unfold try_catch, bind, chrome_tabs_group, chrome_tabGroups_update, mutate,
    console_error. simpl.
  destruct (tabs_group H (map tab_id tabs) target h) as [[g|e1] h1];
    [|reflexivity].
  simpl.
  destruct (tabGroups_update H g _ _ _ h1) as [[[]|e2] h2]; reflexivity.
Qed.

Lemma group_step_run group tabs target st :
  tabs <> [] ->
  (if (length tabs =? 0)%nat then ret tt
   else
     moved <- safeMoveGroup H (group_id group) target ;;
     if negb moved then recreateGroup H group tabs target else ret tt) st =
    match tabGroups_move H (group_id group) target TAB_POSITION_END (host st) with
    | (Resolved _, h) =>
        ([Called (TabGroupsMove (group_id group) target TAB_POSITION_END) Void],
         Resolved tt, mkSt (pwaWindowIds st) h)
    | (Rejected e, h) =>
        match recreateGroup H group tabs target (mkSt (pwaWindowIds st) h) with
        | (t2, r, st2) =>
            (Called (TabGroupsMove (group_id group) target TAB_POSITION_END)
                    (Failure e)
             :: Logged (FailedToMoveGroup (group_id group) e) :: t2, r, st2)
        end
    end.
Proof.
  intros Hne. destruct tabs as [|t tabs]; [congruence|].
  change (length (t :: tabs) =? 0)%nat with false. cbv beta iota.
  unfold bind at 1. rewrite safeMoveGroup_run.
  destruct (tabGroups_move H (group_id group) target TAB_POSITION_END (host st))
    as [[u|e] h]; reflexivity.
Qed.

Lemma group_step_shape group tabs target st :
  tabs <> [] ->
  exists tr st',
    (if (length tabs =? 0)%nat then ret tt
     else
       moved <- safeMoveGroup H (group_id group) target ;;
       if negb moved then recreateGroup H group tabs target else ret tt) st
    = (tr, Resolved tt, st')
    /\ GroupStep target group tabs tr
    /\ pwaWindowIds st' = pwaWindowIds st.
Proof.
  intros Hne. rewrite group_step_run by assumption.
  destruct (tabGroups_move H (group_id group) target TAB_POSITION_END (host st))
    as [[u|e] h].
  { eexists _, _. split; [reflexivity|]. split; [constructor|reflexivity]. }
  rewrite recreateGroup_run. simpl.
  destruct (tabs_move_many H (map tab_id tabs) target TAB_POSITION_END h)
    as [[u|e1] h1].
  2:{ eexists _, _. split; [reflexivity|]. split; [constructor|reflexivity]. }
  destruct (tabs_group H (map tab_id tabs) target h1) as [[g|e2] h2].
  2:{ eexists _, _. split; [reflexivity|]. split; [constructor|reflexivity]. }
  destruct (tabGroups_update H g _ _ _ h2) as [[u3|e3] h3];
    eexists _, _; (split; [reflexivity|]); (split; [constructor|reflexivity]).
Qed.

Lemma migrateTabGroups_shape groupedTabs target st :
  exists tr st',
    migrateTabGroups H groupedTabs target st = (tr, Resolved tt, st')
    /\ PhaseB target groupedTabs tr
    /\ pwaWindowIds st' = pwaWindowIds st.
Proof.
  revert st. induction groupedTabs as [|[group tabs] gs IH]; intros st.
  - exists [], st. repeat split. constructor.
  - unfold migrateTabGroups in *. rewrite for_of_cons.
    destruct tabs as [|t tabs].
    + simpl. destruct (IH st) as (tr & st' & -> & Hsh & Hp).
      eexists _, _. split; [reflexivity|]. split; [|assumption].
      apply PhaseB_skip; [reflexivity|assumption].
    + destruct (group_step_shape group (t :: tabs) target st)
        as (t1 & st1 & Heq & Hstep & Hp1); [congruence|].
      cbv beta iota. rewrite Heq.
      destruct (IH st1) as (tr & st' & -> & Hsh & Hp).
      eexists _, _. split; [reflexivity|]. split; [|congruence].
      apply PhaseB_step; [simpl; congruence|assumption|assumption].
Qed.

(** *** Phase C *)

Lemma single_step_run tabId target st :
  (safeMove H tabId target None ;; ret tt) st =
    match tabs_move H tabId target TAB_POSITION_END (host st) with
    | (Resolved _, h) =>
        ([Called (TabsMove tabId target TAB_POSITION_END) Void],
         Resolved tt, mkSt (pwaWindowIds st) h)
    | (Rejected e, h) =>
        ([Called (TabsMove tabId target TAB_POSITION_END) (Failure e);
          Logged (FailedToMoveTab tabId e)],
         Resolved tt, mkSt (pwaWindowIds st) h)
    end.
Proof.
  unfold bind at 1. rewrite safeMove_run. simpl.
  destruct (tabs_move H tabId target TAB_POSITION_END (host st))
    as [[u|e] h]; reflexivity.
Qed.

Lemma one_by_one_shape tabIds target st :
  exists tr st',
    for_of tabIds (fun tabId => safeMove H tabId target None ;; ret tt) st
    = (tr, Resolved tt, st')
    /\ OneByOne target tabIds tr
    /\ pwaWindowIds st' = pwaWindowIds st.
Proof.
  revert st. induction tabIds as [|tabId tabIds IH]; intros st.
  - exists [], st. repeat split. constructor.
  - rewrite for_of_cons, single_step_run.
    destruct (tabs_move H tabId target TAB_POSITION_END (host st))
      as [[u|e] h];
      match goal with
      | |- context [for_of tabIds _ ?s] =>
          destruct (IH s) as (tr & st' & -> & Hsh & Hp)
      end;
      eexists _, _; (split; [reflexivity|]); split; auto;
      constructor; assumption.
Qed.

Lemma migrateTabs_shape tabIds target st :
  exists tr st',
    migrateTabs H tabIds target st = (tr, Resolved tt, st')
    /\ PhaseC target tabIds tr
    /\ pwaWindowIds st' = pwaWindowIds st.
Proof.
  unfold migrateTabs. destruct tabIds as [|tabId tabIds].
  - exists [], st. repeat split. constructor. reflexivity.
  - change (length (tabId :: tabIds) =? 0)%nat with false. cbv beta iota.
    unfold bind at 1. rewrite safeMoveMultiple_run.
    destruct (tabs_move_many H (tabId :: tabIds) target TAB_POSITION_END (host st))
      as [[u|e] h].
    + eexists _, _. split; [reflexivity|]. split; [|reflexivity].
      apply PhaseC_batch. congruence.
    + cbn [negb].
      match goal with
      | |- context [for_of (tabId :: tabIds) _ ?s] =>
          destruct (one_by_one_shape (tabId :: tabIds) target s)
            as (tr & st' & -> & Hsh & Hp)
      end.
      eexists _, _. split; [reflexivity|]. split; [|assumption].
      apply PhaseC_fallback; [congruence|assumption].
Qed.

End ScriptFacts.

(** ** Every function of the script is sound *)

Section Soundness.
Context {S : Type} (H : Host S).

Lemma coherent_app s t1 t2 :
  coherent H s (t1 ++ t2) <->
  coherent H s t1 /\ coherent H (after H s t1) t2.
Proof.
  revert s. induction t1 as [|[r a|m] t1 IH]; intros s; simpl.
  - tauto.
  - rewrite IH. tauto.
  - apply IH.
Qed.

Lemma after_app s t1 t2 :
  after H s (t1 ++ t2) = after H (after H s t1) t2.
Proof.
  revert s. induction t1 as [|[r a|m] t1 IH]; intros s; simpl; auto.
Qed.

Lemma sound_ret {A} (a : A) : sound H (ret a).
Proof. intros st tr r st' [= <- <- <-]. simpl. auto. Qed.

Lemma sound_console m : sound H (console_error m).
Proof. intros st tr r st' [= <- <- <-]. simpl. auto. Qed.

Lemma sound_get_pwaWindowIds : sound H (@get_pwaWindowIds S).
Proof. intros st tr r st' [= <- <- <-]. simpl. auto. Qed.

Lemma sound_bind {A B} (m : M S A) (k : A -> M S B) :
  sound H m -> (forall a, sound H (k a)) -> sound H (bind m k).
Proof.
  intros Hm Hk st tr r st'. unfold bind.
  destruct (m st) as [[t1 [a|e]] st1] eqn:E1.
  - destruct (k a st1) as [[t2 r2] st2] eqn:E2. intros [= <- <- <-].
    destruct (Hm _ _ _ _ E1) as (C1 & A1 & P1).
    destruct (Hk a _ _ _ _ E2) as (C2 & A2 & P2).
    rewrite coherent_app, after_app, <- A1. repeat split; auto. congruence.
  - intros [= <- <- <-]. eapply Hm; eauto.
Qed.

Lemma sound_try_catch {A} (m : M S A) (h : Error -> M S A) :
  sound H m -> (forall e, sound H (h e)) -> sound H (try_catch m h).
Proof.
  intros Hm Hh st tr r st'. unfold try_catch.
  destruct (m st) as [[t1 [a|e]] st1] eqn:E1.
  - intros [= <- <- <-]. eapply Hm; eauto.
  - destruct (h e st1) as [[t2 r2] st2] eqn:E2. intros [= <- <- <-].
    destruct (Hm _ _ _ _ E1) as (C1 & A1 & P1).
    destruct (Hh e _ _ _ _ E2) as (C2 & A2 & P2).
    rewrite coherent_app, after_app, <- A1. repeat split; auto. congruence.
Qed.

Lemma sound_for_of {A} (l : list A) (body : A -> M S unit) :
  (forall x, sound H (body x)) -> sound H (for_of l body).
Proof.
  intros Hb. induction l as [|x l IH]; simpl.
  - apply sound_ret.
  - apply sound_bind; auto.
Qed.

Lemma sound_promise_all {A} (l : list (M S A)) :
  Forall (sound H) l -> sound H (promise_all l).
Proof.
  induction 1 as [|m l Hm Hl IH]; simpl.
  - apply sound_ret.
  - intros st tr r st'.
    destruct (m st) as [[t1 r1] st1] eqn:E1.
    destruct (promise_all l st1) as [[t2 r2] st2] eqn:E2.
    intros [= <- <- <-].
    destruct (Hm _ _ _ _ E1) as (C1 & A1 & P1).
    destruct (IH _ _ _ _ E2) as (C2 & A2 & P2).
    rewrite coherent_app, after_app, <- A1. repeat split; auto. congruence.
Qed.

Lemma sound_read {A} r (inj : A -> Reply) f :
  (forall s, respond H r s = (reply_of inj (f s), s)) ->
  sound H (read r inj f).
Proof.
  intros Hr st tr a st' [= <- <- <-]. simpl. rewrite Hr. simpl. auto.
Qed.

Lemma sound_mutate {A} r (inj : A -> Reply) f :
  (forall s, respond H r s = (reply_of inj (fst (f s)), snd (f s))) ->
  sound H (mutate r inj f).
Proof.
  intros Hr st tr a st'. unfold mutate.
  destruct (f (host st)) as [x h'] eqn:E. intros [= <- <- <-]. simpl.
  rewrite Hr, E. simpl. auto.
Qed.

Ltac sound_prim :=
  first [ apply sound_read; intros; reflexivity
        | apply sound_mutate; intros; reflexivity ].

Ltac sound_step :=
  first [ apply sound_ret | apply sound_console | apply sound_get_pwaWindowIds
        | apply sound_bind; [|intros]
        | apply sound_try_catch; [|intros]
        | apply sound_for_of; intros
        | sound_prim ].

Lemma sound_safeMove t w i : sound H (safeMove H t w i).
Proof. unfold safeMove, chrome_tabs_move. repeat sound_step. Qed.

Lemma sound_safeMoveMultiple ts w : sound H (safeMoveMultiple H ts w).
Proof. unfold safeMoveMultiple, chrome_tabs_move_many. repeat sound_step. Qed.

Lemma sound_safeMoveGroup g w : sound H (safeMoveGroup H g w).
Proof. unfold safeMoveGroup, chrome_tabGroups_move. repeat sound_step. Qed.

Lemma sound_migratePinnedTabs tabs target :
  sound H (migratePinnedTabs H tabs target).
Proof.
  unfold migratePinnedTabs. apply sound_for_of. intros tab.
  apply sound_bind; [apply sound_safeMove|]. intros [|]; [|apply sound_ret].
  unfold chrome_tabs_update. repeat sound_step.
Qed.

Lemma sound_recreateGroup group tabs target :
  sound H (recreateGroup H group tabs target).
Proof.
  unfold recreateGroup. apply sound_bind; [apply sound_safeMoveMultiple|].
  intros [|]; simpl; [|apply sound_ret].
  unfold chrome_tabs_group, chrome_tabGroups_update. repeat sound_step.
Qed.

Lemma sound_migrateTabGroups gs target :
  sound H (migrateTabGroups H gs target).
Proof.
  unfold migrateTabGroups. apply sound_for_of. intros [group tabs].
  destruct (length tabs =? 0)%nat; [apply sound_ret|].
  apply sound_bind; [apply sound_safeMoveGroup|].
  intros [|]; simpl; [apply sound_ret|apply sound_recreateGroup].
Qed.

Lemma sound_migrateTabs tabIds target :
  sound H (migrateTabs H tabIds target).
Proof.
  unfold migrateTabs. destruct (length tabIds =? 0)%nat; [apply sound_ret|].
  apply sound_bind; [apply sound_safeMoveMultiple|].
  intros [|]; simpl; [apply sound_ret|].
  apply sound_for_of. intros x.
  apply sound_bind; [apply sound_safeMove|intros; apply sound_ret].
Qed.

Lemma sound_classifyTabs tabs w : sound H (classifyTabs H tabs w).
Proof.
  unfold classifyTabs, chrome_tabGroups_query.
  apply sound_bind; [sound_prim|]. intros groups.
  apply sound_bind; [|intros; apply sound_ret].
  apply sound_promise_all. apply Forall_forall. intros m Hin.
  apply list_elem_of_fmap in Hin as (g & -> & _).
  unfold chrome_tabs_query. repeat sound_step.
Qed.

Lemma sound_getSourceWindows target : sound H (getSourceWindows H target).
Proof.
  unfold getSourceWindows, chrome_windows_get, chrome_windows_getAll.
  repeat sound_step.
Qed.

Lemma sound_migrateWindow source target :
  sound H (migrateWindow H source target).
Proof.
  unfold migrateWindow, chrome_tabs_query.
  apply sound_bind; [sound_prim|]. intros tabs.
  destruct (length tabs =? 0)%nat; [apply sound_ret|].
  apply sound_bind; [apply sound_classifyTabs|]. intros c.
  apply sound_bind; [apply sound_migratePinnedTabs|]. intros _.
  apply sound_bind; [apply sound_migrateTabGroups|]. intros _.
  apply sound_migrateTabs.
Qed.

Lemma sound_executeMerge target : sound H (executeMerge H target).
Proof.
  unfold executeMerge.
  apply sound_try_catch; [|intros; apply sound_console].
  apply sound_bind; [apply sound_getSourceWindows|]. intros ws.
  apply sound_for_of. intros w. apply sound_migrateWindow.
Qed.

End Soundness.

(** ** Running the classifier *)

Section ClassifyFacts.
Context {S : Type} (H : Host S).

Lemma promise_all_reads w groups st :
  promise_all
    (map (fun group =>
            groupTabs <- chrome_tabs_query H w (Some (group_id group)) ;;
            ret (mkGrouped group groupTabs))
         groups) st
  = (read_events w (group_reads H w (host st) groups),
     gather (group_reads H w (host st) groups), st).
Proof.
  induction groups as [|g groups IH]; [reflexivity|].
  cbn [map promise_all].
  assert (Hhead :
    (groupTabs <- chrome_tabs_query H w (Some (group_id g)) ;;
     ret (mkGrouped g groupTabs)) st
    = ([Called (TabsQuery w (Some (group_id g)))
               (reply_of Tabs (tabs_query H w (Some (group_id g)) (host st)))],
       match tabs_query H w (Some (group_id g)) (host st) with
       | Resolved ts => Resolved (mkGrouped g ts)
       | Rejected e => Rejected e
       end, st)).
  { unfold bind, chrome_tabs_query, read, ret. simpl.
    destruct (tabs_query H w (Some (group_id g)) (host st)); reflexivity. }
  rewrite Hhead, IH. simpl.
  destruct (tabs_query H w (Some (group_id g)) (host st)) as [ts|e];
    destruct (gather _); reflexivity.
Qed.

Lemma classifyTabs_run tabs w st :
  classifyTabs H tabs w st =
    match tabGroups_query H w (host st) with
    | Rejected e => ([Called (TabGroupsQuery w) (Failure e)], Rejected e, st)
    | Resolved groups =>
        let reads := group_reads H w (host st) groups in
        (Called (TabGroupsQuery w) (Groups groups) :: read_events w reads,
         match gather reads with
         | Resolved grouped => Resolved (classified tabs grouped)
         | Rejected e => Rejected e
         end, st)
    end.
Proof.
  unfold classifyTabs. unfold bind at 1.
  unfold chrome_tabGroups_query, read. simpl.
  destruct (tabGroups_query H w (host st)) as [groups|e]; [|reflexivity].
  simpl. unfold bind at 1. rewrite promise_all_reads.
  destruct (gather _) as [grouped|e]; simpl.
  - rewrite app_nil_r. reflexivity.
  - reflexivity.
Qed.

Lemma gather_resolved w s groups grouped :
  gather (group_reads H w s groups) = Resolved grouped ->
  map gt_group grouped = groups
  /\ Forall (fun g =>
               tabs_query H w (Some (group_id (gt_group g))) s
               = Resolved (gt_tabs g)) grouped.
Proof.
  revert grouped. induction groups as [|g groups IH]; intros grouped; simpl.
  - intros [= <-]. split; constructor.
  - destruct (tabs_query H w (Some (group_id g)) s) as [ts|e] eqn:E;
      [|discriminate].
    destruct (gather _) as [gs|e]; [|discriminate].
    intros [= <-]. destruct (IH gs eq_refl) as [Hm Hf].
    simpl. split; [congruence|]. constructor; auto.
Qed.

End ClassifyFacts.

(** ** The reference host as a [Host] *)

Lemma respond_browser r b :
  respond browser r b = (browser_reply b r, browser_next b r).
Proof.
  unfold browser_reply, browser_next.
  destruct r; simpl; unfold answer, perform;
    destruct (accepts b _); reflexivity.
Qed.

(** ** Tab lists of the reference host *)

Section BrowserLists.







Lemma elem_of_place t w n ts l :
  t ∈ place w n ts l <-> t ∈ ts \/ t ∈ l.
Proof.
  revert n. induction l as [|x l IH]; intros n; simpl.
  - rewrite elem_of_nil. tauto.
  - destruct (tab_windowId x =? w).
    + destruct n as [|n].
      * rewrite elem_of_app. tauto.
      * rewrite !elem_of_cons, IH. tauto.
    + rewrite !elem_of_cons, IH. tauto.
Qed.

Lemma elem_of_place_at t w i ts l :
  t ∈ place_at w i ts l <-> t ∈ ts \/ t ∈ l.
Proof.
  unfold place_at. destruct (i <? 0).
  - rewrite elem_of_app. tauto.
  - apply elem_of_place.
Qed.

Lemma elem_of_lfilter {A} (P : A -> bool) l x :
  x ∈ List.filter P l <-> x ∈ l /\ P x = true.
Proof. rewrite !list_elem_of_In. apply filter_In. Qed.



Lemma arrive_id w t : tab_id (arrive w t) = tab_id t.
Proof. unfold arrive. destruct (tab_windowId t =? w); reflexivity. Qed.



End BrowserLists.

(** ** Traces on the reference host *)

Section BrowserTraces.

Lemma coherent_browser_cons b r a tr :
  coherent browser b (Called r a :: tr) <->
  a = browser_reply b r /\ coherent browser (browser_next b r) tr.
Proof. simpl. rewrite respond_browser. reflexivity. Qed.

Lemma after_browser_cons b r a tr :
  after browser b (Called r a :: tr) = after browser (browser_next b r) tr.
Proof. simpl. rewrite respond_browser. reflexivity. Qed.

Lemma coherent_logged {S} (H : Host S) s m tr :
  coherent H s (Logged m :: tr) <-> coherent H s tr.
Proof. reflexivity. Qed.

Lemma after_logged {S} (H : Host S) s m tr :
  after H s (Logged m :: tr) = after H s tr.
Proof. reflexivity. Qed.

Lemma after_nil {S} (H : Host S) s : after H s [] = s.
Proof. reflexivity. Qed.


Lemma reply_success b r a :
  browser_reply b r = a -> succeeded a = true ->
  accepts b r = true /\ browser_next b r = effect r b.
Proof.
  unfold browser_reply, browser_next.
  destruct (accepts b r); [auto|]. intros <-. discriminate.
Qed.





End BrowserTraces.

(** ** Where Phase A leaves each pinned tab *)

Section PhaseAFate.




End PhaseAFate.

Lemma one_by_one_single_moves target tabIds tr :
  OneByOne target tabIds tr ->
  single_moves tr = map (fun t => (t, target, TAB_POSITION_END)) tabIds.
Proof.
  induction 1 as [|t ts tr _ IH|t ts e tr _ IH]; simpl; [reflexivity|..];
    rewrite <- IH; reflexivity.
Qed.

(** ** Shape of a window's migration and of a merge *)

Section MergeShape.
Context {S : Type} (H : Host S).

Lemma gather_events w s groups grouped :
  gather (group_reads H w s groups) = Resolved grouped ->
  Called (TabGroupsQuery w) (Groups groups)
  :: read_events w (group_reads H w s groups)
  = classify_events w grouped.
Proof.
  unfold classify_events. intros Hg.
  assert (Hm : map gt_group grouped = groups
               /\ read_events w (group_reads H w s groups)
                  = map (fun g => Called (TabsQuery w (Some (group_id (gt_group g))))
                                         (Tabs (gt_tabs g))) grouped).
  { revert grouped Hg. unfold read_events, group_reads.
    induction groups as [|g groups IH]; intros grouped; simpl.
    - intros [= <-]. split; reflexivity.
    - destruct (tabs_query H w (Some (group_id g)) s) as [ts|e]; [|discriminate].
      destruct (gather _) as [gs|e]; [|discriminate].
      intros [= <-]. destruct (IH gs eq_refl) as [Hm He]. simpl.
      split; [congruence|]. rewrite He. reflexivity. }
  destruct Hm as [-> ->]. reflexivity.
Qed.

Lemma group_reads_fst w s groups :
  map fst (group_reads H w s groups) = groups.
Proof.
  unfold group_reads. rewrite map_map. simpl. apply map_id.
Qed.

Lemma migrateWindow_shape source target st :
  exists tr r st',
    migrateWindow H source target st = (tr, r, st')
    /\ pwaWindowIds st' = pwaWindowIds st
    /\ ((r = Resolved tt /\ WindowDone target source tr)
        \/ (exists e, r = Rejected e /\ WindowAborted source tr e /\ st' = st)).
Proof.
  unfold migrateWindow. unfold bind at 1. unfold chrome_tabs_query, read.
  simpl. destruct (tabs_query H source None (host st)) as [tabs|e].
  2:{ eexists _, _, _. split; [reflexivity|]. split; [reflexivity|].
      right. exists e. repeat split. constructor. }
  simpl. destruct tabs as [|t tabs].
  { simpl. eexists _, _, _. split; [reflexivity|]. split; [reflexivity|].
    left. split; [reflexivity|]. constructor. }
  change (length (t :: tabs) =? 0)%nat with false. cbv beta iota.
  unfold bind at 1. rewrite classifyTabs_run.
  destruct (tabGroups_query H source (host st)) as [groups|e].
  2:{ eexists _, _, _. split; [reflexivity|]. split; [reflexivity|].
      right. exists e. repeat split. constructor. congruence. }
  cbv zeta. destruct (gather (group_reads H source (host st) groups))
    as [gs0|e] eqn:Eg.
  2:{ eexists _, _, _. split; [reflexivity|]. split; [reflexivity|].
      right. exists e. split; [reflexivity|]. split; [|reflexivity].
      simpl. rewrite <- (group_reads_fst source (host st) groups) at 1.
      apply Aborted_group_tabs; [congruence|exact Eg]. }
  rewrite (gather_events _ _ _ _ Eg).
  unfold bind at 1.
  destruct (migratePinnedTabs_shape H (pinned (classified (t :: tabs) gs0))
              target st) as (trA & stA & -> & HA & PA).
  unfold bind at 1.
  destruct (migrateTabGroups_shape H (grouped (classified (t :: tabs) gs0))
              target stA) as (trB & stB & -> & HB & PB).
  destruct (migrateTabs_shape H
              (map tab_id (ungrouped (classified (t :: tabs) gs0)))
              target stB) as (trC & stC & -> & HC & PC).
  eexists _, _, _. split; [reflexivity|]. split; [congruence|].
  left. split; [reflexivity|].
  change (Called (TabsQuery source None) (reply_of Tabs (Resolved (t :: tabs)))
          :: classify_events source gs0 ++ trA ++ trB ++ trC)
    with (Called (TabsQuery source None) (Tabs (t :: tabs))
          :: classify_events source gs0 ++ trA ++ trB ++ trC).
  apply Window_migrated; auto.
Qed.

Lemma windows_run_shape target ws st :
  exists tr r st',
    for_of ws (fun window => migrateWindow H (win_id window) target) st
    = (tr, r, st')
    /\ WindowsRun target ws tr r.
Proof.
  revert st. induction ws as [|w ws IH]; intros st.
  - eexists _, _, _. split; [reflexivity|]. constructor.
  - rewrite for_of_cons.
    destruct (migrateWindow_shape (win_id w) target st)
      as (t1 & r1 & st1 & -> & _ & [[-> Hd]|(e & -> & Ha & _)]).
    + destruct (IH st1) as (tr & r & st' & -> & Hr).
      eexists _, _, _. split; [reflexivity|]. constructor; assumption.
    + eexists _, _, _. split; [reflexivity|]. constructor. assumption.
Qed.

End MergeShape.

(** ** The classifier on the reference host *)

Section ClassifyBrowser.

Lemma classify_resolved {S} (H : Host S) tabs w st tr c st' :
  classifyTabs H tabs w st = (tr, Resolved c, st') ->
  exists groups grouped,
    tabGroups_query H w (host st) = Resolved groups
    /\ gather (group_reads H w (host st) groups) = Resolved grouped
    /\ c = classified tabs grouped
    /\ st' = st.
Proof.
  rewrite classifyTabs_run.
  destruct (tabGroups_query H w (host st)) as [groups|e]; [|discriminate].
  cbv zeta.
  destruct (gather (group_reads H w (host st) groups)) as [grouped|e] eqn:Eg;
    [|discriminate].
  intros [= <- <- <-]. exists groups, grouped. auto.
Qed.

Lemma elem_of_grouped_tabs t grouped :
  t ∈ grouped_tabs grouped <-> exists g, g ∈ grouped /\ t ∈ gt_tabs g.
Proof.
  unfold grouped_tabs. induction grouped as [|g gs IH]; simpl.
  - split; [intros Ht; inversion Ht|intros (g & Hg & _); inversion Hg].
  - rewrite elem_of_app, IH. split.
    + intros [Ht|(g' & Hg' & Ht)].
      * exists g. split; [constructor|exact Ht].
      * exists g'. split; [constructor; exact Hg'|exact Ht].
    + intros (g' & Hg' & Ht). apply elem_of_cons in Hg' as [->|Hg']; eauto.
Qed.

Lemma elem_of_grouped_ids x grouped :
  x ∈ grouped_ids grouped <-> exists t, t ∈ grouped_tabs grouped /\ tab_id t = x.
Proof.
  unfold grouped_ids, grouped_tabs. induction grouped as [|g gs IH]; simpl.
  - split; [intros Hx; inversion Hx|intros (t & Ht & _); inversion Ht].
  - rewrite elem_of_app, IH, list_elem_of_fmap. split.
    + intros [(t & -> & Ht)|(t & Ht & <-)]; exists t;
        rewrite elem_of_app; auto.
    + intros (t & Ht & <-). apply elem_of_app in Ht as [Ht|Ht]; eauto.
Qed.

Lemma elem_of_tabs_of t w g b :
  t ∈ tabs_of w g b <->
  t ∈ b_tabs b /\ tab_windowId t = w
  /\ match g with Some g => tab_groupId t = g | None => True end.
Proof.
  unfold tabs_of. rewrite elem_of_lfilter, andb_true_iff, Z.eqb_eq.
  destruct g as [g|]; [rewrite Z.eqb_eq|]; intuition.
Qed.

Lemma browser_grouped_tabs tabs w (st : St Browser) tr c st' :
  classifyTabs browser tabs w st = (tr, Resolved c, st') ->
  forall t,
    t ∈ grouped_tabs (grouped c) <->
    t ∈ tabs_of w None (host st)
    /\ exists g, g ∈ groups_of w (host st) /\ tab_groupId t = group_id g.
Proof.
  intros Hrun t.
  apply classify_resolved in Hrun as (groups & gs & Hq & Hg & -> & _).
  apply gather_resolved in Hg as [Hm Hf]. simpl in Hq, Hf.
  unfold answer in Hq. destruct (accepts (host st) _); [|discriminate].
  injection Hq as <-. simpl.
  rewrite elem_of_grouped_tabs. rewrite Forall_forall in Hf. split.
  - intros (g & Hgin & Ht). specialize (Hf g Hgin). unfold answer in Hf.
    destruct (accepts (host st) _); [|discriminate]. injection Hf as Hf.
    rewrite <- Hf in Ht. apply elem_of_tabs_of in Ht as (Hb & Hw & Hgr).
    split; [apply elem_of_tabs_of; auto|].
    exists (gt_group g). split; [|exact Hgr].
    rewrite <- Hm. apply list_elem_of_fmap. eauto.
  - intros (Ht & g & Hgin & Hgr). rewrite <- Hm in Hgin.
    apply list_elem_of_fmap in Hgin as (gt & -> & Hgt). exists gt.
    split; [exact Hgt|]. specialize (Hf gt Hgt). unfold answer in Hf.
    destruct (accepts (host st) _); [|discriminate]. injection Hf as Hf.
    rewrite <- Hf. apply elem_of_tabs_of in Ht as (Hb & Hw & _).
    apply elem_of_tabs_of. auto.
Qed.

Lemma NoDup_fmap_inj {A B} (f : A -> B) (l : list A) x y :
  NoDup (map f l) -> x ∈ l -> y ∈ l -> f x = f y -> x = y.
Proof.
  induction l as [|a l IH]; simpl; intros Hnd Hx Hy Hf; [inversion Hx|].
  apply NoDup_cons in Hnd as [Ha Hnd].
  apply elem_of_cons in Hx as [->|Hx]; apply elem_of_cons in Hy as [->|Hy];
    auto.
  - exfalso. apply Ha. rewrite Hf. apply list_elem_of_fmap. eauto.
  - exfalso. apply Ha. rewrite <- Hf. apply list_elem_of_fmap. eauto.
Qed.

End ClassifyBrowser.

(** ** Moves keep the tab identifiers *)

Section TabIdentifiers.

Lemma lfilter_none {A} (P : A -> bool) l :
  (forall x, x ∈ l -> P x = false) -> List.filter P l = [].
Proof.
  induction l as [|a l IH]; simpl; intros Hall; [reflexivity|].
  rewrite (Hall a) by constructor. apply IH.
  intros x Hx. apply Hall. constructor. exact Hx.
Qed.

Lemma filter_split_perm {A} (P : A -> bool) l :
  List.filter P l ++ List.filter (fun x => negb (P x)) l ≡ₚ l.
Proof.
  induction l as [|a l IH]; simpl; [reflexivity|].
  destruct (P a); simpl.
  - constructor. exact IH.
  - rewrite <- Permutation_middle. constructor. exact IH.
Qed.

Lemma place_perm w n ts l : place w n ts l ≡ₚ ts ++ l.
Proof.
  revert n. induction l as [|x l IH]; intros n; simpl.
  - rewrite app_nil_r. reflexivity.
  - destruct (tab_windowId x =? w).
    + destruct n as [|n]; [reflexivity|].
      rewrite IH. apply Permutation_middle.
    + rewrite IH. apply Permutation_middle.
Qed.

Lemma place_at_perm w i ts l : place_at w i ts l ≡ₚ ts ++ l.
Proof.
  unfold place_at. destruct (i <? 0).
  - apply Permutation_app_comm.
  - apply place_perm.
Qed.

Lemma move_tab_ids x w i l :
  map tab_id (move_tab x w i l) ≡ₚ map tab_id l.
Proof.
  unfold move_tab. rewrite place_at_perm, map_app, map_map.
  rewrite (map_ext (fun t => tab_id (arrive w t)) tab_id)
    by (intros; apply arrive_id).
  rewrite <- map_app. apply Permutation_map. apply filter_split_perm.
Qed.

Lemma update_ids y p l :
  map tab_id (map (fun t => if tab_id t =? y then set_pinned p t else t) l)
  = map tab_id l.
Proof.
  rewrite map_map. apply map_ext. intros t.
  destruct (tab_id t =? y); reflexivity.
Qed.

End TabIdentifiers.

(** ** The tabs of a list after a move or an update *)

Section MovedTabs.

Lemma has_tab_elem b x :
  has_tab b x = true -> exists t, t ∈ b_tabs b /\ tab_id t = x.
Proof.
  unfold has_tab. intros Hh. apply existsb_exists in Hh as (t & Hin & Ht).
  exists t. split; [apply list_elem_of_In; exact Hin|apply Z.eqb_eq; exact Ht].
Qed.

Lemma elem_of_move_tab t x w i l :
  t ∈ move_tab x w i l -> tab_id t = x \/ t ∈ l.
Proof.
  unfold move_tab. rewrite elem_of_place_at. intros [Ht|Ht].
  - left. apply list_elem_of_fmap in Ht as (t' & -> & Ht').
    apply elem_of_lfilter in Ht' as [_ Ht']. rewrite arrive_id.
    apply Z.eqb_eq. exact Ht'.
  - right. apply elem_of_lfilter in Ht. tauto.
Qed.

Lemma elem_of_update t y p l :
  t ∈ map (fun t => if tab_id t =? y then set_pinned p t else t) l ->
  exists t', t' ∈ l /\ tab_id t = tab_id t'
             /\ tab_windowId t = tab_windowId t'
             /\ tab_groupId t = tab_groupId t'.
Proof.
  intros Ht. apply list_elem_of_fmap in Ht as (t' & -> & Ht').
  exists t'. destruct (tab_id t' =? y); auto.
Qed.

End MovedTabs.

(** ** Moves that leave a group alone *)

Section GroupFrame.

Lemma fresh_group_id_above gs g :
  g ∈ map group_id gs -> g < fresh_group_id gs.
Proof.
  unfold fresh_group_id. induction gs as [|a gs IH]; simpl; intros Hg.
  - inversion Hg.
  - apply elem_of_cons in Hg as [->|Hg]; [lia|]. specialize (IH Hg). lia.
Qed.

Lemma fresh_group_id_pos gs : 0 < fresh_group_id gs.
Proof.
  unfold fresh_group_id. induction gs as [|a gs IH]; simpl; lia.
Qed.

Lemma elem_of_move_tab_inv t x w i l :
  t ∈ move_tab x w i l <->
  (exists t', t' ∈ l /\ tab_id t' = x /\ t = arrive w t')
  \/ (t ∈ l /\ tab_id t <> x).
Proof.
  unfold move_tab. rewrite elem_of_place_at, list_elem_of_fmap.
  rewrite elem_of_lfilter, negb_true_iff, Z.eqb_neq. split.
  - intros [(t' & -> & Ht')|Ht]; [left|right; exact Ht].
    apply elem_of_lfilter in Ht' as [Ht' E]. apply Z.eqb_eq in E. eauto.
  - intros [(t' & Ht' & E & ->)|Ht]; [left|right; exact Ht].
    exists t'. split; [reflexivity|]. apply elem_of_lfilter.
    split; [exact Ht'|apply Z.eqb_eq; exact E].
Qed.

Lemma arrive_group w t gid :
  gid <> TAB_GROUP_ID_NONE -> tab_groupId t <> gid ->
  tab_groupId (arrive w t) <> gid.
Proof.
  intros Hn Hg. unfold arrive. destruct (tab_windowId t =? w); simpl; auto.
Qed.

Lemma tabs_inv_move_tab W gid ids x w i l :
  gid <> TAB_GROUP_ID_NONE -> x ∉ ids ->
  TabsInv W gid ids l -> TabsInv W gid ids (move_tab x w i l).
Proof.
  intros Hn Hx [Hin Hout Hex]. split.
  - intros t Ht Hid. apply elem_of_move_tab_inv in Ht
      as [(t' & Ht' & E & ->)|[Ht _]]; [|auto].
    rewrite arrive_id in Hid. congruence.
  - intros t Ht Hid. apply elem_of_move_tab_inv in Ht
      as [(t' & Ht' & E & ->)|[Ht _]]; [|auto].
    rewrite arrive_id in Hid. apply arrive_group; auto.
  - intros y Hy. destruct (Hex y Hy) as (t & Ht & E). exists t.
    split; [|exact E]. apply elem_of_move_tab_inv. right.
    split; [exact Ht|]. congruence.
Qed.

Lemma tabs_inv_move_tabs W gid ids xs w i l :
  gid <> TAB_GROUP_ID_NONE -> (forall x, x ∈ xs -> x ∉ ids) ->
  TabsInv W gid ids l -> TabsInv W gid ids (move_tabs xs w i l).
Proof.
  intros Hn. revert i l. induction xs as [|x xs IH]; intros i l Hxs Hl; simpl.
  - exact Hl.
  - apply IH.
    + intros y Hy. apply Hxs. constructor. exact Hy.
    + apply tabs_inv_move_tab; auto. apply Hxs. constructor.
Qed.

Lemma move_tab_groups x w i l t :
  t ∈ move_tab x w i l ->
  tab_groupId t = TAB_GROUP_ID_NONE
  \/ exists t', t' ∈ l /\ tab_groupId t = tab_groupId t'.
Proof.
  intros Ht. apply elem_of_move_tab_inv in Ht
    as [(t' & Ht' & E & ->)|[Ht _]]; [|eauto].
  unfold arrive. destruct (tab_windowId t' =? w); simpl; eauto.
Qed.

Lemma move_tabs_groups xs w i l t :
  t ∈ move_tabs xs w i l ->
  tab_groupId t = TAB_GROUP_ID_NONE
  \/ exists t', t' ∈ l /\ tab_groupId t = tab_groupId t'.
Proof.
  revert i l. induction xs as [|x xs IH]; intros i l Ht; simpl in Ht.
  - eauto.
  - apply IH in Ht as [Ht|(t1 & Ht1 & E1)]; [auto|].
    apply move_tab_groups in Ht1 as [Ht1|(t2 & Ht2 & E2)].
    + left. congruence.
    + right. exists t2. split; [exact Ht2|congruence].
Qed.

Lemma elem_of_move_group_tabs t g w i l :
  t ∈ move_group_tabs g w i l <->
  (exists t', t' ∈ l /\ tab_groupId t' = g /\ t = with_window w t')
  \/ (t ∈ l /\ tab_groupId t <> g).
Proof.
  unfold move_group_tabs. rewrite elem_of_place_at, list_elem_of_fmap.
  rewrite elem_of_lfilter, negb_true_iff, Z.eqb_neq. split.
  - intros [(t' & -> & Ht')|Ht]; [left|right; exact Ht].
    apply elem_of_lfilter in Ht' as [Ht' E]. apply Z.eqb_eq in E. eauto.
  - intros [(t' & Ht' & E & ->)|Ht]; [left|right; exact Ht].
    exists t'. split; [reflexivity|]. apply elem_of_lfilter.
    split; [exact Ht'|apply Z.eqb_eq; exact E].
Qed.

Lemma tabs_inv_move_group W gid ids g w i l :
  g <> gid ->
  TabsInv W gid ids l -> TabsInv W gid ids (move_group_tabs g w i l).
Proof.
  intros Hg [Hin Hout Hex]. split.
  - intros t Ht Hid. apply elem_of_move_group_tabs in Ht
      as [(t' & Ht' & E & ->)|[Ht _]]; [|auto].
    simpl in Hid. destruct (Hin t' Ht' Hid) as [_ E']. congruence.
  - intros t Ht Hid. apply elem_of_move_group_tabs in Ht
      as [(t' & Ht' & E & ->)|[Ht _]]; [|auto].
    simpl. congruence.
  - intros y Hy. destruct (Hex y Hy) as (t & Ht & E). exists t.
    split; [|exact E]. apply elem_of_move_group_tabs. right.
    split; [exact Ht|]. subst y. destruct (Hin t Ht Hy) as [_ E']. congruence.
Qed.

End GroupFrame.

(** ** Requests that leave a group alone *)

Section RequestFrame.

Lemma tabs_inv_map_same W gid ids (f : Tab -> Tab) l :
  (forall t, tab_id (f t) = tab_id t
             /\ tab_windowId (f t) = tab_windowId t
             /\ tab_groupId (f t) = tab_groupId t) ->
  TabsInv W gid ids l -> TabsInv W gid ids (map f l).
Proof.
  intros Hf [Hin Hout Hex]. split.
  - intros t Ht Hid. apply list_elem_of_fmap in Ht as (t' & -> & Ht').
    destruct (Hf t') as (E1 & E2 & E3). rewrite E1 in Hid.
    rewrite E2, E3. auto.
  - intros t Ht Hid. apply list_elem_of_fmap in Ht as (t' & -> & Ht').
    destruct (Hf t') as (E1 & E2 & E3). rewrite E1 in Hid.
    rewrite E3. auto.
  - intros x Hx. destruct (Hex x Hx) as (t & Ht & E). exists (f t).
    split; [apply list_elem_of_fmap; eauto|].
    destruct (Hf t) as (E1 & _). congruence.
Qed.

Lemma tabs_inv_regroup W gid ids (xs : list Z) w n l :
  (forall x, x ∈ xs -> x ∉ ids) -> n <> gid ->
  TabsInv W gid ids l ->
  TabsInv W gid ids
    (map (fun x => if bool_decide (tab_id x ∈ xs)
                   then mkTab (tab_id x) w false n else x) l).
Proof.
  intros Hxs Hn [Hin Hout Hex]. split.
  - intros t Ht Hid. apply list_elem_of_fmap in Ht as (t' & -> & Ht').
    destruct (bool_decide (tab_id t' ∈ xs)) eqn:E.
    + apply bool_decide_eq_true in E. simpl in Hid.
      exfalso. exact (Hxs _ E Hid).
    + auto.
  - intros t Ht Hid. apply list_elem_of_fmap in Ht as (t' & -> & Ht').
    destruct (bool_decide (tab_id t' ∈ xs)) eqn:E; simpl; auto.
  - intros x Hx. destruct (Hex x Hx) as (t & Ht & E). exists t.
    split; [|exact E]. apply list_elem_of_fmap. exists t. split; [|exact Ht].
    destruct (bool_decide (tab_id t ∈ xs)) eqn:E'; [|reflexivity].
    apply bool_decide_eq_true in E'. exfalso. apply (Hxs _ E'). congruence.
Qed.

Lemma group_ids_map (f : TabGroup -> TabGroup) gs :
  (forall g, group_id (f g) = group_id g) ->
  map group_id (map f gs) = map group_id gs.
Proof. intros Hf. rewrite map_map. apply map_ext. exact Hf. Qed.

Lemma groups_inv_map W gid G (f : TabGroup -> TabGroup) gs :
  (forall g, group_id (f g) = group_id g) ->
  (forall g, group_id g = gid -> f g = g) ->
  GroupsInv W gid G gs -> GroupsInv W gid G (map f gs).
Proof.
  intros Hid Hfix [(g & Hg & E) Huniq]. split.
  - exists g. split; [|exact E]. apply list_elem_of_fmap. exists g.
    split; [symmetry; auto|exact Hg].
  - intros g' Hg' E'. apply list_elem_of_fmap in Hg' as (g0 & -> & Hg0).
    rewrite Hid in E'. rewrite (Hfix g0 E'). auto.
Qed.

Lemma groups_inv_gid W gid G gs :
  GroupsInv W gid G gs -> gid ∈ map group_id gs.
Proof.
  intros [(g & Hg & E) _]. apply list_elem_of_fmap. exists g. auto.
Qed.

Lemma move_group_entry_id g w (x : TabGroup) :
  group_id (if group_id x =? g
            then mkGroup (group_id x) w (group_title x) (group_color x)
                         (group_collapsed x)
            else x) = group_id x.
Proof. destruct (group_id x =? g); reflexivity. Qed.

Lemma update_entry_id g title color collapsed (x : TabGroup) :
  group_id (if group_id x =? g
            then mkGroup (group_id x) (group_windowId x) title color collapsed
            else x) = group_id x.
Proof. destruct (group_id x =? g); reflexivity. Qed.

(** A foreign request, accepted or not, keeps the invariant. *)
Lemma inv_effect W gid G ids gids target b r :
  foreign ids gid r ->
  Inv W gid G ids gids target b -> Inv W gid G ids gids target (effect r b).
Proof.
  intros Hf [Ht Hg Hok Hk Hw Hn].
  destruct r as [w|tys|w g|w|x w i|xs w i|g w i|x p|xs w|g title color collapsed];
    simpl in Hf; simpl; try (split; assumption).
  - (* tabs.move *)
    split; simpl; auto.
    + apply tabs_inv_move_tab; auto.
    + intros t Hin. simpl in Hin.
      apply move_tab_groups in Hin as [E|(t' & Ht' & E)]; [auto|].
      rewrite E. apply Hok. exact Ht'.
  - (* tabs.move, batch *)
    split; simpl; auto.
    + apply tabs_inv_move_tabs; auto.
    + intros t Hin. simpl in Hin.
      apply move_tabs_groups in Hin as [E|(t' & Ht' & E)]; [auto|].
      rewrite E. apply Hok. exact Ht'.
  - (* tabGroups.move *)
    split; simpl; auto.
    + apply tabs_inv_move_group; auto.
    + apply groups_inv_map; auto using move_group_entry_id.
      intros x E. destruct (group_id x =? g) eqn:E'; [|reflexivity].
      apply Z.eqb_eq in E'. congruence.
    + intros t Hin. simpl in Hin. simpl.
      rewrite group_ids_map by apply move_group_entry_id.
      apply elem_of_move_group_tabs in Hin as [(t' & Ht' & E & ->)|[Hin _]];
        [apply (Hok t' Ht')|apply (Hok t Hin)].
    + intros x Hx. simpl.
      rewrite group_ids_map by apply move_group_entry_id. auto.
  - (* tabs.update *)
    split; simpl; auto.
    + apply tabs_inv_map_same; auto.
      intros t. destruct (tab_id t =? x); auto.
    + intros t Hin. simpl in Hin.
      apply list_elem_of_fmap in Hin as (t' & -> & Ht').
      destruct (tab_id t' =? x); apply (Hok t' Ht').
  - (* tabs.group *)
    pose proof (fresh_group_id_above _ _ (groups_inv_gid _ _ _ _ Hg)) as Hfresh.
    split; simpl; auto.
    + apply tabs_inv_regroup; auto. lia.
    + destruct Hg as [(g0 & Hg0 & E0) Huniq]. split.
      * exists g0. split; [apply elem_of_app; auto|exact E0].
      * intros g' Hg' E'. apply elem_of_app in Hg' as [Hg'|Hg']; [auto|].
        apply list_elem_of_singleton in Hg'. subst g'. simpl in E'. lia.
    + intros t Hin. simpl in Hin. simpl. rewrite map_app. simpl.
      apply list_elem_of_fmap in Hin as (t' & -> & Ht').
      destruct (bool_decide (tab_id t' ∈ xs)); simpl.
      * right. apply elem_of_app. right. constructor.
      * destruct (Hok t' Ht') as [E|E]; [auto|].
        right. apply elem_of_app. auto.
    + intros x Hx. simpl. rewrite map_app. apply elem_of_app. auto.
  - (* tabGroups.update *)
    split; simpl; auto.
    + apply groups_inv_map; auto using update_entry_id.
      intros x E. destruct (group_id x =? g) eqn:E'; [|reflexivity].
      apply Z.eqb_eq in E'. congruence.
    + intros t Hin. simpl in Hin. simpl.
      rewrite group_ids_map by apply update_entry_id. apply (Hok t Hin).
    + intros x Hx. simpl.
      rewrite group_ids_map by apply update_entry_id. auto.
Qed.

Lemma inv_next W gid G ids gids target b r :
  foreign ids gid r ->
  Inv W gid G ids gids target b ->
  Inv W gid G ids gids target (browser_next b r).
Proof.
  intros Hf Hi. unfold browser_next. destruct (accepts b r); [|exact Hi].
  apply inv_effect; assumption.
Qed.

End RequestFrame.

(** ** Phases that leave a group alone *)

Section PhaseFrames.
Variables (W gid : Z) (G : TabGroup) (ids gids : list Z) (target : Z).

Local Abbreviation I := (Inv W gid G ids gids target).

Lemma reply_group_id b xs w n :
  browser_reply b (TabsGroup xs w) = GroupId n ->
  n = fresh_group_id (b_groups b).
Proof.
  unfold browser_reply. destruct (accepts b _); [|discriminate].
  intros [= <-]. reflexivity.
Qed.

Lemma phaseA_inv tabs tr :
  PhaseA target tabs tr ->
  (forall t, t ∈ tabs -> tab_id t ∉ ids) ->
  forall b, I b -> I (after browser b tr).
Proof.
  induction 1 as [|tab tabs tr _ IH|tab tabs e tr _ IH|tab tabs e tr _ IH];
    intros Hout b Hb; [exact Hb|..];
    assert (Hhead : tab_id tab ∉ ids) by (apply Hout; constructor);
    assert (Htail : forall t, t ∈ tabs -> tab_id t ∉ ids)
      by (intros t Ht; apply Hout; constructor; exact Ht).
  - rewrite !after_browser_cons. apply IH; [exact Htail|].
    apply inv_next; [exact Logic.I|]. apply inv_next; [exact Hhead|exact Hb].
  - rewrite !after_browser_cons. apply IH; [exact Htail|].
    apply inv_next; [exact Logic.I|]. apply inv_next; [exact Hhead|exact Hb].
  - rewrite after_browser_cons. simpl. apply IH; [exact Htail|].
    apply inv_next; [exact Hhead|exact Hb].
Qed.

Lemma one_by_one_inv xs tr :
  OneByOne target xs tr ->
  (forall x, x ∈ xs -> x ∉ ids) ->
  forall b, I b -> I (after browser b tr).
Proof.
  induction 1 as [|x xs tr _ IH|x xs e tr _ IH];
    intros Hout b Hb; [exact Hb|..];
    assert (Hhead : x ∉ ids) by (apply Hout; constructor);
    assert (Htail : forall y, y ∈ xs -> y ∉ ids)
      by (intros y Hy; apply Hout; constructor; exact Hy).
  - rewrite after_browser_cons. apply IH; [exact Htail|].
    apply inv_next; [exact Hhead|exact Hb].
  - rewrite after_browser_cons. simpl. apply IH; [exact Htail|].
    apply inv_next; [exact Hhead|exact Hb].
Qed.

Lemma phaseC_inv xs tr :
  PhaseC target xs tr ->
  (forall x, x ∈ xs -> x ∉ ids) ->
  forall b, I b -> I (after browser b tr).
Proof.
  intros [Hnil|Hne|e rest Hne Hone] Hout b Hb.
  - exact Hb.
  - rewrite after_browser_cons. simpl. apply inv_next; [exact Hout|exact Hb].
  - rewrite after_browser_cons. simpl.
    apply (one_by_one_inv _ _ Hone Hout).
    apply inv_next; [exact Hout|exact Hb].
Qed.

Lemma group_step_inv group tabs tr :
  GroupStep target group tabs tr ->
  group_id group <> gid ->
  (forall t, t ∈ tabs -> tab_id t ∉ ids) ->
  forall b, coherent browser b tr -> I b -> I (after browser b tr).
Proof.
  intros Hstep Hg Hout b Hco Hb.
  assert (Hids : forall x, x ∈ map tab_id tabs -> x ∉ ids).
  { intros x Hx. apply list_elem_of_fmap in Hx as (t & -> & Ht). auto. }
  destruct Hstep as [|e n|e n e'|e e'|e e'].
  - rewrite after_browser_cons. simpl. apply inv_next; [exact Hg|exact Hb].
  - apply coherent_browser_cons in Hco as [_ Hco].
    rewrite coherent_logged in Hco.
    apply coherent_browser_cons in Hco as [_ Hco].
    apply coherent_browser_cons in Hco as [R _].
    repeat (rewrite ?after_browser_cons, ?after_logged). rewrite after_nil.
    set (b1 := browser_next b _) in *.
    set (b2 := browser_next b1 _) in *.
    assert (H1 : I b1) by (apply inv_next; [exact Hg|exact Hb]).
    assert (H2 : I b2) by (apply inv_next; [exact Hids|exact H1]).
    symmetry in R. apply reply_group_id in R.
    apply inv_next; [|apply inv_next; [exact Hids|exact H2]].
    simpl. pose proof (fresh_group_id_above _ _
                         (groups_inv_gid _ _ _ _ (inv_groups _ _ _ _ _ _ _ H2))).
    lia.
  - apply coherent_browser_cons in Hco as [_ Hco].
    rewrite coherent_logged in Hco.
    apply coherent_browser_cons in Hco as [_ Hco].
    apply coherent_browser_cons in Hco as [R _].
    repeat (rewrite ?after_browser_cons, ?after_logged). rewrite after_nil.
    set (b1 := browser_next b _) in *.
    set (b2 := browser_next b1 _) in *.
    assert (H1 : I b1) by (apply inv_next; [exact Hg|exact Hb]).
    assert (H2 : I b2) by (apply inv_next; [exact Hids|exact H1]).
    symmetry in R. apply reply_group_id in R.
    apply inv_next; [|apply inv_next; [exact Hids|exact H2]].
    simpl. pose proof (fresh_group_id_above _ _
                         (groups_inv_gid _ _ _ _ (inv_groups _ _ _ _ _ _ _ H2))).
    lia.
  - repeat (rewrite ?after_browser_cons, ?after_logged). rewrite after_nil.
    apply inv_next; [exact Hids|]. apply inv_next; [exact Hids|].
    apply inv_next; [exact Hg|exact Hb].
  - repeat (rewrite ?after_browser_cons, ?after_logged). rewrite after_nil.
    apply inv_next; [exact Hids|]. apply inv_next; [exact Hg|exact Hb].
Qed.

Lemma phaseB_inv gs tr :
  PhaseB target gs tr ->
  (forall g, g ∈ gs ->
             group_id (gt_group g) <> gid
             /\ forall t, t ∈ gt_tabs g -> tab_id t ∉ ids) ->
  forall b, coherent browser b tr -> I b -> I (after browser b tr).
Proof.
  induction 1 as [|g gs tr Hnil _ IH|g gs t1 tr Hne Hstep _ IH];
    intros Hout b Hco Hb.
  - exact Hb.
  - apply IH; auto. intros g' Hg'. apply Hout. constructor. exact Hg'.
  - apply coherent_app in Hco as [Hc1 Hc2]. rewrite after_app.
    destruct (Hout g) as [Hg Ht]; [constructor|].
    apply IH; auto.
    + intros g' Hg'. apply Hout. constructor. exact Hg'.
    + apply (group_step_inv _ _ _ Hstep); auto.
Qed.

End PhaseFrames.

(** ** The step that migrates the group *)

Section OwnStep.

Lemma has_tab_true b x :
  (exists t, t ∈ b_tabs b /\ tab_id t = x) -> has_tab b x = true.
Proof.
  intros (t & Ht & E). unfold has_tab. apply existsb_exists. exists t.
  split; [apply list_elem_of_In; exact Ht|apply Z.eqb_eq; exact E].
Qed.

Lemma has_group_true b g :
  g ∈ map group_id (b_groups b) -> has_group b g = true.
Proof.
  intros Hg. apply list_elem_of_fmap in Hg as (x & -> & Hx).
  unfold has_group. apply existsb_exists. exists x.
  split; [apply list_elem_of_In; exact Hx|apply Z.eqb_refl].
Qed.

Lemma forallb_has_tab b (xs : list Z) :
  (forall x, x ∈ xs -> exists t, t ∈ b_tabs b /\ tab_id t = x) ->
  forallb (has_tab b) xs = true.
Proof.
  intros Hall. apply forallb_forall. intros x Hx.
  apply has_tab_true, Hall, list_elem_of_In, Hx.
Qed.

Lemma move_tab_exists x y w i l :
  (exists t, t ∈ l /\ tab_id t = x) ->
  exists t, t ∈ move_tab y w i l /\ tab_id t = x.
Proof.
  intros (t & Ht & E). destruct (decide (tab_id t = y)) as [Ey|Ey].
  - exists (arrive w t). rewrite arrive_id. split; [|exact E].
    apply elem_of_move_tab_inv. left. eauto.
  - exists t. split; [|exact E]. apply elem_of_move_tab_inv. right. auto.
Qed.

Lemma move_tabs_exists x ys w i l :
  (exists t, t ∈ l /\ tab_id t = x) ->
  exists t, t ∈ move_tabs ys w i l /\ tab_id t = x.
Proof.
  revert i l. induction ys as [|y ys IH]; intros i l Hex; simpl; [exact Hex|].
  apply IH. apply move_tab_exists. exact Hex.
Qed.

Lemma direct_move_inv src G ids gids target i b :
  Inv src (group_id G) G ids gids target b ->
  Inv target (group_id G) G ids gids target
    (effect (TabGroupsMove (group_id G) target i) b).
Proof.
  intros [[Hin Hout Hex] Hg Hok Hk Hw Hn]. split; simpl; auto.
  - split.
    + intros t Ht Hid. apply elem_of_move_group_tabs in Ht
        as [(t' & Ht' & E & ->)|[Ht Hne]].
      * simpl. auto.
      * destruct (Hin t Ht Hid) as [_ E]. contradiction.
    + intros t Ht Hid. apply elem_of_move_group_tabs in Ht
        as [(t' & Ht' & E & ->)|[Ht Hne]]; [|exact Hne].
      simpl in Hid. exfalso. exact (Hout t' Ht' Hid E).
    + intros x Hx. destruct (Hex x Hx) as (t & Ht & E).
      exists (with_window target t). split; [|exact E].
      apply elem_of_move_group_tabs. left. exists t.
      subst x. destruct (Hin t Ht Hx) as [_ E']. auto.
  - destruct Hg as [(g & Hgin & E) Huniq]. split.
    + exists (mkGroup (group_id g) target (group_title g) (group_color g)
                      (group_collapsed g)).
      split; [|exact E]. apply list_elem_of_fmap. exists g.
      split; [|exact Hgin]. rewrite E, Z.eqb_refl. reflexivity.
    + intros g' Hg' E'. apply list_elem_of_fmap in Hg' as (g0 & -> & Hg0).
      rewrite move_group_entry_id in E'. rewrite E', Z.eqb_refl.
      rewrite (Huniq g0 Hg0 E'). reflexivity.
  - intros t Hin'. simpl in Hin'. simpl.
    rewrite group_ids_map by apply move_group_entry_id.
    apply elem_of_move_group_tabs in Hin' as [(t' & Ht' & E & ->)|[Hin' _]];
      [apply (Hok t' Ht')|apply (Hok t Hin')].
  - intros x Hx. simpl.
    rewrite group_ids_map by apply move_group_entry_id. auto.
Qed.

Lemma recreate_inv src G ids gids target i b :
  Inv src (group_id G) G ids gids target b ->
  let n := fresh_group_id (b_groups b) in
  Inv target n G ids gids target (recreated G ids target i b)
  /\ n ∉ gids.
Proof.
  intros [[Hin Hout Hex] Hg Hok Hk Hw Hn] n.
  assert (Hpos : 0 < n) by apply fresh_group_id_pos.
  assert (Habove : forall g, g ∈ map group_id (b_groups b) -> g < n)
    by apply fresh_group_id_above.
  split.
  2:{ intros Hin'. apply Hk, Habove in Hin'. lia. }
  unfold recreated. simpl. fold n. split; simpl; auto.
  - split.
    + intros t Ht Hid. apply list_elem_of_fmap in Ht as (t' & -> & Ht').
      destruct (bool_decide (tab_id t' ∈ ids)) eqn:E; simpl; [auto|].
      apply bool_decide_eq_false in E. contradiction.
    + intros t Ht Hid. apply list_elem_of_fmap in Ht as (t' & -> & Ht').
      destruct (bool_decide (tab_id t' ∈ ids)) eqn:E; simpl.
      * apply bool_decide_eq_true in E. simpl in Hid. contradiction.
      * apply move_tabs_groups in Ht' as [E'|(t2 & Ht2 & E')].
        -- rewrite E'. unfold TAB_GROUP_ID_NONE. lia.
        -- rewrite E'. destruct (Hok t2 Ht2) as [E2|E2].
           ++ rewrite E2. unfold TAB_GROUP_ID_NONE. lia.
           ++ apply Habove in E2. lia.
    + intros x Hx.
      destruct (move_tabs_exists x ids target i (b_tabs b) (Hex x Hx))
        as (t & Ht & E).
      exists (mkTab (tab_id t) target false n). split; [|exact E].
      apply list_elem_of_fmap. exists t. split; [|exact Ht].
      rewrite bool_decide_eq_true_2 by (rewrite E; exact Hx). reflexivity.
  - split.
    + exists (mkGroup n target (group_title G) (group_color G)
                      (group_collapsed G)).
      split; [|reflexivity]. apply list_elem_of_fmap.
      exists (mkGroup n target "" grey false). simpl. rewrite Z.eqb_refl.
      split; [reflexivity|]. apply elem_of_app. right. constructor.
    + intros g' Hg' E'. apply list_elem_of_fmap in Hg' as (g0 & -> & Hg0).
      rewrite update_entry_id in E'. rewrite E', Z.eqb_refl.
      apply elem_of_app in Hg0 as [Hg0|Hg0].
      * exfalso. assert (group_id g0 < n); [|lia].
        apply Habove, list_elem_of_fmap. eauto.
      * apply list_elem_of_singleton in Hg0. subst g0. reflexivity.
  - intros t Ht. simpl in Ht. simpl.
    rewrite group_ids_map by apply update_entry_id. rewrite map_app. simpl.
    apply list_elem_of_fmap in Ht as (t' & -> & Ht').
    destruct (bool_decide (tab_id t' ∈ ids)); simpl.
    + right. apply elem_of_app. right. constructor.
    + apply move_tabs_groups in Ht' as [E'|(t2 & Ht2 & E')]; [auto|].
      rewrite E'. destruct (Hok t2 Ht2) as [E2|E2]; [auto|].
      right. apply elem_of_app. auto.
  - intros x Hx. simpl.
    rewrite group_ids_map by apply update_entry_id. rewrite map_app.
    apply elem_of_app. auto.
  - unfold TAB_GROUP_ID_NONE. lia.
Qed.

Lemma accepted_reply b r :
  accepts b r = true ->
  succeeded (browser_reply b r) = true /\ browser_next b r = effect r b.
Proof.
  unfold browser_reply, browser_next. intros ->. split; [|reflexivity].
  destruct r; reflexivity.
Qed.

Lemma rejected_reply b r :
  accepts b r = false ->
  browser_reply b r = Failure "rejected" /\ browser_next b r = b.
Proof. unfold browser_reply, browser_next. intros ->. auto. Qed.

Section Accepting.
Variables (src : Z) (G : TabGroup) (ids gids : list Z) (target : Z)
          (b : Browser).
Hypothesis Hinv : Inv src (group_id G) G ids gids target b.
Hypothesis Hne : ids <> [].

Lemma accepts_group_move i :
  accepts b (TabGroupsMove (group_id G) target i)
  = negb (b_refuses b (TabGroupsMove (group_id G) target i)).
Proof.
  unfold accepts. simpl.
  rewrite (has_group_true b (group_id G)), (inv_target _ _ _ _ _ _ _ Hinv).
  - apply andb_true_r.
  - eapply groups_inv_gid, inv_groups, Hinv.
Qed.

Lemma accepts_batch_move i :
  accepts b (TabsMoveMany ids target i)
  = negb (b_refuses b (TabsMoveMany ids target i)).
Proof.
  unfold accepts. simpl.
  rewrite forallb_has_tab, (inv_target _ _ _ _ _ _ _ Hinv).
  - apply andb_true_r.
  - apply (ti_ex _ _ _ _ (inv_tabs _ _ _ _ _ _ _ Hinv)).
Qed.

Lemma accepts_group_create i :
  accepts (effect (TabsMoveMany ids target i) b) (TabsGroup ids target)
  = negb (b_refuses b (TabsGroup ids target)).
Proof.
  unfold accepts. simpl.
  rewrite forallb_has_tab.
  - unfold has_window. simpl.
    change (existsb (fun w => win_id w =? target) (b_windows b))
      with (has_window b target).
    rewrite (inv_target _ _ _ _ _ _ _ Hinv).
    destruct ids; [contradiction|]. simpl. apply andb_true_r.
  - intros x Hx. simpl. apply move_tabs_exists.
    apply (ti_ex _ _ _ _ (inv_tabs _ _ _ _ _ _ _ Hinv)). exact Hx.
Qed.

Lemma accepts_group_update i title color collapsed :
  accepts (effect (TabsGroup ids target)
                  (effect (TabsMoveMany ids target i) b))
          (TabGroupsUpdate (fresh_group_id (b_groups b)) title color collapsed)
  = negb (b_refuses b (TabGroupsUpdate (fresh_group_id (b_groups b))
                                       title color collapsed)).
Proof.
  unfold accepts. simpl. rewrite has_group_true.
  - apply andb_true_r.
  - simpl. rewrite map_app. apply elem_of_app. right. constructor.
Qed.

End Accepting.

(** The step for the group itself, when the host lets one of the two
    paths through. *)
Lemma own_step_inv src G tabs ids gids target tr b :
  GroupStep target G tabs tr ->
  map tab_id tabs = ids -> ids <> [] ->
  coherent browser b tr ->
  Inv src (group_id G) G ids gids target b ->
  (b_refuses b (TabGroupsMove (group_id G) target TAB_POSITION_END) = false
   \/ (b_refuses b (TabsMoveMany ids target TAB_POSITION_END) = false
       /\ b_refuses b (TabsGroup ids target) = false
       /\ forall n, b_refuses b (TabGroupsUpdate n (group_title G)
                                    (group_color G) (group_collapsed G))
                    = false)) ->
  exists gid',
    Inv target gid' G ids gids target (after browser b tr)
    /\ (gid' = group_id G \/ gid' ∉ gids).
Proof.
  intros Hstep Hids Hne Hco Hinv Hacc.
  pose proof (accepts_group_move _ _ _ _ _ _ Hinv TAB_POSITION_END) as A1.
  pose proof (accepts_batch_move _ _ _ _ _ _ Hinv TAB_POSITION_END) as A2.
  pose proof (accepts_group_create _ _ _ _ _ _ Hinv Hne TAB_POSITION_END) as A3.
  pose proof (accepts_group_update ids target b TAB_POSITION_END
                (group_title G) (group_color G) (group_collapsed G)) as A4.
  destruct (b_refuses b (TabGroupsMove (group_id G) target TAB_POSITION_END))
    eqn:R1; cbn [negb] in A1.
  - (* the group move is refused: the recreate path must go through *)
    destruct Hacc as [Hacc|(R2 & R3 & R4)]; [discriminate|].
    rewrite R2 in A2. rewrite R3 in A3. rewrite R4 in A4.
    cbn [negb] in A2, A3, A4.
    destruct (rejected_reply _ _ A1) as [P1 N1].
    destruct (accepted_reply _ _ A2) as [P2 N2].
    destruct (accepted_reply _ _ A3) as [P3 N3].
    destruct (accepted_reply _ _ A4) as [P4 N4].
    assert (Hfinal : forall n e (a : Reply) rest,
               tr = Called (TabGroupsMove (group_id G) target TAB_POSITION_END)
                           (Failure e)
                    :: Logged (FailedToMoveGroup (group_id G) e)
                    :: Called (TabsMoveMany ids target TAB_POSITION_END) Void
                    :: Called (TabsGroup ids target) (GroupId n)
                    :: Called (TabGroupsUpdate n (group_title G) (group_color G)
                                 (group_collapsed G)) a
                    :: rest ->
               (forall b', after browser b' rest = b') ->
               exists gid',
                 Inv target gid' G ids gids target (after browser b tr)
                 /\ (gid' = group_id G \/ gid' ∉ gids)).
    { intros n e a rest -> Hrest.
      apply coherent_browser_cons in Hco as [_ Hco].
      rewrite coherent_logged in Hco. rewrite N1 in Hco.
      apply coherent_browser_cons in Hco as [_ Hco]. rewrite N2 in Hco.
      apply coherent_browser_cons in Hco as [Rn Hco].
      unfold browser_reply in Rn. rewrite A3 in Rn. injection Rn as ->.
      repeat (rewrite ?after_browser_cons, ?after_logged).
      rewrite N1, N2, N3. simpl b_groups. rewrite N4, Hrest.
      destruct (recreate_inv _ _ _ _ _ TAB_POSITION_END _ Hinv) as [Hi Hn].
      exists (fresh_group_id (b_groups b)). split; [exact Hi|auto]. }
    subst ids.
    destruct Hstep as [|e n|e n e'|e e'|e e'].
    + exfalso. apply coherent_browser_cons in Hco as [R _].
      rewrite P1 in R. discriminate R.
    + eapply (Hfinal n e Void []); [reflexivity|reflexivity].
    + exfalso. apply coherent_browser_cons in Hco as [_ Hco].
      rewrite coherent_logged in Hco. rewrite N1 in Hco.
      apply coherent_browser_cons in Hco as [_ Hco]. rewrite N2 in Hco.
      apply coherent_browser_cons in Hco as [Rn Hco].
      unfold browser_reply in Rn. rewrite A3 in Rn. injection Rn as ->.
      rewrite N3 in Hco. apply coherent_browser_cons in Hco as [R _].
      assert (Hs : succeeded (Failure e') = true) by (rewrite R; exact P4).
      discriminate.
    + exfalso. apply coherent_browser_cons in Hco as [_ Hco].
      rewrite coherent_logged in Hco. rewrite N1 in Hco.
      apply coherent_browser_cons in Hco as [_ Hco]. rewrite N2 in Hco.
      apply coherent_browser_cons in Hco as [R _].
      assert (Hs : succeeded (Failure e') = true) by (rewrite R; exact P3).
      discriminate.
    + exfalso. apply coherent_browser_cons in Hco as [_ Hco].
      rewrite coherent_logged in Hco. rewrite N1 in Hco.
      apply coherent_browser_cons in Hco as [R _].
      assert (Hs : succeeded (Failure e') = true) by (rewrite R; exact P2).
      discriminate.
  - (* the group move is accepted *)
    destruct (accepted_reply _ _ A1) as [P1 N1].
    destruct Hstep as [|e n|e n e'|e e'|e e'];
      try (exfalso; apply coherent_browser_cons in Hco as [R _];
           assert (Hs : succeeded (Failure e) = true)
             by (rewrite R; exact P1);
           discriminate).
    rewrite after_browser_cons, after_nil, N1.
    exists (group_id G). split; [|auto].
    apply (direct_move_inv src). exact Hinv.
Qed.

End OwnStep.

(** ** From the invariant to the group in the target window *)

Section GroupOutcome.

Lemma elem_of_members x w g b :
  x ∈ members w g b <->
  exists t, t ∈ b_tabs b /\ tab_windowId t = w /\ tab_groupId t = g
            /\ tab_id t = x.
Proof.
  unfold members. rewrite list_elem_of_fmap. split.
  - intros (t & -> & Ht). apply elem_of_tabs_of in Ht as (H1 & H2 & H3). eauto.
  - intros (t & H1 & H2 & H3 & <-). exists t. split; [reflexivity|].
    apply elem_of_tabs_of. auto.
Qed.

Lemma inv_carries gid G ids gids target b :
  Inv target gid G ids gids target b -> ids <> [] ->
  exists g, carries b target G ids g
            /\ forall g', carries b target G ids g' -> g' = g.
Proof.
  intros [[Hin Hout Hex] [(g & Hg & E) Huniq] _ _ _ _] Hne.
  pose proof (Huniq g Hg E) as Eg.
  assert (Hmem : forall x, x ∈ members target gid b <-> x ∈ ids).
  { intros x. rewrite elem_of_members. split.
    - intros (t & Ht & Hw & Hgr & <-).
      destruct (decide (tab_id t ∈ ids)) as [Hi|Hi]; [exact Hi|].
      exfalso. exact (Hout t Ht Hi Hgr).
    - intros Hx. destruct (Hex x Hx) as (t & Ht & <-).
      destruct (Hin t Ht Hx) as [Hw Hgr]. eauto. }
  exists g. split.
  - rewrite Eg. unfold carries. simpl. rewrite <- Eg.
    repeat split; auto; apply Hmem.
  - intros g' (Hg' & Hw' & _ & _ & _ & Hmem').
    destruct ids as [|x ids']; [contradiction|].
    assert (Hx : x ∈ x :: ids') by constructor.
    pose proof Hx as Hx'. apply Hmem', elem_of_members in Hx'
      as (t & Ht & _ & Hgr & Hid).
    subst x. destruct (Hin t Ht Hx) as [_ Hgr'].
    rewrite Eg. apply Huniq; [exact Hg'|congruence].
Qed.

Lemma phaseB_app_inv target l1 l2 tr :
  PhaseB target (l1 ++ l2) tr ->
  exists t1 t2, tr = t1 ++ t2 /\ PhaseB target l1 t1 /\ PhaseB target l2 t2.
Proof.
  revert tr. induction l1 as [|g l1 IH]; intros tr Hp; simpl in Hp.
  - exists [], tr. split; [reflexivity|]. split; [constructor|exact Hp].
  - inversion Hp as [|g' gs tr' Hnil Hrest|g' gs t0 tr' Hne Hstep Hrest]; subst.
    + destruct (IH _ Hrest) as (t1 & t2 & -> & H1 & H2).
      exists t1, t2. split; [reflexivity|]. split; [|exact H2].
      apply PhaseB_skip; assumption.
    + destruct (IH _ Hrest) as (t1 & t2 & -> & H1 & H2).
      exists (t0 ++ t1), t2. split; [apply app_assoc|]. split; [|exact H2].
      apply PhaseB_step; assumption.
Qed.

Lemma read_next b r : mutating r = false -> browser_next b r = b.
Proof.
  unfold browser_next. destruct (accepts b r); [|reflexivity].
  destruct r; try discriminate; reflexivity.
Qed.

Lemma reads_coherent w b grouped :
  coherent browser b (classify_events w grouped) ->
  map gt_group grouped = groups_of w b
  /\ (forall g, g ∈ grouped ->
                gt_tabs g = tabs_of w (Some (group_id (gt_group g))) b)
  /\ after browser b (classify_events w grouped) = b.
Proof.
  unfold classify_events. intros Hco.
  apply coherent_browser_cons in Hco as [R Hco].
  rewrite after_browser_cons. rewrite read_next in * by reflexivity.
  unfold browser_reply in R. destruct (accepts b _); [|discriminate].
  injection R as R. split; [exact R|]. clear R.
  induction grouped as [|g gs IH]; cbn [List.map] in *.
  - split; [intros g Hg; inversion Hg|reflexivity].
  - apply coherent_browser_cons in Hco as [R Hco].
    rewrite after_browser_cons. rewrite read_next in * by reflexivity.
    destruct (IH Hco) as [Hall Hafter]. split; [|exact Hafter].
    intros g' Hg'. apply elem_of_cons in Hg' as [->|Hg']; [|auto].
    unfold browser_reply in R. destruct (accepts b _); [|discriminate].
    injection R as R. exact R.
Qed.

Lemma refuses_effect r b : b_refuses (effect r b) = b_refuses b.
Proof. destruct r; reflexivity. Qed.

Lemma refuses_after tr b : b_refuses (after browser b tr) = b_refuses b.
Proof.
  revert b. induction tr as [|[r a|m] tr IH]; intros b; simpl; auto.
  rewrite respond_browser. simpl. rewrite IH. unfold browser_next.
  destruct (accepts b r); [apply refuses_effect|reflexivity].
Qed.

Lemma NoDup_fmap_filter {A B} (f : A -> B) (P : A -> bool) l :
  NoDup (map f l) -> NoDup (map f (List.filter P l)).
Proof.
  induction l as [|a l IH]; simpl; intros Hnd; [constructor|].
  apply NoDup_cons in Hnd as [Ha Hnd]. destruct (P a); simpl; auto.
  apply NoDup_cons. split; [|auto]. intros Hin. apply Ha.
  apply list_elem_of_fmap in Hin as (x & -> & Hx).
  apply elem_of_lfilter in Hx as [Hx _]. apply list_elem_of_fmap. eauto.
Qed.

End GroupOutcome.

(** ** The invariant before the migration *)

Section GroupMigration.
Variables (src target : Z) (G : TabGroup) (b : Browser).
Hypothesis Htarget : has_window b target = true.
Hypothesis Htabs : NoDup (map tab_id (b_tabs b)).
Hypothesis Hgroups : NoDup (map group_id (b_groups b)).
Hypothesis Hok : grouped_ok b.
Hypothesis HG : G ∈ b_groups b.
Hypothesis Hsrc : group_windowId G = src.
Hypothesis Hgid : group_id G <> TAB_GROUP_ID_NONE.
Hypothesis Hmembers :
  forall t, t ∈ b_tabs b -> tab_groupId t = group_id G ->
            tab_windowId t = src /\ tab_pinned t = false.

Local Abbreviation ids := (members src (group_id G) b).
Local Abbreviation gids := (map group_id (b_groups b)).

Lemma initial_inv : Inv src (group_id G) G ids gids target b.
Proof.
  split; auto.
  - split.
    + intros t Ht Hid. apply elem_of_members in Hid
        as (t' & Ht' & Hw & Hg & Hid).
      assert (t' = t) by (eapply NoDup_fmap_inj; eauto). subst t'. auto.
    + intros t Ht Hid Hg. apply Hid. apply elem_of_members.
      exists t. destruct (Hmembers t Ht Hg) as [Hw _]. auto.
    + intros x Hx. apply elem_of_members in Hx as (t & Ht & _ & _ & E). eauto.
  - split.
    + exists G. auto.
    + intros g Hg E.
      assert (g = G) by (eapply NoDup_fmap_inj; eauto). subst g.
      destruct G; simpl in *. congruence.
  - intros g Hg. exact Hg.
Qed.

(** What the window's traces say about the tabs and groups they name. *)
Lemma pinned_foreign tabs grouped t :
  tabs = tabs_of src None b ->
  t ∈ pinned (classified tabs grouped) -> tab_id t ∉ ids.
Proof.
  intros -> Ht Hid. simpl in Ht. apply elem_of_lfilter in Ht as [Ht Hp].
  apply elem_of_tabs_of in Ht as (Ht & _).
  destruct (ti_in _ _ _ _ (inv_tabs _ _ _ _ _ _ _ initial_inv) t Ht Hid)
    as [_ Hg].
  destruct (Hmembers t Ht Hg) as [_ Hp']. congruence.
Qed.

Lemma other_group_foreign g t :
  g <> group_id G -> t ∈ tabs_of src (Some g) b -> tab_id t ∉ ids.
Proof.
  intros Hne Ht Hid. apply elem_of_tabs_of in Ht as (Ht & _ & Hg).
  destruct (ti_in _ _ _ _ (inv_tabs _ _ _ _ _ _ _ initial_inv) t Ht Hid)
    as [_ Hg'].
  congruence.
Qed.

Lemma ungrouped_foreign tabs grouped gG t :
  gG ∈ grouped -> map tab_id (gt_tabs gG) = ids ->
  t ∈ ungrouped (classified tabs grouped) -> tab_id t ∉ ids.
Proof.
  intros HgG Hids Ht Hid. simpl in Ht. apply elem_of_lfilter in Ht as [_ Ht].
  apply negb_true_iff, bool_decide_eq_false in Ht. apply Ht.
  rewrite elem_of_list_to_set. apply elem_of_grouped_ids.
  rewrite <- Hids in Hid. apply list_elem_of_fmap in Hid as (t' & E & Ht').
  exists t'. split; [|auto]. apply elem_of_grouped_tabs. eauto.
Qed.

End GroupMigration.

Lemma NoDup_fmap_middle {A B} (f : A -> B) (l1 l2 : list A) x :
  NoDup (map f (l1 ++ x :: l2)) ->
  forall y, y ∈ l1 ++ l2 -> f y <> f x.
Proof.
  rewrite map_app. simpl. intros Hnd y Hy E.
  apply NoDup_app in Hnd as (_ & Hdis & Hnd2).
  apply NoDup_cons in Hnd2 as [Hx _].
  apply elem_of_app in Hy as [Hy|Hy].
  - apply (Hdis (f y)); [apply list_elem_of_fmap; eauto|].
    rewrite E. constructor.
  - apply Hx. rewrite <- E. apply list_elem_of_fmap. eauto.
Qed.

Lemma phaseB_cons_inv target g gs tr :
  PhaseB target (g :: gs) tr -> gt_tabs g <> [] ->
  exists t1 t2,
    tr = t1 ++ t2
    /\ GroupStep target (gt_group g) (gt_tabs g) t1
    /\ PhaseB target gs t2.
Proof.
  intros Hp Hne.
  inversion Hp as [|g' gs' tr' Hnil Hrest|g' gs' t1 t2 _ Hstep Hrest]; subst.
  - contradiction.
  - eauto.
Qed.

(** ** Runs written out by the host's answers *)

Section RunsOnHost.
Context {S : Type} (H : Host S).

(** Phase C for a collection that is not empty. *)
Lemma migrateTabs_run tabIds target st :
  tabIds <> [] ->
  migrateTabs H tabIds target st =
    match tabs_move_many H tabIds target TAB_POSITION_END (host st) with
    | (Resolved _, h) =>
        ([Called (TabsMoveMany tabIds target TAB_POSITION_END) Void],
         Resolved tt, mkSt (pwaWindowIds st) h)
    | (Rejected e, h) =>
        then_run
          [Called (TabsMoveMany tabIds target TAB_POSITION_END) (Failure e);
           Logged (FailedToMoveTabs e)]
          (for_of tabIds (fun tabId => safeMove H tabId target None ;; ret tt))
          (mkSt (pwaWindowIds st) h)
    end.
Proof.
  intros Hne. unfold migrateTabs, then_run.
  destruct tabIds as [|tabId tabIds]; [congruence|].
  change (length (tabId :: tabIds) =? 0)%nat with false. cbv beta iota.
  unfold bind at 1. rewrite safeMoveMultiple_run.
  destruct (tabs_move_many H (tabId :: tabIds) target TAB_POSITION_END (host st))
    as [[u|e] h]; [reflexivity|].
  cbn [negb].
  destruct (for_of (tabId :: tabIds) _ _) as [[t2 r2] st2]. reflexivity.
Qed.

Lemma sound_one_by_one tabIds target :
  sound H (for_of tabIds (fun tabId => safeMove H tabId target None ;; ret tt)).
Proof.
  apply sound_for_of. intros tabId.
  apply sound_bind; [apply sound_safeMove|]. intros _. apply sound_ret.
Qed.

(** Phase B, a group without tabs first. *)
Lemma migrateTabGroups_skip group gs target st :
  migrateTabGroups H (mkGrouped group [] :: gs) target st
  = migrateTabGroups H gs target st.
Proof.
  unfold migrateTabGroups. rewrite for_of_cons. simpl.
  destruct (for_of gs _ st) as [[t2 r2] st2]. reflexivity.
Qed.

(** Phase B, a group with tabs first. *)
Lemma migrateTabGroups_step group tabs gs target st :
  tabs <> [] ->
  migrateTabGroups H (mkGrouped group tabs :: gs) target st =
    let ids := map tab_id tabs in
    let gid := group_id group in
    let next t1 h :=
      then_run t1 (migrateTabGroups H gs target) (mkSt (pwaWindowIds st) h) in
    match tabGroups_move H gid target TAB_POSITION_END (host st) with
    | (Resolved _, h) =>
        next [Called (TabGroupsMove gid target TAB_POSITION_END) Void] h
    | (Rejected e, h) =>
        match tabs_move_many H ids target TAB_POSITION_END h with
        | (Rejected e1, h1) =>
            next [Called (TabGroupsMove gid target TAB_POSITION_END) (Failure e);
                  Logged (FailedToMoveGroup gid e);
                  Called (TabsMoveMany ids target TAB_POSITION_END) (Failure e1);
                  Logged (FailedToMoveTabs e1)] h1
        | (Resolved _, h1) =>
            match tabs_group H ids target h1 with
            | (Rejected e2, h2) =>
                next [Called (TabGroupsMove gid target TAB_POSITION_END) (Failure e);
                      Logged (FailedToMoveGroup gid e);
                      Called (TabsMoveMany ids target TAB_POSITION_END) Void;
                      Called (TabsGroup ids target) (Failure e2);
                      Logged (FailedToRecreateGroup e2)] h2
            | (Resolved newGroupId, h2) =>
                match tabGroups_update H newGroupId (group_title group)
                        (group_color group) (group_collapsed group) h2 with
                | (Resolved _, h3) =>
                    next [Called (TabGroupsMove gid target TAB_POSITION_END)
                                 (Failure e);
                          Logged (FailedToMoveGroup gid e);
                          Called (TabsMoveMany ids target TAB_POSITION_END) Void;
                          Called (TabsGroup ids target) (GroupId newGroupId);
                          Called (TabGroupsUpdate newGroupId (group_title group)
                                    (group_color group) (group_collapsed group))
                                 Void] h3
                | (Rejected e3, h3) =>
                    next [Called (TabGroupsMove gid target TAB_POSITION_END)
                                 (Failure e);
                          Logged (FailedToMoveGroup gid e);
                          Called (TabsMoveMany ids target TAB_POSITION_END) Void;
                          Called (TabsGroup ids target) (GroupId newGroupId);
                          Called (TabGroupsUpdate newGroupId (group_title group)
                                    (group_color group) (group_collapsed group))
                                 (Failure e3);
                          Logged (FailedToRecreateGroup e3)] h3
                end
            end
        end
    end.
Proof.
  intros Hne. cbv zeta. unfold migrateTabGroups, then_run.
  rewrite for_of_cons. cbv beta iota. rewrite group_step_run by exact Hne.
  destruct (tabGroups_move H (group_id group) target TAB_POSITION_END (host st))
    as [[u|e] h]; [reflexivity|].
  rewrite recreateGroup_run. cbv zeta. cbn [pwaWindowIds host].
  destruct (tabs_move_many H (map tab_id tabs) target TAB_POSITION_END h)
    as [[u1|e1] h1]; [|reflexivity].
  destruct (tabs_group H (map tab_id tabs) target h1) as [[n|e2] h2];
    [|reflexivity].
  destruct (tabGroups_update H n (group_title group) (group_color group)
              (group_collapsed group) h2) as [[u3|e3] h3]; reflexivity.
Qed.

Lemma getSourceWindows_run target st :
  getSourceWindows H target st =
    match windows_get H target (host st) with
    | Rejected e => ([Called (WindowsGet target) (Failure e)], Rejected e, st)
    | Resolved T =>
        match windows_getAll H [normal] (host st) with
        | Rejected e =>
            ([Called (WindowsGet target) (AWindow T);
              Called (WindowsGetAll [normal]) (Failure e)], Rejected e, st)
        | Resolved all =>
            ([Called (WindowsGet target) (AWindow T);
              Called (WindowsGetAll [normal]) (Windows all)],
             Resolved
               (List.filter
                  (fun w => negb (win_id w =? target)
                            && Bool.eqb (win_incognito w) (win_incognito T)
                            && negb (bool_decide (win_id w ∈ pwaWindowIds st)))
                  all),
             st)
        end
    end.
Proof.
  unfold getSourceWindows, bind, chrome_windows_get, chrome_windows_getAll,
    read, get_pwaWindowIds, ret. simpl.
  destruct (windows_get H target (host st)) as [T|e]; [|reflexivity].
  destruct (windows_getAll H [normal] (host st)) as [all|e]; reflexivity.
Qed.

(** The run of a merge, cut into its three stretches. *)
Lemma executeMerge_run target st :
  exists tr0 r0,
    getSourceWindows H target st = (tr0, r0, st)
    /\ match r0 with
       | Rejected e =>
           executeMerge H target st
           = (tr0 ++ [Logged (WindowMergeFailed e)], Resolved tt, st)
       | Resolved ws =>
           exists tr r st',
             WindowsRun target ws tr r
             /\ executeMerge H target st
                = (tr0 ++ tr ++ match r with
                                | Resolved _ => []
                                | Rejected e => [Logged (WindowMergeFailed e)]
                                end,
                   Resolved tt, st')
       end.
Proof.
  destruct (getSourceWindows H target st) as [[tr0 r0] st0] eqn:E0.
  assert (st0 = st).
  { rewrite getSourceWindows_run in E0.
    destruct (windows_get H target (host st)); [|congruence].
    destruct (windows_getAll H [normal] (host st)); congruence. }
  subst st0. exists tr0, r0. split; [reflexivity|].
  destruct r0 as [ws|e].
  2:{ unfold executeMerge, try_catch, bind. rewrite E0. reflexivity. }
  destruct (windows_run_shape H target ws st) as (tr & r & st' & E & Hr).
  exists tr, r, st'. split; [exact Hr|].
  unfold executeMerge, try_catch, bind. rewrite E0, E.
  destruct r as [[]|e]; simpl.
  - rewrite app_nil_r. reflexivity.
  - rewrite app_assoc. reflexivity.
Qed.

End RunsOnHost.

(** ** The rejection that ends a run *)

Section EndOfRun.

(** A rejected [Promise.all] over the group reads carries the rejection of
    one of them. *)
Lemma gather_rejected_read reads e :
  gather reads = Rejected e -> exists g, (g, Rejected e) ∈ reads.
Proof.
  induction reads as [|[g r] reads IH]; simpl; [discriminate|].
  destruct r as [ts|e'].
  - destruct (gather reads) as [gs|e'']; [discriminate|].
    intros [= <-]. destruct (IH eq_refl) as (g' & Hin).
    exists g'. right. exact Hin.
  - intros [= <-]. exists g. left.
Qed.

(** A run over the windows that was cut short was cut short by a rejected
    read of its trace. *)
Lemma run_rejected_read target ws tr e :
  WindowsRun target ws tr (Rejected e) ->
  exists rq, mutating rq = false /\ Called rq (Failure e) ∈ tr.
Proof.
  intros Hr. remember (Rejected e) as r eqn:Er.
  induction Hr as [|w ws t1 tr r Hd _ IH|w ws t1 e0 Ha]; [discriminate|..].
  - destruct (IH Er) as (rq & Hm & Hin). exists rq. split; [exact Hm|].
    apply elem_of_app. right. exact Hin.
  - destruct Ha as [e1|tabs e1 Hne|tabs reads e1 Hne Hg]; injection Er as ->.
    + exists (TabsQuery (win_id w) None). split; [reflexivity|left].
    + exists (TabGroupsQuery (win_id w)). split; [reflexivity|]. right. left.
    + destruct (gather_rejected_read _ _ Hg) as (g & Hin).
      exists (TabsQuery (win_id w) (Some (group_id g))).
      split; [reflexivity|]. do 2 right. unfold read_events.
      apply list_elem_of_fmap. exists (g, Rejected e). split; [reflexivity|exact Hin].
Qed.

End EndOfRun.

(** ** The fate of a group over the migration of its window *)

Section GroupFate.

(** What the invariant says of the group and its members. *)
Lemma inv_holds W gid G ids gids target b :
  Inv W gid G ids gids target b ->
  mkGroup gid W (group_title G) (group_color G) (group_collapsed G) ∈ b_groups b
  /\ (forall x, x ∈ members W gid b <-> x ∈ ids)
  /\ (ids <> [] ->
      forall g' w,
        g' ∈ b_groups b ->
        (forall x, x ∈ members w (group_id g') b <-> x ∈ ids) ->
        g' = mkGroup gid W (group_title G) (group_color G) (group_collapsed G)).
Proof.
  intros [[Hin Hout Hex] [(g & Hg & E) Huniq] _ _ _ _].
  pose proof (Huniq g Hg E) as Eg. split; [rewrite <- Eg; exact Hg|]. split.
  - intros x. rewrite elem_of_members. split.
    + intros (t & Ht & Hw & Hgr & <-).
      destruct (decide (tab_id t ∈ ids)) as [Hi|Hi]; [exact Hi|].
      exfalso. exact (Hout t Ht Hi Hgr).
    + intros Hx. destruct (Hex x Hx) as (t & Ht & <-).
      destruct (Hin t Ht Hx) as [Hw Hgr]. eauto.
  - intros Hne g' w Hg' Hmem'.
    destruct ids as [|x ids']; [contradiction|].
    assert (Hx : x ∈ x :: ids') by constructor.
    pose proof Hx as Hx'. apply Hmem', elem_of_members in Hx'
      as (t & Ht & _ & Hgr & Hid).
    subst x. destruct (Hin t Ht Hx) as [_ Hgr'].
    apply Huniq; [exact Hg'|congruence].
Qed.

(** The step for the group itself, when the host refuses both moves. *)
Lemma own_step_abandoned target G tabs ids tr b :
  GroupStep target G tabs tr ->
  map tab_id tabs = ids ->
  coherent browser b tr ->
  b_refuses b (TabGroupsMove (group_id G) target TAB_POSITION_END) = true ->
  b_refuses b (TabsMoveMany ids target TAB_POSITION_END) = true ->
  after browser b tr = b.
Proof.
  intros Hstep <- Hco R1 R2.
  assert (A1 : accepts b (TabGroupsMove (group_id G) target TAB_POSITION_END)
               = false) by (unfold accepts; rewrite R1; reflexivity).
  assert (A2 : accepts b (TabsMoveMany (map tab_id tabs) target TAB_POSITION_END)
               = false) by (unfold accepts; rewrite R2; reflexivity).
  destruct (rejected_reply _ _ A1) as [P1 N1].
  destruct (rejected_reply _ _ A2) as [P2 N2].
  destruct Hstep as [|e n|e n e'|e e'|e e'].
  - exfalso. apply coherent_browser_cons in Hco as [R _].
    rewrite P1 in R. discriminate R.
  - exfalso. apply coherent_browser_cons in Hco as [_ Hco].
    rewrite coherent_logged in Hco. rewrite N1 in Hco.
    apply coherent_browser_cons in Hco as [R _]. rewrite P2 in R. discriminate R.
  - exfalso. apply coherent_browser_cons in Hco as [_ Hco].
    rewrite coherent_logged in Hco. rewrite N1 in Hco.
    apply coherent_browser_cons in Hco as [R _]. rewrite P2 in R. discriminate R.
  - exfalso. apply coherent_browser_cons in Hco as [_ Hco].
    rewrite coherent_logged in Hco. rewrite N1 in Hco.
    apply coherent_browser_cons in Hco as [R _]. rewrite P2 in R. discriminate R.
  - rewrite after_browser_cons, after_logged, N1.
    rewrite after_browser_cons, after_logged, N2. reflexivity.
Qed.

Variables (src target : Z) (G : TabGroup) (b : Browser).
Hypothesis Htarget : has_window b target = true.
Hypothesis Htabs : NoDup (map tab_id (b_tabs b)).
Hypothesis Hgroups : NoDup (map group_id (b_groups b)).
Hypothesis Hok : grouped_ok b.
Hypothesis HG : G ∈ b_groups b.
Hypothesis Hsrc : group_windowId G = src.
Hypothesis Hgid : group_id G <> TAB_GROUP_ID_NONE.
Hypothesis Hne : members src (group_id G) b <> [].
Hypothesis Hmem :
  forall t, t ∈ b_tabs b -> tab_groupId t = group_id G ->
            tab_windowId t = src /\ tab_pinned t = false.

(** The migration of the window, cut at the step for the group: the
    invariant holds when that step begins, and what that step makes of it
    is kept to the end. *)
Lemma migration_split (st : St Browser) tr st' :
  host st = b ->
  migrateWindow browser src target st = (tr, Resolved tt, st') ->
  exists tabs tG b1,
    GroupStep target G tabs tG
    /\ map tab_id tabs = members src (group_id G) b
    /\ coherent browser b1 tG
    /\ Inv src (group_id G) G (members src (group_id G) b)
           (map group_id (b_groups b)) target b1
    /\ b_refuses b1 = b_refuses b
    /\ forall W gid',
         Inv W gid' G (members src (group_id G) b)
             (map group_id (b_groups b)) target (after browser b1 tG) ->
         gid' = group_id G \/ gid' ∉ map group_id (b_groups b) ->
         Inv W gid' G (members src (group_id G) b)
             (map group_id (b_groups b)) target (host st').
Proof.
  intros Hb Hrun.
  set (ids := members src (group_id G) b) in *.
  pose proof (initial_inv src target G b Htarget Htabs Hgroups Hok HG Hsrc
                Hgid Hmem) as Hinv.
  fold ids in Hinv.
  destruct (migrateWindow_shape browser src target st)
    as (tr0 & r0 & st0 & E & _ & Hshape).
  rewrite Hrun in E. injection E as <- <- <-.
  destruct Hshape as [[_ Hdone]|(e & He & _)]; [|discriminate].
  destruct (sound_migrateWindow browser src target _ _ _ _ Hrun)
    as (Hco & Hafter & _).
  rewrite Hafter. rewrite Hb in Hco |- *.
  assert (Hsome : exists t, t ∈ tabs_of src None b).
  { destruct ids as [|x xs] eqn:Ex; [contradiction|].
    assert (Hx : x ∈ members src (group_id G) b)
      by (fold ids; rewrite Ex; constructor).
    apply elem_of_members in Hx as (t & Ht & Hw & _).
    exists t. apply elem_of_tabs_of. auto. }
  inversion Hdone as [Etr|tabs grouped trA trB trC Htne HA HB HC Etr]; subst tr.
  { exfalso. apply coherent_browser_cons in Hco as [R _].
    unfold browser_reply in R. destruct (accepts b _); [|discriminate].
    injection R as R. destruct Hsome as (t & Ht). rewrite <- R in Ht.
    inversion Ht. }
  apply coherent_browser_cons in Hco as [R Hco].
  rewrite after_browser_cons. rewrite read_next in * by reflexivity.
  assert (Etabs : tabs = tabs_of src None b).
  { unfold browser_reply in R. destruct (accepts b _); [|discriminate].
    injection R as R. exact R. }
  clear R.
  apply coherent_app in Hco as [Hcr Hco]. rewrite after_app.
  destruct (reads_coherent _ _ _ Hcr) as (Hgs & Hgt & Hbb). rewrite Hbb in *.
  apply coherent_app in Hco as [HcA Hco]. rewrite after_app.
  apply coherent_app in Hco as [HcB HcC]. rewrite after_app.
  assert (IA : Inv src (group_id G) G ids (map group_id (b_groups b)) target
                   (after browser b trA)).
  { apply (phaseA_inv _ _ _ _ _ _ _ _ HA); [|exact Hinv].
    intros t Ht. eapply pinned_foreign; eauto. }
  assert (HGin : G ∈ map gt_group grouped).
  { rewrite Hgs. apply elem_of_lfilter. split; [exact HG|].
    apply Z.eqb_eq. exact Hsrc. }
  apply list_elem_of_fmap in HGin as (gG & EG & HgG).
  destruct (list_elem_of_split _ _ HgG) as (l1 & l2 & Hsplit).
  assert (Hnd : NoDup (map group_id (map gt_group grouped))).
  { rewrite Hgs. apply NoDup_fmap_filter. exact Hgroups. }
  assert (Hothers : forall g, g ∈ l1 ++ l2 ->
                              group_id (gt_group g) <> group_id G
                              /\ forall t, t ∈ gt_tabs g -> tab_id t ∉ ids).
  { intros g Hg.
    assert (Hgin : g ∈ grouped).
    { rewrite Hsplit. apply elem_of_app in Hg as [Hg|Hg];
        apply elem_of_app; [auto|right; constructor; exact Hg]. }
    assert (Hneq : group_id (gt_group g) <> group_id G).
    { rewrite map_map, Hsplit in Hnd. rewrite EG.
      apply (NoDup_fmap_middle _ _ _ _ Hnd g Hg). }
    split; [exact Hneq|]. intros t Ht. rewrite (Hgt g Hgin) in Ht.
    eapply other_group_foreign; eauto. }
  assert (HidsG : map tab_id (gt_tabs gG) = ids).
  { rewrite (Hgt gG HgG), <- EG. reflexivity. }
  rewrite Hsplit in HB.
  apply phaseB_app_inv in HB as (t1 & t2 & -> & HB1 & HB2).
  apply coherent_app in HcB as [Hc1 Hc2]. rewrite after_app.
  assert (I1 : Inv src (group_id G) G ids (map group_id (b_groups b)) target
                   (after browser (after browser b trA) t1)).
  { apply (phaseB_inv _ _ _ _ _ _ _ _ HB1); auto.
    intros g Hg. apply Hothers. apply elem_of_app. auto. }
  apply phaseB_cons_inv in HB2 as (tG & t3 & -> & Hstep & Hrest).
  2:{ intros Hnil. rewrite Hnil in HidsG. simpl in HidsG. congruence. }
  apply coherent_app in Hc2 as [HcG Hc3]. rewrite after_app.
  rewrite <- EG in Hstep.
  exists (gt_tabs gG), tG, (after browser (after browser b trA) t1).
  split; [exact Hstep|]. split; [exact HidsG|]. split; [exact HcG|].
  split; [exact I1|]. split; [rewrite !refuses_after; reflexivity|].
  intros W gid' IG Hgid'.
  assert (I2 : Inv W gid' G ids (map group_id (b_groups b)) target
                   (after browser
                      (after browser (after browser (after browser b trA) t1) tG)
                      t3)).
  { apply (phaseB_inv _ _ _ _ _ _ _ _ Hrest); auto.
    intros g Hg. destruct (Hothers g) as [Hneq Hts];
      [apply elem_of_app; auto|].
    split; [|exact Hts]. destruct Hgid' as [->|Hfresh]; [exact Hneq|].
    intros Eg. apply Hfresh. rewrite <- Eg.
    assert (Hin : gt_group g ∈ map gt_group grouped).
    { apply list_elem_of_fmap. exists g. split; [reflexivity|].
      rewrite Hsplit. apply elem_of_app. right. constructor. exact Hg. }
    rewrite Hgs in Hin. apply elem_of_lfilter in Hin as [Hin _].
    apply list_elem_of_fmap. eauto. }
  apply (phaseC_inv _ _ _ _ _ _ _ _ HC); [|exact I2].
  intros x Hx. apply list_elem_of_fmap in Hx as (t & -> & Ht).
  eapply ungrouped_foreign; eauto.
Qed.

End GroupFate.

(** * The claims *)

(** Closed decidable facts, by evaluation. *)
Ltac by_compute := apply (bool_decide_unpack _); vm_compute; exact Logic.I.

Ltac in_trace := vm_compute; repeat constructor.

Ltac each_elem H :=
  repeat (apply elem_of_cons in H as [->|H]); [..|inversion H].
(** C1, as stated, fails: for the window of [pinned_in_group] the
    classifier returns tab 20 both in [pinned] and in the member list of
    group 7. *)
Lemma C1_counterexample :
  snd (fst (classifyTabs browser (tabs_of 2 None pinned_in_group) 2
              (mkSt ∅ pinned_in_group)))
  = Resolved pinned_in_group_classified
  /\ mkTab 20 2 true 7 ∈ pinned pinned_in_group_classified
  /\ mkTab 20 2 true 7 ∈ grouped_tabs (grouped pinned_in_group_classified).
Proof.
  split; [vm_compute; reflexivity|]. split; constructor.
Qed.

(** C1, amended.  For every tab set given to the classifier: [pinned] is
    the pinned tabs in order; [ungrouped] holds unpinned tabs of the set
    that are in no group's member list, so it is disjoint from both other
    parts; every tab of the set is pinned, or listed (by identifier) in a
    group, or ungrouped; and each group's member list is the host's answer
    for that group, pinned members included.  On the reference host, with
    distinct tab identifiers, the union of the three parts is the window's
    tab set; a pinned tab is also in a group's member list exactly when it
    belongs to a group of the window, so [pinned] and [grouped] are disjoint
    when no pinned tab of the window is in one of its groups. *)
Theorem C1_classification :
  (forall (S : Type) (H : Host S) (tabs : list Tab) (w : Z) (st : St S) tr c st',
      classifyTabs H tabs w st = (tr, Resolved c, st') ->
      st' = st
      /\ pinned c = List.filter (fun t => tab_pinned t) tabs
      /\ (forall t, t ∈ ungrouped c ->
                    t ∈ tabs /\ tab_pinned t = false /\ (t ∉ pinned c)
                    /\ (t ∉ grouped_tabs (grouped c)))
      /\ (forall t, t ∈ tabs ->
                    t ∈ pinned c \/ tab_id t ∈ grouped_ids (grouped c)
                    \/ t ∈ ungrouped c)
      /\ (forall g, g ∈ grouped c ->
                    tabs_query H w (Some (group_id (gt_group g))) (host st)
                    = Resolved (gt_tabs g)))
  /\ (forall (w : Z) (st : St Browser) tr c st',
        NoDup (map tab_id (b_tabs (host st))) ->
        classifyTabs browser (tabs_of w None (host st)) w st
        = (tr, Resolved c, st') ->
        (forall t,
            t ∈ tabs_of w None (host st) <->
            t ∈ pinned c \/ t ∈ grouped_tabs (grouped c) \/ t ∈ ungrouped c)
        /\ (forall t,
               t ∈ pinned c ->
               (t ∈ grouped_tabs (grouped c) <->
                exists g, g ∈ groups_of w (host st)
                          /\ tab_groupId t = group_id g))
        /\ ((forall t g,
                t ∈ tabs_of w None (host st) -> tab_pinned t = true ->
                g ∈ groups_of w (host st) -> tab_groupId t <> group_id g) ->
            forall t, t ∈ pinned c -> t ∉ grouped_tabs (grouped c))).
Proof.
  assert (G : forall (S : Type) (H : Host S) (tabs : list Tab) (w : Z)
                     (st : St S) tr c st',
      classifyTabs H tabs w st = (tr, Resolved c, st') ->
      st' = st
      /\ pinned c = List.filter (fun t => tab_pinned t) tabs
      /\ (forall t, t ∈ ungrouped c ->
                    t ∈ tabs /\ tab_pinned t = false /\ (t ∉ pinned c)
                    /\ (t ∉ grouped_tabs (grouped c)))
      /\ (forall t, t ∈ tabs ->
                    t ∈ pinned c \/ tab_id t ∈ grouped_ids (grouped c)
                    \/ t ∈ ungrouped c)
      /\ (forall g, g ∈ grouped c ->
                    tabs_query H w (Some (group_id (gt_group g))) (host st)
                    = Resolved (gt_tabs g))).
  { intros S H tabs w st tr c st' Hrun.
    apply classify_resolved in Hrun as (groups & gs & Hq & Hg & -> & ->).
    apply gather_resolved in Hg as [Hm Hf]. simpl.
    split; [reflexivity|]. split; [reflexivity|]. split; [|split].
    - intros t Ht. apply elem_of_lfilter in Ht as [Ht Hid].
      apply elem_of_lfilter in Ht as [Ht Hp].
      apply negb_true_iff in Hp. apply negb_true_iff, bool_decide_eq_false in Hid.
      rewrite elem_of_list_to_set in Hid.
      split; [exact Ht|]. split; [exact Hp|]. split.
      + rewrite elem_of_lfilter. intros [_ Hp']. congruence.
      + intros Hin. apply Hid. apply elem_of_grouped_ids. eauto.
    - intros t Ht. destruct (tab_pinned t) eqn:Hp.
      + left. apply elem_of_lfilter. auto.
      + destruct (decide (tab_id t ∈ grouped_ids gs)) as [Hin|Hout]; [auto|].
        right. right. rewrite !elem_of_lfilter. rewrite Hp.
        repeat split; auto.
        apply negb_true_iff, bool_decide_eq_false.
        rewrite elem_of_list_to_set. exact Hout.
    - intros g Hgin. rewrite Forall_forall in Hf. auto. }
  split; [exact G|].
  intros w st tr c st' Hnd Hrun.
  pose proof (browser_grouped_tabs _ _ _ _ _ _ Hrun) as Hgt.
  destruct (G _ _ _ _ _ _ _ _ Hrun) as (_ & Hp & Hu & Hcov & _).
  assert (Hpin : forall t, t ∈ pinned c ->
                           t ∈ tabs_of w None (host st) /\ tab_pinned t = true).
  { intros t. rewrite Hp, elem_of_lfilter. auto. }
  split; [|split].
  - intros t. split.
    + intros Ht. destruct (Hcov t Ht) as [Hc|[Hc|Hc]]; auto.
      right. left. apply elem_of_grouped_ids in Hc as (t' & Ht' & Hid).
      assert (t' = t); [|subst; exact Ht'].
      apply Hgt in Ht' as [Ht' _].
      apply elem_of_tabs_of in Ht as (Hb & _).
      apply elem_of_tabs_of in Ht' as (Hb' & _).
      eapply NoDup_fmap_inj; eauto.
    + intros [Ht|[Ht|Ht]].
      * apply Hpin in Ht. tauto.
      * apply Hgt in Ht. tauto.
      * apply Hu in Ht. tauto.
  - intros t Ht. rewrite Hgt. apply Hpin in Ht. tauto.
  - intros Hno t Ht Hg. apply Hgt in Hg as (Hin & g & Hgin & Hgr).
    apply Hpin in Ht as [_ Hpt]. exact (Hno t g Hin Hpt Hgin Hgr).
Qed.

(** C1 on [pinned_in_group]: the three parts cover window 2, and tab 20,
    pinned and in group 7, is in the member list of group 7. *)
Lemma C1_witness :
  NoDup (map tab_id (b_tabs pinned_in_group))
  /\ snd (fst (classifyTabs browser (tabs_of 2 None pinned_in_group) 2
                 (mkSt ∅ pinned_in_group)))
     = Resolved pinned_in_group_classified
  /\ (forall t,
         t ∈ tabs_of 2 None pinned_in_group <->
         t ∈ pinned pinned_in_group_classified
         \/ t ∈ grouped_tabs (grouped pinned_in_group_classified)
         \/ t ∈ ungrouped pinned_in_group_classified)
  /\ (mkTab 20 2 true 7 ∈ grouped_tabs (grouped pinned_in_group_classified) <->
      exists g, g ∈ groups_of 2 pinned_in_group
                /\ tab_groupId (mkTab 20 2 true 7) = group_id g).
Proof.
  assert (Hnd : NoDup (map tab_id (b_tabs pinned_in_group))) by by_compute.
  assert (Hres : snd (fst (classifyTabs browser (tabs_of 2 None pinned_in_group) 2
                             (mkSt ∅ pinned_in_group)))
                 = Resolved pinned_in_group_classified)
    by (vm_compute; reflexivity).
  assert (Hrun : classifyTabs browser
                   (tabs_of 2 None (host (mkSt ∅ pinned_in_group))) 2
                   (mkSt ∅ pinned_in_group)
                 = (fst (fst (classifyTabs browser (tabs_of 2 None pinned_in_group) 2
                                (mkSt ∅ pinned_in_group))),
                    Resolved pinned_in_group_classified,
                    mkSt ∅ pinned_in_group))
    by (vm_compute; reflexivity).
  split; [exact Hnd|]. split; [exact Hres|].
  destruct (proj2 C1_classification 2 (mkSt ∅ pinned_in_group) _ _ _ Hnd Hrun)
    as (U & P & _).
  split; [exact U|]. apply P. repeat constructor.
Defined.

(** C2, as stated, fails: on [stubborn] the migration of window 2 into
    window 1 returns normally, group 7 and its tab 22 are still in window 2,
    and window 1 has no group at all. *)
Lemma C2_counterexample :
  snd (fst (migrateWindow browser 2 1 (mkSt ∅ stubborn))) = Resolved tt
  /\ b_groups stubborn_after = [mkGroup 7 2 "Work" blue false]
  /\ members 2 7 stubborn_after = [22]
  /\ groups_of 1 stubborn_after = [].
Proof. vm_compute. auto. Qed.

(** C2, amended.  On the reference host, take a group [G] of the source
    window whose identifier is not the "no group" value, that has member
    tabs, none of them pinned, in a state where the target window exists,
    tab and group identifiers are distinct and every grouped tab is in a
    listed group.  If the host does not refuse the whole-group move, or else
    refuses neither the batch move of the members nor the creation of the
    new group nor its update, then after the window's migration exactly one
    listed group has exactly those members in the target window, and it is
    a group of the target window with the title, color and collapsed flag of
    [G].  If the host refuses both the group move and the batch move, [G] is
    still listed as it was and its members in the source window are still
    exactly those tabs. *)
Theorem C2_group_preserved :
  forall (src target : Z) (G : TabGroup) (st : St Browser) tr st',
    has_window (host st) target = true ->
    NoDup (map tab_id (b_tabs (host st))) ->
    NoDup (map group_id (b_groups (host st))) ->
    grouped_ok (host st) ->
    G ∈ b_groups (host st) ->
    group_windowId G = src ->
    group_id G <> TAB_GROUP_ID_NONE ->
    members src (group_id G) (host st) <> [] ->
    (forall t, t ∈ b_tabs (host st) -> tab_groupId t = group_id G ->
               tab_windowId t = src /\ tab_pinned t = false) ->
    migrateWindow browser src target st = (tr, Resolved tt, st') ->
    ((b_refuses (host st)
        (TabGroupsMove (group_id G) target TAB_POSITION_END) = false
      \/ (b_refuses (host st)
            (TabsMoveMany (members src (group_id G) (host st)) target
                          TAB_POSITION_END) = false
          /\ b_refuses (host st)
               (TabsGroup (members src (group_id G) (host st)) target) = false
          /\ forall n,
               b_refuses (host st)
                 (TabGroupsUpdate n (group_title G) (group_color G)
                                  (group_collapsed G)) = false)) ->
     exists g,
       carries (host st') target G (members src (group_id G) (host st)) g
       /\ forall g',
            g' ∈ b_groups (host st') ->
            (forall x, x ∈ members target (group_id g') (host st')
                       <-> x ∈ members src (group_id G) (host st)) ->
            g' = g)
    /\ (b_refuses (host st)
          (TabGroupsMove (group_id G) target TAB_POSITION_END) = true ->
        b_refuses (host st)
          (TabsMoveMany (members src (group_id G) (host st)) target
                        TAB_POSITION_END) = true ->
        G ∈ b_groups (host st')
        /\ forall x, x ∈ members src (group_id G) (host st')
                     <-> x ∈ members src (group_id G) (host st)).
Proof.
  intros src target G st tr st' Htarget Htabs Hgroups Hok HG Hsrc Hgid Hne
         Hmem Hrun.
  destruct (migration_split src target G (host st) Htarget Htabs Hgroups Hok
              HG Hsrc Hgid Hne Hmem st tr st' eq_refl Hrun)
    as (tabs & tG & b1 & Hstep & Hids & HcG & I1 & Href & Hcont).
  split.
  - intros Hacc.
    destruct (own_step_inv _ _ _ _ _ _ _ _ Hstep Hids Hne HcG I1)
      as (gid' & IG & Hgid').
    { rewrite Href. exact Hacc. }
    destruct (inv_holds _ _ _ _ _ _ _ (Hcont target gid' IG Hgid'))
      as (Hin & Hmembers & Huniq).
    exists (mkGroup gid' target (group_title G) (group_color G)
                    (group_collapsed G)).
    split.
    + unfold carries. simpl. repeat split; auto; apply Hmembers.
    + intros g' Hg' Hm. exact (Huniq Hne g' target Hg' Hm).
  - intros R1 R2.
    assert (Hsame : after browser b1 tG = b1).
    { eapply own_step_abandoned; eauto; rewrite Href; assumption. }
    rewrite Hsame in Hcont.
    destruct (inv_holds _ _ _ _ _ _ _
                (Hcont src (group_id G) I1 (or_introl eq_refl)))
      as (Hin & Hmembers & _).
    split; [|exact Hmembers].
    destruct G as [gid w title color collapsed]. simpl in *. subst w.
    exact Hin.
Qed.

(** C2 on [demo] with group moves refused: group 7 is recreated in window 1
    around tab 22.  On [stubborn], where the batch move is refused as well,
    group 7 and tab 22 stay in window 2. *)
Lemma C2_witness :
  (has_window (demo reluctant) 1 = true
   /\ NoDup (map tab_id (b_tabs (demo reluctant)))
   /\ NoDup (map group_id (b_groups (demo reluctant)))
   /\ grouped_ok (demo reluctant)
   /\ work ∈ b_groups (demo reluctant)
   /\ group_windowId work = 2
   /\ group_id work <> TAB_GROUP_ID_NONE
   /\ members 2 (group_id work) (demo reluctant) <> []
   /\ (forall t, t ∈ b_tabs (demo reluctant) -> tab_groupId t = group_id work ->
                 tab_windowId t = 2 /\ tab_pinned t = false)
   /\ b_refuses (demo reluctant) (TabsMoveMany [22] 1 TAB_POSITION_END) = false
   /\ b_refuses (demo reluctant) (TabsGroup [22] 1) = false
   /\ snd (fst (demo_window reluctant)) = Resolved tt
   /\ exists g,
        carries (host (snd (demo_window reluctant))) 1 work [22] g
        /\ forall g',
             g' ∈ b_groups (host (snd (demo_window reluctant))) ->
             (forall x, x ∈ members 1 (group_id g')
                              (host (snd (demo_window reluctant)))
                        <-> x ∈ [22]) ->
             g' = g)
  /\ (has_window stubborn 1 = true
      /\ NoDup (map tab_id (b_tabs stubborn))
      /\ NoDup (map group_id (b_groups stubborn))
      /\ grouped_ok stubborn
      /\ work ∈ b_groups stubborn
      /\ members 2 (group_id work) stubborn <> []
      /\ (forall t, t ∈ b_tabs stubborn -> tab_groupId t = group_id work ->
                    tab_windowId t = 2 /\ tab_pinned t = false)
      /\ b_refuses stubborn (TabGroupsMove 7 1 TAB_POSITION_END) = true
      /\ b_refuses stubborn (TabsMoveMany [22] 1 TAB_POSITION_END) = true
      /\ work ∈ b_groups stubborn_after
      /\ forall x, x ∈ members 2 7 stubborn_after <-> x ∈ [22]).
Proof.
  split.
  - assert (H1 : has_window (demo reluctant) 1 = true) by reflexivity.
    assert (H2 : NoDup (map tab_id (b_tabs (demo reluctant)))) by by_compute.
    assert (H3 : NoDup (map group_id (b_groups (demo reluctant))))
      by by_compute.
    assert (H4 : grouped_ok (demo reluctant)).
    { intros t Ht. each_elem Ht;
        first [left; reflexivity | right; repeat constructor]. }
    assert (H5 : work ∈ b_groups (demo reluctant)) by (repeat constructor).
    assert (H6 : group_windowId work = 2) by reflexivity.
    assert (H7 : group_id work <> TAB_GROUP_ID_NONE) by discriminate.
    assert (H8 : members 2 (group_id work) (demo reluctant) <> [])
      by (vm_compute; discriminate).
    assert (H9 : forall t, t ∈ b_tabs (demo reluctant) ->
                           tab_groupId t = group_id work ->
                           tab_windowId t = 2 /\ tab_pinned t = false).
    { intros t Ht Hg. each_elem Ht;
        first [discriminate Hg | split; reflexivity]. }
    assert (HA : b_refuses (demo reluctant)
                   (TabsMoveMany [22] 1 TAB_POSITION_END) = false)
      by reflexivity.
    assert (HB : b_refuses (demo reluctant) (TabsGroup [22] 1) = false)
      by reflexivity.
    assert (Hres : snd (fst (demo_window reluctant)) = Resolved tt)
      by (vm_compute; reflexivity).
    assert (Hrun : migrateWindow browser 2 1 (mkSt ∅ (demo reluctant))
                   = (fst (fst (demo_window reluctant)), Resolved tt,
                      snd (demo_window reluctant)))
      by (vm_compute; reflexivity).
    repeat (split; [assumption|]).
    exact (proj1 (C2_group_preserved 2 1 work (mkSt ∅ (demo reluctant)) _ _
                    H1 H2 H3 H4 H5 H6 H7 H8 H9 Hrun)
                 (or_intror (conj HA (conj HB (fun n => eq_refl))))).
  - assert (H1 : has_window stubborn 1 = true) by reflexivity.
    assert (H2 : NoDup (map tab_id (b_tabs stubborn))) by by_compute.
    assert (H3 : NoDup (map group_id (b_groups stubborn))) by by_compute.
    assert (H4 : grouped_ok stubborn).
    { intros t Ht. each_elem Ht;
        first [left; reflexivity | right; repeat constructor]. }
    assert (H5 : work ∈ b_groups stubborn) by (repeat constructor).
    assert (H7 : group_id work <> TAB_GROUP_ID_NONE) by discriminate.
    assert (H8 : members 2 (group_id work) stubborn <> [])
      by (vm_compute; discriminate).
    assert (H9 : forall t, t ∈ b_tabs stubborn ->
                           tab_groupId t = group_id work ->
                           tab_windowId t = 2 /\ tab_pinned t = false).
    { intros t Ht Hg. each_elem Ht;
        first [discriminate Hg | split; reflexivity]. }
    assert (HA : b_refuses stubborn (TabGroupsMove 7 1 TAB_POSITION_END) = true)
      by reflexivity.
    assert (HB : b_refuses stubborn (TabsMoveMany [22] 1 TAB_POSITION_END) = true)
      by reflexivity.
    assert (Hrun : migrateWindow browser 2 1 (mkSt ∅ stubborn)
                   = (fst (fst (migrateWindow browser 2 1 (mkSt ∅ stubborn))),
                      Resolved tt,
                      snd (migrateWindow browser 2 1 (mkSt ∅ stubborn))))
      by (vm_compute; reflexivity).
    repeat (split; [assumption|]).
    exact (proj2 (proj2 (C2_group_preserved 2 1 work (mkSt ∅ stubborn) _ _
                           H1 H2 H3 H4 H5 eq_refl H7 H8 H9 Hrun) HA HB)).
Defined.





(** C5. Phase B never rejects and handles the groups one after the other,
    each by what the host answers.  A group without tabs is skipped.  For a
    group with tabs the whole group is first moved to the end of the target
    window; if the host resolves that move nothing else is requested for the
    group; if it rejects it, and only then, the member tabs are moved as a
    batch to the end of the target window, and if that resolves a new group
    is made from them and given the title, color and collapsed flag of the
    original; a rejected batch move, group creation or update is logged and
    ends the handling of that group.  Whatever a group's outcome, the
    remaining groups are handled next, from the state the host was left in.
    On the reference host, when both the group move and the batch move are
    rejected the state is unchanged by that group (its tabs stay where they
    were) and the phase goes on with the remaining groups from that state. *)
Theorem C5_group_phase :
  (forall (S : Type) (H : Host S) (target : Z),
      (forall (gs : list GroupedTabs) (st : St S),
          exists tr st',
            migrateTabGroups H gs target st = (tr, Resolved tt, st')
            /\ PhaseB target gs tr)
      /\ (forall (group : TabGroup) (gs : list GroupedTabs) (st : St S),
             migrateTabGroups H (mkGrouped group [] :: gs) target st
             = migrateTabGroups H gs target st)
      /\ (forall (group : TabGroup) (tabs : list Tab) (gs : list GroupedTabs)
                 (st : St S),
             tabs <> [] ->
             migrateTabGroups H (mkGrouped group tabs :: gs) target st =
             let ids := map tab_id tabs in
             let gid := group_id group in
             let next t1 h :=
               then_run t1 (migrateTabGroups H gs target)
                        (mkSt (pwaWindowIds st) h) in
             match tabGroups_move H gid target TAB_POSITION_END (host st) with
             | (Resolved _, h) =>
                 next [Called (TabGroupsMove gid target TAB_POSITION_END) Void] h
             | (Rejected e, h) =>
                 match tabs_move_many H ids target TAB_POSITION_END h with
                 | (Rejected e1, h1) =>
                     next [Called (TabGroupsMove gid target TAB_POSITION_END)
                                  (Failure e);
                           Logged (FailedToMoveGroup gid e);
                           Called (TabsMoveMany ids target TAB_POSITION_END)
                                  (Failure e1);
                           Logged (FailedToMoveTabs e1)] h1
                 | (Resolved _, h1) =>
                     match tabs_group H ids target h1 with
                     | (Rejected e2, h2) =>
                         next [Called (TabGroupsMove gid target TAB_POSITION_END)
                                      (Failure e);
                               Logged (FailedToMoveGroup gid e);
                               Called (TabsMoveMany ids target TAB_POSITION_END)
                                      Void;
                               Called (TabsGroup ids target) (Failure e2);
                               Logged (FailedToRecreateGroup e2)] h2
                     | (Resolved newGroupId, h2) =>
                         match tabGroups_update H newGroupId (group_title group)
                                 (group_color group) (group_collapsed group) h2
                         with
                         | (Resolved _, h3) =>
                             next [Called (TabGroupsMove gid target
                                             TAB_POSITION_END) (Failure e);
                                   Logged (FailedToMoveGroup gid e);
                                   Called (TabsMoveMany ids target
                                             TAB_POSITION_END) Void;
                                   Called (TabsGroup ids target)
                                          (GroupId newGroupId);
                                   Called (TabGroupsUpdate newGroupId
                                             (group_title group)
                                             (group_color group)
                                             (group_collapsed group)) Void] h3
                         | (Rejected e3, h3) =>
                             next [Called (TabGroupsMove gid target
                                             TAB_POSITION_END) (Failure e);
                                   Logged (FailedToMoveGroup gid e);
                                   Called (TabsMoveMany ids target
                                             TAB_POSITION_END) Void;
                                   Called (TabsGroup ids target)
                                          (GroupId newGroupId);
                                   Called (TabGroupsUpdate newGroupId
                                             (group_title group)
                                             (group_color group)
                                             (group_collapsed group))
                                          (Failure e3);
                                   Logged (FailedToRecreateGroup e3)] h3
                         end
                     end
                 end
             end))
  /\ (forall (group : TabGroup) (tabs : list Tab) (gs : list GroupedTabs)
             (target : Z) (st : St Browser),
        tabs <> [] ->
        accepts (host st)
          (TabGroupsMove (group_id group) target TAB_POSITION_END) = false ->
        accepts (host st)
          (TabsMoveMany (map tab_id tabs) target TAB_POSITION_END) = false ->
        migrateTabGroups browser (mkGrouped group tabs :: gs) target st
        = then_run
            [Called (TabGroupsMove (group_id group) target TAB_POSITION_END)
                    (Failure "rejected");
             Logged (FailedToMoveGroup (group_id group) "rejected");
             Called (TabsMoveMany (map tab_id tabs) target TAB_POSITION_END)
                    (Failure "rejected");
             Logged (FailedToMoveTabs "rejected")]
            (migrateTabGroups browser gs target) st).
Proof.
  split.
  - intros S H target. split; [|split].
    + intros gs st.
      destruct (migrateTabGroups_shape H gs target st) as (tr & st' & E & Hs & _).
      eauto.
    + intros group gs st. apply migrateTabGroups_skip.
    + intros group tabs gs st Hne. apply migrateTabGroups_step. exact Hne.
  - intros group tabs gs target [pwa b] Hne A1 A2. simpl in A1, A2.
    rewrite migrateTabGroups_step by exact Hne. cbv zeta. simpl.
    unfold perform. rewrite A1, A2. reflexivity.
Qed.

(** C5 on [two_groups]: group 7 is abandoned, its tab 22 stays in window 2,
    and the phase carries on with group 8, which moves to window 1. *)
Lemma C5_witness :
  [mkTab 22 2 false 7] <> []
  /\ accepts two_groups (TabGroupsMove 7 1 TAB_POSITION_END) = false
  /\ accepts two_groups (TabsMoveMany [22] 1 TAB_POSITION_END) = false
  /\ migrateTabGroups browser
       [mkGrouped (mkGroup 7 2 "Work" blue false) [mkTab 22 2 false 7];
        mkGrouped (mkGroup 8 2 "Play" red true) [mkTab 24 2 false 8]]
       1 (mkSt ∅ two_groups)
     = then_run
         [Called (TabGroupsMove 7 1 TAB_POSITION_END) (Failure "rejected");
          Logged (FailedToMoveGroup 7 "rejected");
          Called (TabsMoveMany [22] 1 TAB_POSITION_END) (Failure "rejected");
          Logged (FailedToMoveTabs "rejected")]
         (migrateTabGroups browser
            [mkGrouped (mkGroup 8 2 "Play" red true) [mkTab 24 2 false 8]] 1)
         (mkSt ∅ two_groups)
  /\ fst (then_run
            [Called (TabGroupsMove 7 1 TAB_POSITION_END) (Failure "rejected");
             Logged (FailedToMoveGroup 7 "rejected");
             Called (TabsMoveMany [22] 1 TAB_POSITION_END) (Failure "rejected");
             Logged (FailedToMoveTabs "rejected")]
            (migrateTabGroups browser
               [mkGrouped (mkGroup 8 2 "Play" red true) [mkTab 24 2 false 8]] 1)
            (mkSt ∅ two_groups))
     = ([Called (TabGroupsMove 7 1 TAB_POSITION_END) (Failure "rejected");
         Logged (FailedToMoveGroup 7 "rejected");
         Called (TabsMoveMany [22] 1 TAB_POSITION_END) (Failure "rejected");
         Logged (FailedToMoveTabs "rejected");
         Called (TabGroupsMove 8 1 TAB_POSITION_END) Void],
        Resolved tt)
  /\ lookup_tab 22 (host (snd (then_run
            [Called (TabGroupsMove 7 1 TAB_POSITION_END) (Failure "rejected");
             Logged (FailedToMoveGroup 7 "rejected");
             Called (TabsMoveMany [22] 1 TAB_POSITION_END) (Failure "rejected");
             Logged (FailedToMoveTabs "rejected")]
            (migrateTabGroups browser
               [mkGrouped (mkGroup 8 2 "Play" red true) [mkTab 24 2 false 8]] 1)
            (mkSt ∅ two_groups))))
     = Some (mkTab 22 2 false 7)
  /\ lookup_tab 24 (host (snd (then_run
            [Called (TabGroupsMove 7 1 TAB_POSITION_END) (Failure "rejected");
             Logged (FailedToMoveGroup 7 "rejected");
             Called (TabsMoveMany [22] 1 TAB_POSITION_END) (Failure "rejected");
             Logged (FailedToMoveTabs "rejected")]
            (migrateTabGroups browser
               [mkGrouped (mkGroup 8 2 "Play" red true) [mkTab 24 2 false 8]] 1)
            (mkSt ∅ two_groups))))
     = Some (mkTab 24 1 false 8).
Proof.
  assert (H1 : [mkTab 22 2 false 7] <> []) by discriminate.
  assert (H2 : accepts two_groups (TabGroupsMove 7 1 TAB_POSITION_END) = false)
    by reflexivity.
  assert (H3 : accepts two_groups (TabsMoveMany [22] 1 TAB_POSITION_END) = false)
    by reflexivity.
  repeat (split; [assumption|]).
  split; [|split; [|split]; vm_compute; reflexivity].
  exact (proj2 C5_group_phase (mkGroup 7 2 "Work" blue false)
               [mkTab 22 2 false 7]
               [mkGrouped (mkGroup 8 2 "Play" red true) [mkTab 24 2 false 8]]
               1 (mkSt ∅ two_groups) H1 H2 H3).
Defined.

(** C6. Phase C never rejects.  With no tab identifiers it issues no
    request at all and changes nothing.  Otherwise it asks the host for the
    batch move of the whole collection to the end of the target window.  If
    the host resolves it, that is the only request and the state is the one
    the host returned.  If the host rejects it, and only then, the rejection
    is logged and each tab is moved on its own to the end of the target
    window, in order, every reply being the host's answer in the state the
    moves before it left, from the state the rejected batch move
    returned. *)
Theorem C6_ungrouped_phase :
  forall (S : Type) (H : Host S) (tabIds : list Z) (target : Z) (st : St S),
    (exists tr st',
        migrateTabs H tabIds target st = (tr, Resolved tt, st')
        /\ PhaseC target tabIds tr)
    /\ (tabIds = [] -> migrateTabs H tabIds target st = ([], Resolved tt, st))
    /\ (tabIds <> [] ->
        match tabs_move_many H tabIds target TAB_POSITION_END (host st) with
        | (Resolved _, h) =>
            migrateTabs H tabIds target st
            = ([Called (TabsMoveMany tabIds target TAB_POSITION_END) Void],
               Resolved tt, mkSt (pwaWindowIds st) h)
        | (Rejected e, h) =>
            exists rest st',
              migrateTabs H tabIds target st
              = (Called (TabsMoveMany tabIds target TAB_POSITION_END) (Failure e)
                 :: Logged (FailedToMoveTabs e) :: rest,
                 Resolved tt, st')
              /\ OneByOne target tabIds rest
              /\ single_moves rest
                 = map (fun t => (t, target, TAB_POSITION_END)) tabIds
              /\ coherent H h rest
              /\ host st' = after H h rest
              /\ pwaWindowIds st' = pwaWindowIds st
        end).
Proof.
  intros S H tabIds target st. split; [|split].
  - destruct (migrateTabs_shape H tabIds target st) as (tr & st' & E & Hs & _).
    eauto.
  - intros ->. reflexivity.
  - intros Hne. rewrite migrateTabs_run by exact Hne.
    destruct (tabs_move_many H tabIds target TAB_POSITION_END (host st))
      as [[u|e] h]; [reflexivity|].
    unfold then_run.
    destruct (one_by_one_shape H tabIds target (mkSt (pwaWindowIds st) h))
      as (rest & st' & E & Hone & Hp).
    destruct (sound_one_by_one H tabIds target _ _ _ _ E) as (Hco & Hs & _).
    rewrite E. exists rest, st'. split; [reflexivity|].
    split; [exact Hone|].
    split; [exact (one_by_one_single_moves _ _ _ Hone)|]. auto.
Qed.

(** C6 on [stubborn], which refuses batch moves: the batch move of tab 22
    is rejected and logged, the tab is then moved on its own and ends in
    window 1. *)
Lemma C6_witness :
  [22] <> []
  /\ exists rest st',
       migrateTabs browser [22] 1 (mkSt ∅ stubborn)
       = (Called (TabsMoveMany [22] 1 TAB_POSITION_END) (Failure "rejected")
          :: Logged (FailedToMoveTabs "rejected") :: rest,
          Resolved tt, st')
       /\ OneByOne 1 [22] rest
       /\ single_moves rest = map (fun t => (t, 1, TAB_POSITION_END)) [22]
       /\ coherent browser stubborn rest
       /\ host st' = after browser stubborn rest
       /\ pwaWindowIds st' = ∅.
Proof.
  assert (H1 : [22] <> []) by discriminate.
  split; [exact H1|].
  exact (proj2 (proj2 (C6_ungrouped_phase Browser browser [22] 1
                         (mkSt ∅ stubborn))) H1).
Defined.

(** C7. A merge first resolves its source windows and then handles them
    one after the other, in order: the trace of a window is complete before
    the first request for the next window, and the trace of a window that
    has tabs is its reads, then all of Phase A, then all of Phase B, then
    all of Phase C, each with its own shape and on its part of the
    classification.  Every reply in the trace is the host's answer in the
    state the requests before it left, and the final state is the one the
    trace leads to.  A rejected read ends the merge with one log entry,
    which carries the rejection of a rejected read; the merge itself never
    rejects. *)
Theorem C7_sequential_phases :
  forall (S : Type) (H : Host S) (target : Z) (st : St S),
    exists tr0 r0,
      getSourceWindows H target st = (tr0, r0, st)
      /\ coherent H (host st) tr0
      /\ match r0 with
         | Rejected e =>
             executeMerge H target st
             = (tr0 ++ [Logged (WindowMergeFailed e)], Resolved tt, st)
         | Resolved ws =>
             exists tr log st',
               executeMerge H target st = (tr0 ++ tr ++ log, Resolved tt, st')
               /\ coherent H (host st) tr
               /\ host st' = after H (host st) tr
               /\ pwaWindowIds st' = pwaWindowIds st
               /\ ((log = [] /\ WindowsRun target ws tr (Resolved tt))
                   \/ (exists e rq,
                          log = [Logged (WindowMergeFailed e)]
                          /\ mutating rq = false
                          /\ Called rq (Failure e) ∈ tr
                          /\ exists e0, WindowsRun target ws tr (Rejected e0)))
         end.
Proof.
  intros S H target st.
  destruct (executeMerge_run H target st) as (tr0 & r0 & E0 & Hrun).
  exists tr0, r0. split; [exact E0|].
  destruct (sound_getSourceWindows H target _ _ _ _ E0) as (Hco0 & Hs0 & _).
  split; [exact Hco0|].
  destruct r0 as [ws|e]; [|exact Hrun].
  destruct Hrun as (tr & r & st' & Hr & E).
  destruct (sound_executeMerge H target _ _ _ _ E) as (Hco & Hs & Hp).
  apply coherent_app in Hco as [_ Hco]. rewrite after_app in Hs.
  rewrite <- Hs0 in Hco, Hs.
  apply coherent_app in Hco as [Hco _]. rewrite after_app in Hs.
  exists tr, (match r with
              | Resolved _ => []
              | Rejected e => [Logged (WindowMergeFailed e)]
              end), st'.
  split; [exact E|]. split; [exact Hco|].
  destruct r as [[]|e].
  - split; [exact Hs|]. split; [exact Hp|]. left. auto.
  - split; [exact Hs|]. split; [exact Hp|]. right.
    destruct (run_rejected_read _ _ _ _ Hr) as (rq & Hm & Hin).
    exists e, rq. repeat split; auto. exists e. exact Hr.
Qed.

(** C7 on [demo] with [picky]: the merge into window 1 reads its source
    windows 2, 4 and 6, then handles window 2 to the end (its reads, the
    pinned tabs 20 and 21, group 7, the loose tab 23), then window 4, then
    the empty window 6. *)
Lemma C7_witness :
  executeMerge browser 1 (mkSt ∅ (demo picky))
  = ([Called (WindowsGet 1) (AWindow (mkWindow 1 false normal));
      Called (WindowsGetAll [normal])
             (Windows [mkWindow 1 false normal; mkWindow 2 false normal;
                       mkWindow 3 true normal; mkWindow 4 false normal;
                       mkWindow 6 false normal]);
      Called (TabsQuery 2 None)
             (Tabs [mkTab 20 2 true (-1); mkTab 21 2 true (-1);
                    mkTab 22 2 false 7; mkTab 23 2 false (-1)]);
      Called (TabGroupsQuery 2) (Groups [mkGroup 7 2 "Work" blue false]);
      Called (TabsQuery 2 (Some 7)) (Tabs [mkTab 22 2 false 7]);
      Called (TabsMove 20 1 0) (Failure "rejected");
      Logged (FailedToMoveTab 20 "rejected");
      Called (TabsMove 21 1 0) Void;
      Called (TabsUpdate 21 true) (Failure "rejected");
      Called (TabGroupsMove 7 1 (-1)) Void;
      Called (TabsMoveMany [23] 1 (-1)) Void;
      Called (TabsQuery 4 None) (Tabs [mkTab 40 4 false (-1)]);
      Called (TabGroupsQuery 4) (Groups []);
      Called (TabsMoveMany [40] 1 (-1)) Void;
      Called (TabsQuery 6 None) (Tabs [])],
     Resolved tt,
     snd (executeMerge browser 1 (mkSt ∅ (demo picky))))
  /\ lookup_tab 20 (host (snd (executeMerge browser 1 (mkSt ∅ (demo picky)))))
     = Some (mkTab 20 2 true (-1))
  /\ lookup_tab 23 (host (snd (executeMerge browser 1 (mkSt ∅ (demo picky)))))
     = Some (mkTab 23 1 false (-1))
  /\ lookup_tab 40 (host (snd (executeMerge browser 1 (mkSt ∅ (demo picky)))))
     = Some (mkTab 40 1 false (-1))
  /\ exists tr0 r0,
       getSourceWindows browser 1 (mkSt ∅ (demo picky))
       = (tr0, r0, mkSt ∅ (demo picky))
       /\ coherent browser (demo picky) tr0
       /\ match r0 with
          | Rejected e =>
              executeMerge browser 1 (mkSt ∅ (demo picky))
              = (tr0 ++ [Logged (WindowMergeFailed e)], Resolved tt,
                 mkSt ∅ (demo picky))
          | Resolved ws =>
              exists tr log st',
                executeMerge browser 1 (mkSt ∅ (demo picky))
                = (tr0 ++ tr ++ log, Resolved tt, st')
                /\ coherent browser (demo picky) tr
                /\ host st' = after browser (demo picky) tr
                /\ pwaWindowIds st' = ∅
                /\ ((log = [] /\ WindowsRun 1 ws tr (Resolved tt))
                    \/ (exists e rq,
                           log = [Logged (WindowMergeFailed e)]
                           /\ mutating rq = false
                           /\ Called rq (Failure e) ∈ tr
                           /\ exists e0, WindowsRun 1 ws tr (Rejected e0)))
          end.
Proof.
  repeat (split; [vm_compute; reflexivity|]).
  exact (C7_sequential_phases Browser browser 1 (mkSt ∅ (demo picky))).
Defined.

(** C8. Migrating a source window that has no tabs issues the one query
    for its tabs and nothing else: no mutating request appears in the trace,
    the migration returns normally and the script and host state are the
    ones it started from. *)
Theorem C8_empty_window_untouched :
  forall (S : Type) (H : Host S) (source target : Z) (st : St S),
    tabs_query H source None (host st) = Resolved [] ->
    migrateWindow H source target st
    = ([Called (TabsQuery source None) (Tabs [])], Resolved tt, st)
    /\ List.filter mutating_event
         (fst (fst (migrateWindow H source target st))) = [].
Proof.
  intros S H source target st Hq.
  assert (E : migrateWindow H source target st
              = ([Called (TabsQuery source None) (Tabs [])], Resolved tt, st)).
  { unfold migrateWindow, bind, chrome_tabs_query, read. simpl.
    rewrite Hq. reflexivity. }
  split; [exact E|]. rewrite E. reflexivity.
Qed.

(** C8 for the empty window 6 of [demo]. *)
Lemma C8_witness :
  tabs_query browser 6 None (demo willing) = Resolved []
  /\ migrateWindow browser 6 1 (mkSt ∅ (demo willing))
     = ([Called (TabsQuery 6 None) (Tabs [])], Resolved tt, mkSt ∅ (demo willing)).
Proof.
  split; [reflexivity|].
  apply (C8_empty_window_untouched Browser browser 6 1 (mkSt ∅ (demo willing))).
  reflexivity.
Defined.

(** C9. Marking a window excluded is an idempotent insert: handling the
    same detection notification a second time leaves the whole script state
    as the first handling left it, for every notification, sender and prior
    state; the listener's only result is that state, in which the registry
    is the old one with the sender's window added. *)
Theorem C9_markExcluded_idempotent :
  forall (S : Type) (st : St S) (message : Message) (sender : MessageSender),
    onMessage message sender (onMessage message sender st)
    = onMessage message sender st
    /\ forall (tab : Tab) (url : string),
         let mark := onMessage (S := S) (mkMessage "PWA_DETECTED" url)
                               (mkSender (Some tab)) in
         pwaWindowIds (mark st) = {[tab_windowId tab]} ∪ pwaWindowIds st
         /\ host (mark st) = host st
         /\ pwaWindowIds (mark (mark st)) = pwaWindowIds (mark st).
Proof.
  intros S st message sender. split.
  - unfold onMessage.
    destruct (bool_decide (msg_type message = "PWA_DETECTED"%string));
      [|reflexivity].
    destruct (sender_tab sender) as [tab|]; [|reflexivity].
    simpl. f_equal. rewrite (assoc_L (∪)), (idemp_L (∪)). reflexivity.
  - intros tab url mark. unfold mark, onMessage. simpl.
    repeat split. rewrite (assoc_L (∪)), (idemp_L (∪)). reflexivity.
Qed.

(** * Further properties of the script *)

(** ** The registry and its listeners *)

(** X1. After the message listener has run, a window is in the registry
    exactly when it was there before or the message has the type tag
    [PWA_DETECTED] and comes from a tab of that window; a message with
    another tag, or from a sender that is not a tab, changes nothing. *)
Theorem X1_onMessage_registry :
  forall (S : Type) (st : St S) (message : Message) (sender : MessageSender),
    (forall w,
        w ∈ pwaWindowIds (onMessage message sender st) <->
        w ∈ pwaWindowIds st
        \/ (msg_type message = "PWA_DETECTED"%string
            /\ exists tab, sender_tab sender = Some tab /\ tab_windowId tab = w))
    /\ host (onMessage message sender st) = host st
    /\ (msg_type message <> "PWA_DETECTED"%string \/ sender_tab sender = None ->
        onMessage message sender st = st).
Proof.
  intros S st message sender. unfold onMessage.
  destruct (bool_decide (msg_type message = "PWA_DETECTED"%string)) eqn:E.
  - apply bool_decide_eq_true in E.
    destruct (sender_tab sender) as [tab|] eqn:Es; simpl.
    + split; [|split; [reflexivity|]].
      * intros w. rewrite elem_of_union, elem_of_singleton. split.
        -- intros [->|Hw]; [right|left; exact Hw]. split; [exact E|]. eauto.
        -- intros [Hw|(_ & tab' & [= <-] & <-)]; auto.
      * intros [Hne|Hn]; [contradiction|discriminate].
    + split; [|split; [reflexivity|reflexivity]].
      intros w. split; [auto|].
      intros [Hw|(_ & tab' & Hn & _)]; [exact Hw|discriminate].
  - apply bool_decide_eq_false in E. split; [|split; [reflexivity|reflexivity]].
    intros w. split; [auto|]. intros [Hw|(Ht & _)]; [exact Hw|contradiction].
Qed.

(** X2. Closing a window removes exactly that window from the registry;
    doing so twice is doing it once; and a window that was marked and then
    closed is gone from the registry, which is back to what it was if the
    window had not been in it. *)
Theorem X2_onRemoved_registry :
  forall (S : Type) (st : St S) (windowId : Z),
    (forall w,
        w ∈ pwaWindowIds (onRemoved windowId st) <->
        w ∈ pwaWindowIds st /\ w <> windowId)
    /\ onRemoved windowId (onRemoved windowId st) = onRemoved windowId st
    /\ (forall tab url,
           tab_windowId tab = windowId ->
           onRemoved windowId
             (onMessage (mkMessage "PWA_DETECTED" url) (mkSender (Some tab)) st)
           = onRemoved windowId st)
    /\ (windowId ∉ pwaWindowIds st ->
        pwaWindowIds (onRemoved windowId st) = pwaWindowIds st).
Proof.
  intros S st windowId. unfold onRemoved. simpl. repeat split.
  - apply elem_of_difference in H as [Hw _]. exact Hw.
  - apply elem_of_difference in H as [_ Hw].
    rewrite elem_of_singleton in Hw. exact Hw.
  - intros [Hw Hne]. apply elem_of_difference. split; [exact Hw|].
    rewrite elem_of_singleton. exact Hne.
  - f_equal. apply set_eq. intros w.
    rewrite !elem_of_difference, elem_of_singleton. tauto.
  - intros tab url <-. unfold onMessage. simpl. f_equal. apply set_eq.
    intros w. rewrite !elem_of_difference, elem_of_union, !elem_of_singleton.
    tauto.
  - intros Hout. apply set_eq. intros w.
    rewrite elem_of_difference, elem_of_singleton. split; [tauto|].
    intros Hw. split; [exact Hw|]. intros ->. contradiction.
Qed.

(** A page in a tab of window 4 reports itself, then window 4 closes. *)
Lemma X2_witness :
  tab_windowId (mkTab 40 4 false (-1)) = 4
  /\ onRemoved 4
       (onMessage (mkMessage "PWA_DETECTED" "https://app.example/")
                  (mkSender (Some (mkTab 40 4 false (-1))))
                  (mkSt {[5]} (demo willing)))
     = onRemoved 4 (mkSt {[5]} (demo willing)).
Proof.
  split; [reflexivity|].
  exact (proj1 (proj2 (proj2 (X2_onRemoved_registry Browser
                                (mkSt {[5]} (demo willing)) 4)))
               (mkTab 40 4 false (-1)) "https://app.example/"%string eq_refl).
Defined.

(** A message from an extension page (no sender tab) is ignored. *)
Lemma X1_witness :
  (msg_type (mkMessage "PWA_DETECTED" "u") <> "PWA_DETECTED"%string
   \/ sender_tab (mkSender None) = None)
  /\ onMessage (mkMessage "PWA_DETECTED" "u") (mkSender None)
               (mkSt {[5]} (demo willing))
     = mkSt {[5]} (demo willing).
Proof.
  assert (H : msg_type (mkMessage "PWA_DETECTED" "u") <> "PWA_DETECTED"%string
              \/ sender_tab (mkSender None) = None) by (right; reflexivity).
  split; [exact H|].
  exact (proj2 (proj2 (X1_onMessage_registry Browser (mkSt {[5]} (demo willing))
                         (mkMessage "PWA_DETECTED" "u") (mkSender None))) H).
Defined.

(** ** The content script and the listener *)

Lemma isPWAMode_true matchMedia :
  isPWAMode matchMedia = true <->
  exists mode, mode ∈ PWA_DISPLAY_MODES
               /\ matchMedia (display_mode_query mode) = true.
Proof.
  unfold isPWAMode. rewrite existsb_exists. split.
  - intros (mode & Hin & Hm). exists mode. rewrite list_elem_of_In. auto.
  - intros (mode & Hin & Hm). exists mode. rewrite <- list_elem_of_In. auto.
Qed.

(** X3. The page sends a message exactly when it matches one of the four
    display modes, and what it sends is a message the background listener
    acts on: once a page loaded in a tab has run the probe and its message
    (if any) is delivered, a window is in the registry exactly when it was
    there before or it is that tab's window and the page matched one of the
    modes.  A page that matches none of them changes nothing. *)
Theorem X3_probe_marks_window :
  forall (S : Type) (st : St S) (matchMedia : string -> bool) (href : string)
         (tab : Tab),
    (notifyPWAStatus matchMedia href <> None <->
     exists mode, mode ∈ PWA_DISPLAY_MODES
                  /\ matchMedia (display_mode_query mode) = true)
    /\ (forall w,
           w ∈ pwaWindowIds
                 (deliver (notifyPWAStatus matchMedia href)
                          (mkSender (Some tab)) st) <->
           w ∈ pwaWindowIds st
           \/ (w = tab_windowId tab
               /\ exists mode, mode ∈ PWA_DISPLAY_MODES
                               /\ matchMedia (display_mode_query mode) = true))
    /\ ((forall mode, mode ∈ PWA_DISPLAY_MODES ->
                      matchMedia (display_mode_query mode) = false) ->
        deliver (notifyPWAStatus matchMedia href) (mkSender (Some tab)) st = st).
Proof.
  intros S st matchMedia href tab. unfold notifyPWAStatus.
  pose proof (isPWAMode_true matchMedia) as Hiff.
  destruct (isPWAMode matchMedia) eqn:E.
  - assert (Hex : exists mode, mode ∈ PWA_DISPLAY_MODES
                               /\ matchMedia (display_mode_query mode) = true)
      by (apply Hiff; reflexivity).
    split; [split; [intros _; exact Hex|discriminate]|]. split.
    + intros w. simpl. unfold onMessage. simpl.
      rewrite elem_of_union, elem_of_singleton. split.
      * intros [->|Hw]; auto.
      * intros [Hw|[-> _]]; auto.
    + intros Hnone. destruct Hex as (mode & Hin & Hm).
      rewrite (Hnone mode Hin) in Hm. discriminate.
  - assert (Hno : ~ exists mode, mode ∈ PWA_DISPLAY_MODES
                                 /\ matchMedia (display_mode_query mode) = true).
    { intros Hex. apply Hiff in Hex. discriminate. }
    split; [split; [intros Hn; contradiction|intros Hex; contradiction]|].
    split; [|reflexivity].
    intros w. simpl. split; [auto|]. intros [Hw|[_ Hex]]; [exact Hw|contradiction].
Qed.

(** An ordinary browser page matches none of the four modes. *)
Lemma X3_witness :
  (forall mode, mode ∈ PWA_DISPLAY_MODES ->
                browser_page (display_mode_query mode) = false)
  /\ deliver (notifyPWAStatus browser_page "https://example.org/")
             (mkSender (Some (mkTab 23 2 false (-1))))
             (mkSt ∅ (demo willing))
     = mkSt ∅ (demo willing).
Proof.
  assert (H : forall mode, mode ∈ PWA_DISPLAY_MODES ->
                           browser_page (display_mode_query mode) = false).
  { intros mode Hin. each_elem Hin; reflexivity. }
  split; [exact H|].
  exact (proj2 (proj2 (X3_probe_marks_window Browser (mkSt ∅ (demo willing))
                         browser_page "https://example.org/"%string
                         (mkTab 23 2 false (-1)))) H).
Defined.

(** ** What the traces of a merge contain *)

Ltac phase_events :=
  repeat (constructor; [simpl; auto|]); try constructor; auto.

Section PhaseEvents.
Variable target : Z.

Lemma phaseA_phase_events tabs tr :
  PhaseA target tabs tr -> Forall (phase_event target) tr.
Proof.
  induction 1; phase_events.
Qed.

Lemma group_step_phase_events group tabs tr :
  GroupStep target group tabs tr -> Forall (phase_event target) tr.
Proof.
  destruct 1; phase_events.
Qed.

Lemma phaseB_phase_events gs tr :
  PhaseB target gs tr -> Forall (phase_event target) tr.
Proof.
  induction 1 as [| |g gs t1 tr _ Hstep _ IH]; [constructor|assumption|].
  apply Forall_app. split; [|exact IH].
  eapply group_step_phase_events; eauto.
Qed.

Lemma one_by_one_phase_events xs tr :
  OneByOne target xs tr -> Forall (phase_event target) tr.
Proof.
  induction 1; phase_events.
Qed.

Lemma phaseC_phase_events xs tr :
  PhaseC target xs tr -> Forall (phase_event target) tr.
Proof.
  destruct 1 as [|Hne|e rest Hne Hone]; phase_events.
  eapply one_by_one_phase_events; eauto.
Qed.

Lemma phase_event_to_target ev :
  phase_event target ev -> event_to_target target ev.
Proof. destruct ev as [r a|m]; simpl; [tauto|auto]. Qed.

Lemma phase_event_calm ev :
  phase_event target ev -> read_rejected ev = false /\ merge_failed ev = false.
Proof.
  destruct ev as [r a|m]; simpl.
  - intros [Hm _]. rewrite Hm. destruct a; auto.
  - destruct m; intros Hp; try contradiction; auto.
Qed.

Lemma window_reads_app t1 t2 :
  window_reads (t1 ++ t2) = window_reads t1 ++ window_reads t2.
Proof. apply omap_app. Qed.

Lemma window_reads_cons ev tr :
  window_reads (ev :: tr) = window_reads [ev] ++ window_reads tr.
Proof. apply (window_reads_app [ev] tr). Qed.

Lemma phase_events_window_reads tr :
  Forall (phase_event target) tr -> window_reads tr = [].
Proof.
  induction 1 as [|ev tr Hev _ IH]; [reflexivity|].
  rewrite window_reads_cons, IH.
  destruct ev as [r a|m]; [|reflexivity].
  destruct Hev as [Hm _]. destruct r; try discriminate; reflexivity.
Qed.

Lemma classify_events_reads w grouped :
  Forall (fun ev => event_to_target target ev
                    /\ read_rejected ev = false /\ merge_failed ev = false)
         (classify_events w grouped)
  /\ window_reads (classify_events w grouped) = [].
Proof.
  unfold classify_events, window_reads. split.
  - constructor; [simpl; auto|]. apply Forall_forall. intros ev Hev.
    apply list_elem_of_fmap in Hev as (g & -> & _). simpl. auto.
  - fold (window_reads (classify_events w grouped)). unfold classify_events.
    rewrite window_reads_cons. simpl.
    induction grouped as [|g gs IH]; [reflexivity|].
    cbn [List.map]. rewrite window_reads_cons. exact IH.
Qed.

(** A window handled to the end: its one query, then quiet events. *)
Lemma window_done_contents source tr :
  WindowDone target source tr ->
  Forall (event_to_target target) tr
  /\ Forall (fun ev => read_rejected ev = false /\ merge_failed ev = false) tr
  /\ window_reads tr = [source].
Proof.
  intros [|tabs grouped trA trB trC Hne HA HB HC].
  { repeat split; repeat constructor. }
  apply phaseA_phase_events in HA. apply phaseB_phase_events in HB.
  apply phaseC_phase_events in HC.
  assert (Hp : Forall (phase_event target) (trA ++ trB ++ trC)).
  { rewrite !Forall_app. auto. }
  destruct (classify_events_reads source grouped) as [Hc Hr].
  split; [|split].
  - constructor; [exact Logic.I|]. apply Forall_app. split.
    + eapply Forall_impl; [exact Hc|]. simpl. tauto.
    + eapply Forall_impl; [exact Hp|]. apply phase_event_to_target.
  - constructor; [auto|]. apply Forall_app. split.
    + eapply Forall_impl; [exact Hc|]. simpl. tauto.
    + eapply Forall_impl; [exact Hp|]. apply phase_event_calm.
  - rewrite window_reads_cons, window_reads_app, Hr.
    rewrite (phase_events_window_reads _ Hp). reflexivity.
Qed.

Lemma gather_rejected reads e :
  gather reads = Rejected e ->
  exists g e', (g, Rejected e') ∈ reads.
Proof.
  revert e. induction reads as [|[g r] reads IH]; intros e; simpl;
    [discriminate|].
  destruct r as [ts|e'].
  - destruct (gather reads) as [gs|e'']; [discriminate|].
    intros _. destruct (IH e'' eq_refl) as (g' & e' & Hin).
    exists g', e'. constructor. exact Hin.
  - intros _. exists g, e'. constructor.
Qed.

(** A window whose reads were rejected: reads only, one of them rejected. *)
Lemma window_aborted_contents source tr e :
  WindowAborted source tr e ->
  Forall (fun ev => mutating_event ev = false /\ merge_failed ev = false) tr
  /\ existsb read_rejected tr = true
  /\ window_reads tr = [source].
Proof.
  intros [e0|tabs e0 Hne|tabs reads e0 Hne Hg].
  - repeat split; repeat constructor.
  - repeat split; repeat constructor.
  - split; [|split].
    + constructor; [auto|]. constructor; [auto|].
      apply Forall_forall. intros ev Hev. unfold read_events in Hev.
      apply list_elem_of_fmap in Hev as ([g r] & -> & _). simpl. auto.
    + simpl. apply gather_rejected in Hg as (g & e' & Hin).
      apply existsb_exists.
      exists (Called (TabsQuery source (Some (group_id g))) (Failure e')).
      split; [|reflexivity]. apply list_elem_of_In. unfold read_events.
      apply list_elem_of_fmap. exists (g, Rejected e'). auto.
    + rewrite window_reads_cons, window_reads_cons. simpl. f_equal.
      clear. induction reads as [|[g r] reads IH]; [reflexivity|].
      unfold read_events. cbn [List.map]. rewrite window_reads_cons. exact IH.
Qed.

Lemma mutating_false_to_target ev :
  mutating_event ev = false -> event_to_target target ev.
Proof.
  destruct ev as [r a|m]; simpl; [|auto].
  intros Hm. destruct r; try discriminate Hm; exact Logic.I.
Qed.

(** The source windows one after the other. *)
Lemma windows_run_contents ws tr r :
  WindowsRun target ws tr r ->
  Forall (event_to_target target) tr
  /\ Forall (fun ev => merge_failed ev = false) tr
  /\ existsb read_rejected tr = match r with Resolved _ => false | Rejected _ => true end
  /\ (forall w, w ∈ window_reads tr -> w ∈ map win_id ws).
Proof.
  induction 1 as [|w ws t1 tr r Hd _ IH|w ws t1 e Ha].
  - repeat split; try constructor. intros w Hw. inversion Hw.
  - destruct (window_done_contents _ _ Hd) as (D1 & D2 & D3).
    destruct IH as (I1 & I2 & I3 & I4).
    rewrite !Forall_app, existsb_app. split; [auto|]. split; [|split].
    + split; [|exact I2]. eapply Forall_impl; [exact D2|]. simpl. tauto.
    + rewrite I3. replace (existsb read_rejected t1) with false; [reflexivity|].
      symmetry. apply not_true_is_false. intros Hex.
      apply existsb_exists in Hex as (ev & Hin & Hev).
      rewrite Forall_forall in D2. apply list_elem_of_In in Hin.
      destruct (D2 ev Hin) as [Hr _]. congruence.
    + intros w' Hw'. rewrite window_reads_app in Hw'.
      apply elem_of_app in Hw' as [Hw'|Hw'].
      * rewrite D3 in Hw'.
        apply list_elem_of_singleton in Hw'. subst w'. simpl. constructor.
      * simpl. constructor. apply I4. exact Hw'.
  - destruct (window_aborted_contents _ _ _ Ha) as (A1 & A2 & A3).
    split; [|split; [|split]].
    + eapply Forall_impl; [exact A1|]. simpl. intros ev [Hm _].
      apply mutating_false_to_target. exact Hm.
    + eapply Forall_impl; [exact A1|]. simpl. tauto.
    + exact A2.
    + intros w' Hw'. rewrite A3 in Hw'. apply list_elem_of_singleton in Hw'.
      subst w'. simpl. constructor.
Qed.

End PhaseEvents.

(** The requests of a merge name the target and no other window. *)
Lemma merge_events_to_target :
  forall (S : Type) (H : Host S) (target : Z) (st : St S),
    Forall (event_to_target target) (fst (fst (executeMerge H target st))).
Proof.
  intros S H target st.
  destruct (executeMerge_run H target st) as (tr0 & r0 & E0 & Hrun).
  assert (H0 : Forall (event_to_target target) tr0).
  { rewrite getSourceWindows_run in E0.
    destruct (windows_get H target (host st)) as [T|e];
      [destruct (windows_getAll H [normal] (host st)) as [all|e]|];
      injection E0 as <- _; repeat constructor. }
  destruct r0 as [ws|e].
  - destruct Hrun as (tr & r & st' & Hr & ->). simpl.
    destruct (windows_run_contents target _ _ _ Hr) as (Ht & _).
    rewrite !Forall_app. split; [exact H0|]. split; [exact Ht|].
    destruct r; repeat constructor.
  - rewrite Hrun. simpl. rewrite Forall_app. split; [exact H0|].
    repeat constructor.
Qed.

(** X4. Whatever the host answers, every request of a merge that moves a
    tab, a batch of tabs or a group, or that creates a group, names the
    target window; a single tab goes to the start or to the end, a batch or
    a group to the end; and the pinned flag is only ever set, never
    cleared. *)
Theorem X4_requests_to_target :
  forall (S : Type) (H : Host S) (target : Z) (st : St S),
    Forall (event_to_target target) (fst (fst (executeMerge H target st))).
Proof. exact merge_events_to_target. Qed.

(** X5. A merge begins the migration of a window (queries its tabs) only
    if that window is neither the target nor in the registry, and it leaves
    the registry as it found it.  So once a page in a tab has been reported
    as an app, no merge, into any target and on any host, touches that
    tab's window. *)
Theorem X5_excluded_never_migrated :
  forall (S : Type) (H : Host S) (target : Z) (st : St S),
    (forall w, w ∈ window_reads (fst (fst (executeMerge H target st))) ->
               w <> target /\ w ∉ pwaWindowIds st)
    /\ pwaWindowIds (snd (executeMerge H target st)) = pwaWindowIds st
    /\ (forall (url : string) (tab : Tab),
           tab_windowId tab
           ∉ window_reads
               (fst (fst (executeMerge H target
                    (onMessage (mkMessage "PWA_DETECTED" url)
                               (mkSender (Some tab)) st))))).
Proof.
  intros S H target st.
  assert (G : forall st0 : St S,
             forall w, w ∈ window_reads (fst (fst (executeMerge H target st0))) ->
                       w <> target /\ w ∉ pwaWindowIds st0).
  { intros st0 w Hw.
    destruct (executeMerge_run H target st0) as (tr0 & r0 & E0 & Hrun).
    rewrite getSourceWindows_run in E0.
    destruct (windows_get H target (host st0)) as [T|e].
    2:{ injection E0 as <- <-. rewrite Hrun in Hw. simpl in Hw. inversion Hw. }
    destruct (windows_getAll H [normal] (host st0)) as [all|e].
    2:{ injection E0 as <- <-. rewrite Hrun in Hw. simpl in Hw. inversion Hw. }
    injection E0 as <- <-. destruct Hrun as (tr & r & st' & Hr & Erun).
    rewrite Erun in Hw. cbn [fst] in Hw.
    rewrite !window_reads_app in Hw.
    apply elem_of_app in Hw as [Hw|Hw]; [inversion Hw|].
    apply elem_of_app in Hw as [Hw|Hw].
    2:{ destruct r; inversion Hw. }
    destruct (windows_run_contents target _ _ _ Hr) as (_ & _ & _ & Hsub).
    apply Hsub in Hw. apply list_elem_of_fmap in Hw as (x & -> & Hx).
    apply elem_of_lfilter in Hx as [_ Hc].
    rewrite !andb_true_iff, !negb_true_iff, Z.eqb_neq, bool_decide_eq_false in Hc.
    tauto. }
  split; [apply G|]. split.
  - destruct (executeMerge H target st) as [[tr r] st'] eqn:E.
    destruct (sound_executeMerge H target _ _ _ _ E) as (_ & _ & Hp). exact Hp.
  - intros url tab Hin. apply G in Hin as [_ Hout]. apply Hout.
    unfold onMessage. simpl. apply elem_of_union. left.
    apply elem_of_singleton. reflexivity.
Qed.

(** X6. A merge never rejects.  It logs "Window merge failed" exactly when
    one of its reads (get window, list windows, query tabs, query groups)
    was rejected; it does so at most once, and nothing follows that entry.
    Rejected moves, pin updates and group operations never abort it. *)
Theorem X6_merge_failure_log :
  forall (S : Type) (H : Host S) (target : Z) (st : St S),
    snd (fst (executeMerge H target st)) = Resolved tt
    /\ existsb merge_failed (fst (fst (executeMerge H target st)))
       = existsb read_rejected (fst (fst (executeMerge H target st)))
    /\ (length (List.filter merge_failed (fst (fst (executeMerge H target st))))
        <= 1)%nat
    /\ (forall e,
           Logged (WindowMergeFailed e) ∈ fst (fst (executeMerge H target st)) ->
           last (fst (fst (executeMerge H target st)))
           = Some (Logged (WindowMergeFailed e))).
Proof.
  intros S H target st.
  destruct (executeMerge_run H target st) as (tr0 & r0 & E0 & Hrun).
  assert (Hquiet : forall tr, Forall (fun ev => merge_failed ev = false) tr ->
                              List.filter merge_failed tr = []
                              /\ existsb merge_failed tr = false
                              /\ forall e, Logged (WindowMergeFailed e) ∉ tr).
  { clear. intros tr Hf. rewrite Forall_forall in Hf. split; [|split].
    - apply lfilter_none. exact Hf.
    - apply not_true_is_false. intros Hex.
      apply existsb_exists in Hex as (ev & Hin & Hev).
      apply list_elem_of_In in Hin. rewrite (Hf ev Hin) in Hev. discriminate.
    - intros e Hin. specialize (Hf _ Hin). discriminate. }
  rewrite getSourceWindows_run in E0.
  destruct (windows_get H target (host st)) as [T|e].
  2:{ injection E0 as <- <-. rewrite Hrun. simpl. repeat split; auto.
      intros e' Hin. rewrite !elem_of_cons in Hin.
      destruct Hin as [Hin|[Hin|Hin]]; [discriminate|congruence|inversion Hin]. }
  destruct (windows_getAll H [normal] (host st)) as [all|e].
  2:{ injection E0 as <- <-. rewrite Hrun. simpl. repeat split; auto.
      intros e' Hin. rewrite !elem_of_cons in Hin.
      destruct Hin as [Hin|[Hin|[Hin|Hin]]];
        [discriminate|discriminate|congruence|inversion Hin]. }
  injection E0 as <- <-. destruct Hrun as (tr & r & st' & Hr & ->). simpl.
  destruct (windows_run_contents target _ _ _ Hr) as (_ & Hm & Hrej & _).
  destruct (Hquiet tr Hm) as (Hf & Hex & Hnot).
  split; [reflexivity|].
  rewrite !existsb_app, List.filter_app, Hex, Hrej, Hf.
  destruct r as [[]|e]; simpl.
  - split; [reflexivity|]. split; [lia|].
    intros e Hin. rewrite !elem_of_cons, app_nil_r in Hin.
    destruct Hin as [Hin|[Hin|Hin]]; [discriminate|discriminate|].
    exfalso. exact (Hnot e Hin).
  - split; [reflexivity|]. split; [lia|].
    intros e' Hin. rewrite !elem_of_cons, elem_of_app in Hin.
    destruct Hin as [Hin|[Hin|[Hin|Hin]]]; [discriminate|discriminate| |].
    + exfalso. exact (Hnot e' Hin).
    + apply list_elem_of_singleton in Hin. injection Hin as ->.
      exact (last_snoc (Logged (WindowMergeFailed e))
                       (Called (WindowsGet target) (AWindow T)
                        :: Called (WindowsGetAll [normal]) (Windows all) :: tr)).
Qed.

(** X7. The classifier only reads: it issues the query for the window's
    groups and then, if that resolved, one query for the tabs of each listed
    group, in the host's order and whether or not an earlier one was
    rejected; it issues no mutating request and, resolved or rejected,
    leaves the state as it was. *)
Theorem X7_classifier_reads_only :
  forall (S : Type) (H : Host S) (tabs : list Tab) (w : Z) (st : St S),
    snd (classifyTabs H tabs w st) = st
    /\ requests (fst (fst (classifyTabs H tabs w st)))
       = TabGroupsQuery w
         :: match tabGroups_query H w (host st) with
            | Resolved groups =>
                map (fun g => TabsQuery w (Some (group_id g))) groups
            | Rejected _ => []
            end
    /\ Forall (fun ev => mutating_event ev = false)
              (fst (fst (classifyTabs H tabs w st))).
Proof.
  intros S H tabs w st. rewrite classifyTabs_run.
  destruct (tabGroups_query H w (host st)) as [groups|e]; simpl.
  2:{ repeat split. repeat constructor. }
  split; [reflexivity|]. split.
  - f_equal. unfold requests, read_events, group_reads.
    induction groups as [|g groups IH]; [reflexivity|]. simpl. f_equal. exact IH.
  - constructor; [reflexivity|]. apply Forall_forall. intros ev Hev.
    unfold read_events in Hev.
    apply list_elem_of_fmap in Hev as ([g r] & -> & _). reflexivity.
Qed.

(** X8. The keyboard shortcut does what the toolbar button does.  A command
    other than "merge-windows" issues no request and changes nothing; the
    command "merge-windows" merges into the window of the first tab the
    active-tab query answers with, exactly as a click in that window would;
    with no such tab nothing is done, and the listener rejects only if that
    query does.  The registry is never changed. *)
Theorem X8_shortcut_as_button :
  forall (S : Type) (H : Host S) (active : S -> Result (list Tab))
         (command : string) (st : St S),
    (command <> "merge-windows"%string ->
     onCommand H active command st = ([], Resolved tt, st))
    /\ (command = "merge-windows"%string ->
        onCommand H active command st
        = match active (host st) with
          | Resolved (tab :: _) => onClicked H (tab_windowId tab) st
          | Resolved [] => ([], Resolved tt, st)
          | Rejected e => ([], Rejected e, st)
          end)
    /\ pwaWindowIds (snd (onCommand H active command st)) = pwaWindowIds st.
Proof.
  intros S H active command st.
  assert (Hoff : command <> "merge-windows"%string ->
                 onCommand H active command st = ([], Resolved tt, st)).
  { intros Hne. unfold onCommand, COMMANDS_MERGE_WINDOWS.
    rewrite bool_decide_eq_false_2 by exact Hne. reflexivity. }
  assert (Hon : command = "merge-windows"%string ->
                onCommand H active command st
                = match active (host st) with
                  | Resolved (tab :: _) => onClicked H (tab_windowId tab) st
                  | Resolved [] => ([], Resolved tt, st)
                  | Rejected e => ([], Rejected e, st)
                  end).
  { intros ->. unfold onCommand, COMMANDS_MERGE_WINDOWS, onClicked.
    rewrite bool_decide_eq_true_2 by reflexivity. unfold bind.
    destruct (active (host st)) as [[|tab tabs]|e]; try reflexivity.
    destruct (executeMerge H (tab_windowId tab) st) as [[tr r] st']. reflexivity. }
  split; [exact Hoff|]. split; [exact Hon|].
  destruct (decide (command = "merge-windows"%string)) as [Heq|Hne].
  - rewrite (Hon Heq).
    destruct (active (host st)) as [[|tab tabs]|e]; try reflexivity.
    unfold onClicked.
    destruct (executeMerge H (tab_windowId tab) st) as [[tr r] st'] eqn:E.
    destruct (sound_executeMerge H _ _ _ _ _ E) as (_ & _ & Hp). exact Hp.
  - rewrite (Hoff Hne). reflexivity.
Qed.

(** ** Tabs drift towards the target only *)

Section Drift.
Variable target : Z.

Lemma linked_refl t : linked target t t.
Proof. split; [reflexivity|]. right. split; reflexivity. Qed.

Lemma linked_trans t1 t2 t3 :
  linked target t1 t2 -> linked target t2 t3 -> linked target t1 t3.
Proof.
  unfold linked. intros (I1 & H1) (I2 & H2). split; [congruence|].
  destruct H2 as [H2|[W2 G2]]; [left; exact H2|].
  destruct H1 as [H1|[W1 G1]]; [left; congruence|right; split; congruence].
Qed.

Lemma drift_refl l : drift target l l.
Proof.
  split; intros t Ht; exists t; split; auto using linked_refl.
Qed.

Lemma drift_trans l1 l2 l3 :
  drift target l1 l2 -> drift target l2 l3 -> drift target l1 l3.
Proof.
  intros [B1 F1] [B2 F2]. split.
  - intros t3 H3. destruct (B2 _ H3) as (t2 & H2 & L2).
    destruct (B1 _ H2) as (t1 & H1 & L1).
    exists t1. split; [exact H1|]. eapply linked_trans; eauto.
  - intros t1 H1. destruct (F1 _ H1) as (t2 & H2 & L1).
    destruct (F2 _ H2) as (t3 & H3 & L2).
    exists t3. split; [exact H3|]. eapply linked_trans; eauto.
Qed.

Lemma drift_map (f : Tab -> Tab) l :
  (forall t, linked target t (f t)) -> drift target l (map f l).
Proof.
  intros Hf. split.
  - intros t' Ht'. apply list_elem_of_fmap in Ht' as (t & -> & Ht).
    exists t. auto.
  - intros t Ht. exists (f t). split; [|apply Hf].
    apply list_elem_of_fmap. exists t. auto.
Qed.

Lemma linked_arrive t : linked target t (arrive target t).
Proof.
  unfold arrive. destruct (tab_windowId t =? target); [apply linked_refl|].
  split; [reflexivity|]. left. reflexivity.
Qed.

Lemma drift_move_tab x i l : drift target l (move_tab x target i l).
Proof.
  split.
  - intros t' Ht'. apply elem_of_move_tab_inv in Ht' as [(t & Ht & _ & ->)|[Ht' _]].
    + exists t. split; [exact Ht|apply linked_arrive].
    + exists t'. split; [exact Ht'|apply linked_refl].
  - intros t Ht. destruct (decide (tab_id t = x)) as [E|E].
    + exists (arrive target t). split; [|apply linked_arrive].
      apply elem_of_move_tab_inv. left. exists t. auto.
    + exists t. split; [|apply linked_refl].
      apply elem_of_move_tab_inv. right. auto.
Qed.

Lemma drift_move_tabs xs i l : drift target l (move_tabs xs target i l).
Proof.
  revert i l. induction xs as [|x xs IH]; intros i l; simpl.
  - apply drift_refl.
  - eapply drift_trans; [apply drift_move_tab|apply IH].
Qed.

Lemma drift_move_group g i l : drift target l (move_group_tabs g target i l).
Proof.
  assert (L : forall t, linked target t (with_window target t)).
  { intros t. split; [reflexivity|]. left. reflexivity. }
  split.
  - intros t' Ht'.
    apply elem_of_move_group_tabs in Ht' as [(t & Ht & _ & ->)|[Ht' _]].
    + exists t. auto.
    + exists t'. split; [exact Ht'|apply linked_refl].
  - intros t Ht. destruct (decide (tab_groupId t = g)) as [E|E].
    + exists (with_window target t). split; [|apply L].
      apply elem_of_move_group_tabs. left. exists t. auto.
    + exists t. split; [|apply linked_refl].
      apply elem_of_move_group_tabs. right. auto.
Qed.

(** A request of the merge, if the host carries it out, brings tabs to the
    target and nowhere else. *)
Lemma drift_effect r b :
  to_target target r -> drift target (b_tabs b) (b_tabs (effect r b)).
Proof.
  destruct r as [w|tys|w g|w|x w i|xs w i|g w i|x p|xs w|g title color collapsed];
    simpl; intros Hr; try apply drift_refl.
  - destruct Hr as [-> _]. apply drift_move_tab.
  - destruct Hr as [-> _]. apply drift_move_tabs.
  - destruct Hr as [-> _]. apply drift_move_group.
  - apply drift_map. intros t. destruct (tab_id t =? x); [|apply linked_refl].
    split; [reflexivity|]. right. split; reflexivity.
  - subst w. apply drift_map. intros t.
    destruct (bool_decide (tab_id t ∈ xs)); [|apply linked_refl].
    split; [reflexivity|]. left. reflexivity.
Qed.

Lemma drift_next r b :
  to_target target r -> drift target (b_tabs b) (b_tabs (browser_next b r)).
Proof.
  intros Hr. unfold browser_next.
  destruct (accepts b r); [apply drift_effect; exact Hr|apply drift_refl].
Qed.

Lemma drift_after tr b :
  Forall (event_to_target target) tr ->
  drift target (b_tabs b) (b_tabs (after browser b tr)).
Proof.
  intros Hf. revert b.
  induction Hf as [|[r a|m] tr Hev _ IH]; intros b.
  - apply drift_refl.
  - rewrite after_browser_cons.
    eapply drift_trans; [apply drift_next; exact Hev|apply IH].
  - rewrite after_logged. apply IH.
Qed.

End Drift.

(** ** No request creates, closes or duplicates a tab *)

Section Conservation.

Lemma move_tabs_ids xs w i l :
  map tab_id (move_tabs xs w i l) ≡ₚ map tab_id l.
Proof.
  revert i l. induction xs as [|x xs IH]; intros i l; simpl; [reflexivity|].
  rewrite IH. apply move_tab_ids.
Qed.

Lemma move_group_ids g w i l :
  map tab_id (move_group_tabs g w i l) ≡ₚ map tab_id l.
Proof.
  unfold move_group_tabs. rewrite place_at_perm, map_app, map_map. simpl.
  rewrite <- map_app. apply fmap_Permutation. apply filter_split_perm.
Qed.

Lemma effect_ids r b :
  map tab_id (b_tabs (effect r b)) ≡ₚ map tab_id (b_tabs b).
Proof.
  destruct r as [w|tys|w g|w|x w i|xs w i|g w i|x p|xs w|g title color collapsed];
    simpl; try reflexivity.
  - apply move_tab_ids.
  - apply move_tabs_ids.
  - apply move_group_ids.
  - rewrite update_ids. reflexivity.
  - rewrite map_map. erewrite map_ext; [reflexivity|].
    intros t. simpl. destruct (bool_decide _); reflexivity.
Qed.

Lemma effect_windows r b : b_windows (effect r b) = b_windows b.
Proof. destruct r; reflexivity. Qed.

Lemma next_ids r b :
  map tab_id (b_tabs (browser_next b r)) ≡ₚ map tab_id (b_tabs b).
Proof.
  unfold browser_next. destruct (accepts b r); [apply effect_ids|reflexivity].
Qed.

Lemma next_windows r b : b_windows (browser_next b r) = b_windows b.
Proof.
  unfold browser_next. destruct (accepts b r); [apply effect_windows|reflexivity].
Qed.

Lemma next_refuses r b : b_refuses (browser_next b r) = b_refuses b.
Proof.
  unfold browser_next. destruct (accepts b r); [apply refuses_effect|reflexivity].
Qed.

Lemma after_ids tr b :
  map tab_id (b_tabs (after browser b tr)) ≡ₚ map tab_id (b_tabs b).
Proof.
  revert b. induction tr as [|[r a|m] tr IH]; intros b.
  - reflexivity.
  - rewrite after_browser_cons, IH. apply next_ids.
  - rewrite after_logged. apply IH.
Qed.

Lemma after_windows tr b : b_windows (after browser b tr) = b_windows b.
Proof.
  revert b. induction tr as [|[r a|m] tr IH]; intros b.
  - reflexivity.
  - rewrite after_browser_cons, IH. apply next_windows.
  - rewrite after_logged. apply IH.
Qed.

End Conservation.

(** X9. On the reference host, whatever it refuses, a merge brings tabs to
    the target window and nowhere else: every tab is afterwards in the
    target window or in the window and group it was in, so the tabs of the
    target stay in it; and a tab that is outside the target window
    afterwards was in that window and group before, so no window other than
    the target gains a tab. *)
Theorem X9_tabs_only_reach_target :
  forall (target : Z) (st : St Browser),
    let b := host st in
    let b' := host (snd (executeMerge browser target st)) in
    (forall t, t ∈ b_tabs b ->
       exists t', t' ∈ b_tabs b' /\ tab_id t' = tab_id t
         /\ (tab_windowId t' = target
             \/ (tab_windowId t' = tab_windowId t
                 /\ tab_groupId t' = tab_groupId t)))
    /\ (forall t', t' ∈ b_tabs b' -> tab_windowId t' <> target ->
          exists t, t ∈ b_tabs b /\ tab_id t = tab_id t'
            /\ tab_windowId t = tab_windowId t'
            /\ tab_groupId t = tab_groupId t').
Proof.
  intros target st b b'. subst b b'.
  pose proof (merge_events_to_target Browser browser target st) as Ht.
  destruct (executeMerge browser target st) as [[tr r] st'] eqn:E.
  destruct (sound_executeMerge browser target _ _ _ _ E) as (_ & Hs & _).
  simpl in Ht. simpl snd. rewrite Hs.
  destruct (drift_after target tr (host st) Ht) as [Hb Hf].
  split.
  - intros t Hin. destruct (Hf t Hin) as (t' & Hin' & Hid & Hw). eauto.
  - intros t' Hin' Hne. destruct (Hb t' Hin') as (t & Hin & Hid & Hw).
    exists t. destruct Hw as [Hw|[Hw Hg]]; [contradiction|]. auto.
Qed.

(** ** A move that succeeded is not undone *)

Ltac sub_trace :=
  let ev := fresh "ev" in
  let Hev := fresh "Hev" in
  intros ev Hev; repeat rewrite ?elem_of_cons, ?elem_of_app in Hev;
  repeat rewrite ?elem_of_cons, ?elem_of_app; tauto.

Section Lasting.
Variable target : Z.

Lemma gone_drift x l l' :
  drift target l l' -> gone target x l -> gone target x l'.
Proof.
  intros [B _] Hg t' Ht' Hid.
  destruct (B _ Ht') as (t & Ht & Hi & [Hw|[Hw _]]); [exact Hw|].
  rewrite Hw. apply Hg; [exact Ht|congruence].
Qed.

Lemma group_gone_drift g l l' :
  drift target l l' -> group_gone target g l -> group_gone target g l'.
Proof.
  intros [B _] Hg t' Ht' Hid.
  destruct (B _ Ht') as (t & Ht & Hi & [Hw|[Hw Hgr]]); [exact Hw|].
  rewrite Hw. apply Hg; [exact Ht|congruence].
Qed.

Lemma gone_move_tab x i l : gone target x (move_tab x target i l).
Proof.
  intros t Ht Hid.
  apply elem_of_move_tab_inv in Ht as [(t0 & _ & _ & ->)|[_ Hne]];
    [|contradiction].
  unfold arrive. destruct (tab_windowId t0 =? target) eqn:E; [|reflexivity].
  apply Z.eqb_eq. exact E.
Qed.

Lemma gone_move_tabs xs i l x :
  x ∈ xs -> gone target x (move_tabs xs target i l).
Proof.
  revert i l. induction xs as [|y xs IH]; intros i l Hx; [inversion Hx|].
  simpl. apply elem_of_cons in Hx as [->|Hx].
  - eapply gone_drift; [apply drift_move_tabs|apply gone_move_tab].
  - apply IH. exact Hx.
Qed.

Lemma group_gone_move g i l :
  group_gone target g (move_group_tabs g target i l).
Proof.
  intros t Ht Hg.
  apply elem_of_move_group_tabs in Ht as [(t0 & _ & _ & ->)|[_ Hne]];
    [reflexivity|contradiction].
Qed.

(** Once a move that names a tab has succeeded, the tab is in the target
    window at the end of the trace; likewise the tabs of a group whose move
    succeeded. *)
Lemma lasting tr :
  forall b,
    coherent browser b tr ->
    Forall (event_to_target target) tr ->
    (forall x r a, Called r a ∈ tr -> succeeded a = true ->
                   moves_tab x r = true ->
                   gone target x (b_tabs (after browser b tr)))
    /\ (forall g w i a, Called (TabGroupsMove g w i) a ∈ tr ->
                        succeeded a = true ->
                        group_gone target g (b_tabs (after browser b tr))).
Proof.
  induction tr as [|[r0 a0|m] tr IH]; intros b Hco Hf.
  - split; intros; match goal with H : _ ∈ [] |- _ => inversion H end.
  - apply coherent_browser_cons in Hco as [R Hco].
    apply Forall_cons in Hf as [Hev Hf].
    destruct (IH _ Hco Hf) as [I1 I2]. rewrite after_browser_cons.
    pose proof (drift_after target tr (browser_next b r0) Hf) as Hd.
    split.
    + intros x r a Hin Hs Hm. apply elem_of_cons in Hin as [Hin|Hin];
        [|eapply I1; eauto].
      injection Hin as <- <-. symmetry in R.
      apply reply_success in R as [_ N]; [|exact Hs].
      eapply gone_drift; [exact Hd|]. rewrite N.
      destruct r as [| | | |y w i|ys w i| | | |]; try discriminate Hm;
        simpl in Hev, Hm; destruct Hev as [-> _]; simpl.
      * apply Z.eqb_eq in Hm. subst y. apply gone_move_tab.
      * apply bool_decide_eq_true in Hm. apply gone_move_tabs. exact Hm.
    + intros g w i a Hin Hs. apply elem_of_cons in Hin as [Hin|Hin];
        [|eapply I2; eauto].
      injection Hin as <- <-. symmetry in R.
      apply reply_success in R as [_ N]; [|exact Hs].
      eapply group_gone_drift; [exact Hd|]. rewrite N.
      simpl in Hev. destruct Hev as [-> _]. simpl. apply group_gone_move.
  - apply Forall_cons in Hf as [_ Hf]. rewrite after_logged.
    destruct (IH b Hco Hf) as [I1 I2]. split.
    + intros x r a Hin. apply elem_of_cons in Hin as [Hin|Hin]; [discriminate|].
      eapply I1; eauto.
    + intros g w i a Hin. apply elem_of_cons in Hin as [Hin|Hin]; [discriminate|].
      eapply I2; eauto.
Qed.

(** *** Every tab of a phase's input is named in a move *)

Lemma attempted_sub x tr tr' :
  (forall ev, ev ∈ tr -> ev ∈ tr') -> attempted x tr -> attempted x tr'.
Proof. intros Hs (r & a & Hin & Hm). exists r, a. auto. Qed.

Lemma group_moved_sub g tr tr' :
  (forall ev, ev ∈ tr -> ev ∈ tr') -> group_moved g tr -> group_moved g tr'.
Proof. intros Hs (w & i & a & Hin & Hm). exists w, i, a. auto. Qed.

Lemma refused_for_sub x tr tr' :
  (forall ev, ev ∈ tr -> ev ∈ tr') -> refused_for x tr -> refused_for x tr'.
Proof. intros Hs (r & e & Hin & Hm). exists r, e. auto. Qed.

Lemma attempted_head x r a tr :
  moves_tab x r = true -> attempted x (Called r a :: tr).
Proof. intros Hm. exists r, a. split; [constructor|exact Hm]. Qed.

Lemma phaseA_attempts tabs tr :
  PhaseA target tabs tr ->
  forall t, t ∈ tabs -> attempted (tab_id t) tr.
Proof.
  induction 1 as [|tab tabs tr _ IH|tab tabs e tr _ IH|tab tabs e tr _ IH];
    intros t Ht; [inversion Ht|..];
    (apply elem_of_cons in Ht as [->|Ht];
     [apply attempted_head; apply Z.eqb_refl
     |eapply attempted_sub; [|apply IH; exact Ht]; sub_trace]).
Qed.

Lemma group_step_attempts group tabs tr :
  GroupStep target group tabs tr ->
  group_moved (group_id group) tr
  \/ forall t, t ∈ tabs -> attempted (tab_id t) tr.
Proof.
  assert (Hn : forall t, t ∈ tabs ->
                 forall i, moves_tab (tab_id t)
                             (TabsMoveMany (map tab_id tabs) target i) = true).
  { intros t Ht i. simpl. apply bool_decide_eq_true.
    apply list_elem_of_fmap. eauto. }
  intros [|e n|e n e'|e e'|e e'].
  - left. exists target, TAB_POSITION_END, Void. split; [constructor|reflexivity].
  - right. intros t Ht. eexists _, _. split; [|apply (Hn t Ht)].
    do 2 right. left.
  - right. intros t Ht. eexists _, _. split; [|apply (Hn t Ht)].
    do 2 right. left.
  - right. intros t Ht. eexists _, _. split; [|apply (Hn t Ht)].
    do 2 right. left.
  - right. intros t Ht. eexists _, _. split; [|apply (Hn t Ht)].
    do 2 right. left.
Qed.

Lemma phaseB_attempts grouped tr :
  PhaseB target grouped tr ->
  forall g, g ∈ grouped -> gt_tabs g <> [] ->
    group_moved (group_id (gt_group g)) tr
    \/ forall t, t ∈ gt_tabs g -> attempted (tab_id t) tr.
Proof.
  induction 1 as [|g gs tr He _ IH|g gs t1 tr Hne Hs _ IH];
    intros g' Hg' Hne'; [inversion Hg'|..].
  - apply elem_of_cons in Hg' as [->|Hg']; [contradiction|]. auto.
  - apply elem_of_cons in Hg' as [->|Hg'].
    + destruct (group_step_attempts _ _ _ Hs) as [Hm|Ha].
      * left. eapply group_moved_sub; [|exact Hm]. sub_trace.
      * right. intros t Ht. eapply attempted_sub; [|apply Ha; exact Ht].
        sub_trace.
    + destruct (IH g' Hg' Hne') as [Hm|Ha].
      * left. eapply group_moved_sub; [|exact Hm]. sub_trace.
      * right. intros t Ht. eapply attempted_sub; [|apply Ha; exact Ht].
        sub_trace.
Qed.

Lemma phaseC_attempts ids tr :
  PhaseC target ids tr -> forall x, x ∈ ids -> attempted x tr.
Proof.
  intros [->|Hne|e tr' Hne _]; intros x Hx.
  - inversion Hx.
  - apply attempted_head. simpl. apply bool_decide_eq_true. exact Hx.
  - apply attempted_head. simpl. apply bool_decide_eq_true. exact Hx.
Qed.

End Lasting.

(** ** What a window's migration leaves behind *)

Section LeftBehind.
Variable target : Z.

Lemma tabs_reply b w g tabs :
  Tabs tabs = browser_reply b (TabsQuery w g) -> tabs = tabs_of w g b.
Proof.
  unfold browser_reply. destruct (accepts b _); [|discriminate].
  intros [= ->]. reflexivity.
Qed.

(** A tab still in the source window after the window's migration was
    named in a move that the host rejected. *)
Lemma window_left_behind src tr b :
  WindowDone target src tr -> src <> target ->
  coherent browser b tr ->
  NoDup (map tab_id (b_tabs b)) ->
  forall t, t ∈ b_tabs (after browser b tr) -> tab_windowId t = src ->
    refused_for (tab_id t) tr.
Proof.
  intros Hd Hne Hco Hnd t Ht Hw.
  destruct (window_done_contents target src tr Hd) as (Hto & _ & _).
  destruct (lasting target tr b Hco Hto) as [L1 L2].
  destruct (drift_after target tr b Hto) as [Hb _].
  destruct (Hb t Ht) as (t0 & Ht0 & Hid & [Hw'|[Hw' Hg']]); [congruence|].
  assert (Hsrc0 : t0 ∈ tabs_of src None b).
  { apply elem_of_tabs_of. repeat split; [exact Ht0|congruence]. }
  assert (Hcase : attempted (tab_id t) tr \/ group_moved (tab_groupId t) tr).
  { clear L1 L2 Hb Ht Hto.
    destruct Hd as [|tabs grouped trA trB trC Hnil HA HB HC].
    - apply coherent_browser_cons in Hco as [R _]. apply tabs_reply in R.
      rewrite <- R in Hsrc0. inversion Hsrc0.
    - apply coherent_browser_cons in Hco as [R Hco]. apply tabs_reply in R.
      rewrite read_next in Hco by reflexivity.
      apply coherent_app in Hco as [Hreads _].
      destruct (reads_coherent _ _ _ Hreads) as (Hgs & Hts & _).
      rewrite <- R in Hsrc0.
      destruct (tab_pinned t0) eqn:Hp.
      + left. rewrite Hid.
        eapply attempted_sub; [|apply (phaseA_attempts target _ _ HA t0)].
        * sub_trace.
        * apply elem_of_lfilter. auto.
      + destruct (decide (tab_groupId t0
                          ∈ map (fun g => group_id (gt_group g)) grouped))
          as [Hin|Hout].
        * apply list_elem_of_fmap in Hin as (g & Hg & Hing).
          assert (Hmem : t0 ∈ gt_tabs g).
          { rewrite (Hts g Hing). apply elem_of_tabs_of.
            repeat split; [exact Ht0|congruence|exact Hg]. }
          destruct (phaseB_attempts target _ _ HB g Hing) as [Hm|Ha].
          { intros E. rewrite E in Hmem. inversion Hmem. }
          -- right. rewrite Hg', Hg. eapply group_moved_sub; [|exact Hm].
             sub_trace.
          -- left. rewrite Hid.
             eapply attempted_sub; [|apply Ha; exact Hmem]. sub_trace.
        * left. rewrite Hid.
          eapply attempted_sub; [|apply (phaseC_attempts target _ _ HC)].
          { sub_trace. }
          apply list_elem_of_fmap. exists t0. split; [reflexivity|].
          simpl. apply elem_of_lfilter. split.
          { apply elem_of_lfilter. split; [exact Hsrc0|]. rewrite Hp. reflexivity. }
          apply negb_true_iff, bool_decide_eq_false.
          rewrite elem_of_list_to_set. intros Hgi.
          apply elem_of_grouped_ids in Hgi as (t1 & Ht1 & Hid1).
          apply elem_of_grouped_tabs in Ht1 as (g & Hg & Ht1).
          rewrite (Hts g Hg) in Ht1.
          apply elem_of_tabs_of in Ht1 as (Hb1 & Hw1 & Hg1).
          assert (t1 = t0) by (eapply NoDup_fmap_inj; eauto). subst t1.
          apply Hout. apply list_elem_of_fmap. exists g. auto. }
  destruct Hcase as [(r & a & Hin & Hm)|(w & i & a & Hin & Hs)].
  - destruct (succeeded a) eqn:Hs.
    + exfalso. apply Hne. rewrite <- Hw. eapply (L1 (tab_id t) r a); eauto.
    + destruct a; try discriminate. exists r, e. auto.
  - exfalso. apply Hne. rewrite <- Hw. eapply (L2 _ w i a); eauto.
Qed.

(** The same for every source window of a run that was not cut short. *)
Lemma run_left_behind ws tr r :
  WindowsRun target ws tr r ->
  forall b,
    coherent browser b tr ->
    NoDup (map tab_id (b_tabs b)) ->
    (forall w, w ∈ ws -> win_id w <> target) ->
    r = Resolved tt ->
    forall w t, w ∈ ws -> t ∈ b_tabs (after browser b tr) ->
                tab_windowId t = win_id w ->
                refused_for (tab_id t) tr.
Proof.
  induction 1 as [|w ws t1 tr r Hd Hrun IH|w ws t1 e Ha];
    intros b Hco Hnd Hsrc Hr w' t Hw' Ht Hwin.
  - inversion Hw'.
  - apply coherent_app in Hco as [Hco1 Hco2]. rewrite after_app in Ht.
    assert (Hnd1 : NoDup (map tab_id (b_tabs (after browser b t1)))).
    { rewrite after_ids. exact Hnd. }
    apply elem_of_cons in Hw' as [->|Hw'].
    + destruct (windows_run_contents target _ _ _ Hrun) as (Hto & _).
      destruct (drift_after target tr (after browser b t1) Hto) as [Hb _].
      assert (Hne : win_id w <> target) by (apply Hsrc; left).
      destruct (Hb t Ht) as (t0 & Ht0 & Hid & [Hx|[Hx _]]); [congruence|].
      rewrite Hid.
      eapply refused_for_sub;
        [|eapply (window_left_behind (win_id w) t1 b); eauto; congruence].
      sub_trace.
    + eapply refused_for_sub; [|eapply (IH _ Hco2 Hnd1); eauto].
      * sub_trace.
      * intros w0 Hw0. apply Hsrc. right. exact Hw0.
  - discriminate.
Qed.

End LeftBehind.

(** ** A merge on the reference host *)

Section MergeOnBrowser.
Variable target : Z.

Lemma elem_of_sources w registry b :
  w ∈ sources target registry b <->
  w ∈ b_windows b /\ win_type w = normal
  /\ win_incognito w = win_incognito (window_of target b)
  /\ win_id w <> target /\ win_id w ∉ registry.
Proof.
  unfold sources. rewrite !elem_of_lfilter.
  rewrite !andb_true_iff, !negb_true_iff, Z.eqb_neq, bool_decide_eq_false,
    bool_decide_eq_true, list_elem_of_singleton, Bool.eqb_true_iff.
  tauto.
Qed.

(** A merge whose reads all resolved: its trace is the two reads for the
    source windows and then the run over these windows. *)
Lemma merge_run_browser (st : St Browser) tr r st' :
  executeMerge browser target st = (tr, r, st') ->
  existsb merge_failed tr = false ->
  exists trw,
    tr = [Called (WindowsGet target) (AWindow (window_of target (host st)));
          Called (WindowsGetAll [normal])
                 (Windows (List.filter
                             (fun w => bool_decide (win_type w ∈ [normal]))
                             (b_windows (host st))))] ++ trw
    /\ accepts (host st) (WindowsGet target) = true
    /\ WindowsRun target (sources target (pwaWindowIds st) (host st)) trw
                  (Resolved tt)
    /\ coherent browser (host st) trw
    /\ host st' = after browser (host st) trw.
Proof.
  intros E Hq.
  destruct (sound_executeMerge browser target _ _ _ _ E) as (Hco & Hs & _).
  destruct (executeMerge_run browser target st) as (tr0 & r0 & E0 & Hrun).
  rewrite getSourceWindows_run in E0. simpl in E0. unfold answer in E0.
  destruct (accepts (host st) (WindowsGet target)) eqn:A1.
  2:{ injection E0 as <- <-. rewrite Hrun in E. injection E as <- _ _.
      discriminate Hq. }
  destruct (accepts (host st) (WindowsGetAll [normal])) eqn:A2.
  2:{ injection E0 as <- <-. rewrite Hrun in E. injection E as <- _ _.
      discriminate Hq. }
  injection E0 as <- <-. destruct Hrun as (trw & r' & st'' & Hr & E').
  rewrite E' in E. injection E as <- _ <-.
  destruct r' as [[]|e].
  2:{ simpl in Hq. rewrite existsb_app in Hq. simpl in Hq.
      rewrite !orb_true_r in Hq. discriminate Hq. }
  rewrite app_nil_r in *. exists trw. split; [reflexivity|].
  split; [reflexivity|]. split; [exact Hr|].
  apply coherent_browser_cons in Hco as [_ Hco].
  apply coherent_browser_cons in Hco as [_ Hco].
  rewrite !after_browser_cons in Hs.
  rewrite !read_next in Hco, Hs by reflexivity. auto.
Qed.

(** After a merge whose reads all resolved, a tab still in a source window
    was named in a move that the host rejected. *)
Lemma merge_left_behind (st : St Browser) tr r st' :
  executeMerge browser target st = (tr, r, st') ->
  NoDup (map tab_id (b_tabs (host st))) ->
  existsb merge_failed tr = false ->
  forall w t,
    w ∈ sources target (pwaWindowIds st) (host st) ->
    t ∈ b_tabs (host st') -> tab_windowId t = win_id w ->
    refused_for (tab_id t) tr.
Proof.
  intros E Hnd Hq w t Hw Ht Hwin.
  destruct (merge_run_browser st tr r st' E Hq)
    as (trw & -> & _ & Hr & Hco & Hs).
  rewrite Hs in Ht.
  eapply refused_for_sub;
    [|eapply (run_left_behind target _ _ _ Hr (host st)); eauto].
  - sub_trace.
  - intros w0 Hw0. apply elem_of_sources in Hw0. tauto.
Qed.

End MergeOnBrowser.

(** X10. On the reference host with unique tab identifiers, after a merge
    whose reads all resolved, a tab is still in a source window (a normal
    window of the target's profile, not the target and not registered) only
    if a move that names it was rejected by the host. *)
Theorem X10_left_behind_only_if_refused :
  forall (target : Z) (st : St Browser) (w : Window) (t : Tab),
    NoDup (map tab_id (b_tabs (host st))) ->
    existsb merge_failed (fst (fst (executeMerge browser target st))) = false ->
    w ∈ b_windows (host st) ->
    win_type w = normal ->
    win_incognito w = win_incognito (window_of target (host st)) ->
    win_id w <> target ->
    win_id w ∉ pwaWindowIds st ->
    t ∈ b_tabs (host (snd (executeMerge browser target st))) ->
    tab_windowId t = win_id w ->
    refused_for (tab_id t) (fst (fst (executeMerge browser target st))).
Proof.
  intros target st w t Hnd Hq Hw Hty Hinc Hne Hreg Ht Hwin.
  destruct (executeMerge browser target st) as [[tr r] st'] eqn:E.
  simpl in *.
  eapply (merge_left_behind target st tr r st' E Hnd Hq w t); auto.
  apply elem_of_sources. auto.
Qed.

(** ** A host that refuses nothing *)

Section Cooperative.
Variable target : Z.

Lemma has_tab_ids b x : has_tab b x = true <-> x ∈ map tab_id (b_tabs b).
Proof.
  split.
  - intros Hx. apply has_tab_elem in Hx as (t & Ht & <-).
    apply list_elem_of_fmap. eauto.
  - intros Hx. apply list_elem_of_fmap in Hx as (t & -> & Ht).
    apply has_tab_true. eauto.
Qed.

Lemma has_tab_after tr b x :
  has_tab b x = true -> has_tab (after browser b tr) x = true.
Proof. rewrite !has_tab_ids, after_ids. auto. Qed.

Lemma has_window_after tr b w :
  has_window (after browser b tr) w = has_window b w.
Proof. unfold has_window. rewrite after_windows. reflexivity. Qed.

Lemma has_group_ids b g :
  has_group b g = true <-> g ∈ map group_id (b_groups b).
Proof.
  split; [|apply has_group_true].
  unfold has_group. intros Hg. apply existsb_exists in Hg as (x & Hx & E).
  apply Z.eqb_eq in E. subst g. apply list_elem_of_fmap. exists x.
  split; [reflexivity|]. apply list_elem_of_In. exact Hx.
Qed.

Lemma group_ids_effect r b g :
  g ∈ map group_id (b_groups b) -> g ∈ map group_id (b_groups (effect r b)).
Proof.
  destruct r as [w|tys|w g0|w|x w i|xs w i|g0 w i|x p|xs w|g0 title color collapsed];
    simpl; auto.
  - intros Hg. apply list_elem_of_fmap in Hg as (x & -> & Hx).
    apply list_elem_of_fmap. eexists. split; [|apply list_elem_of_fmap; eauto].
    simpl. destruct (group_id x =? g0); reflexivity.
  - intros Hg. rewrite map_app. apply elem_of_app. left. exact Hg.
  - intros Hg. apply list_elem_of_fmap in Hg as (x & -> & Hx).
    apply list_elem_of_fmap. eexists. split; [|apply list_elem_of_fmap; eauto].
    simpl. destruct (group_id x =? g0); reflexivity.
Qed.

Lemma has_group_after tr b g :
  has_group b g = true -> has_group (after browser b tr) g = true.
Proof.
  rewrite !has_group_ids. revert b.
  induction tr as [|[r a|m] tr IH]; intros b Hg.
  - exact Hg.
  - rewrite after_browser_cons. apply IH. unfold browser_next.
    destruct (accepts b r); [apply group_ids_effect|]; exact Hg.
  - rewrite after_logged. apply IH. exact Hg.
Qed.

(** A request that is well-formed stays so. *)
Lemma valid_after tr b r :
  valid b r = true -> valid (after browser b tr) r = true.
Proof.
  assert (Hall : forall xs, forallb (has_tab b) xs = true ->
                            forallb (has_tab (after browser b tr)) xs = true).
  { intros xs Hxs. apply forallb_forall. intros x Hx.
    apply has_tab_after. eapply forallb_forall in Hxs; eauto. }
  destruct r as [w|tys|w g0|w|x w i|xs w i|g0 w i|x p|xs w|g0 title color collapsed];
    simpl; rewrite ?andb_true_iff, ?has_window_after; auto.
  - intros [Hx Hw]. auto using has_tab_after.
  - intros [Hx Hw]. auto.
  - intros [Hx Hw]. auto using has_group_after.
  - apply has_tab_after.
  - intros [[Hn Hx] Hw]. auto.
  - apply has_group_after.
Qed.

(** The reply to a request of a coherent trace is the host's, in the state
    some part of the trace leads to. *)
Lemma coherent_at tr :
  forall b r a,
    coherent browser b tr -> Called r a ∈ tr ->
    exists tr1, a = browser_reply (after browser b tr1) r.
Proof.
  induction tr as [|[r0 a0|m] tr IH]; intros b r a Hco Hin; [inversion Hin|..].
  - apply coherent_browser_cons in Hco as [R Hco].
    apply elem_of_cons in Hin as [Hin|Hin].
    + injection Hin as -> ->. exists []. exact R.
    + destruct (IH _ _ _ Hco Hin) as (tr1 & E).
      exists (Called r0 a0 :: tr1). rewrite after_browser_cons. exact E.
  - apply elem_of_cons in Hin as [Hin|Hin]; [discriminate|].
    destruct (IH _ _ _ Hco Hin) as (tr1 & E).
    exists (Logged m :: tr1). exact E.
Qed.

Lemma coop_sure tr b :
  cooperative b -> coherent browser b tr -> sure b tr.
Proof.
  intros Hc Hco r a Hin Hv.
  destruct (coherent_at tr b r a Hco Hin) as (tr1 & ->).
  apply accepted_reply. unfold accepts.
  rewrite refuses_after, Hc, valid_after by exact Hv. reflexivity.
Qed.

Lemma sure_sub b tr tr' :
  (forall ev, ev ∈ tr -> ev ∈ tr') -> sure b tr' -> sure b tr.
Proof. intros Hs Hsure r a Hin. apply Hsure. auto. Qed.

Ltac refute Hs r e :=
  exfalso;
  let Habs := fresh "Habs" in
  assert (Habs : succeeded (Failure e) = true);
  [apply (Hs r); [solve [repeat constructor]|simpl]|discriminate Habs].

Lemma phaseA_clean b tabs tr :
  PhaseA target tabs tr -> sure b tr -> has_window b target = true ->
  (forall t, t ∈ tabs -> has_tab b (tab_id t) = true) ->
  Forall (fun ev => clean ev = true) tr.
Proof.
  induction 1 as [|tab tabs tr _ IH|tab tabs e tr _ IH|tab tabs e tr _ IH];
    intros Hs Hw Ht.
  - constructor.
  - repeat (constructor; [reflexivity|]). apply IH; auto.
    + eapply sure_sub; [|exact Hs]. sub_trace.
    + intros t Hin. apply Ht. right. exact Hin.
  - refute Hs (TabsUpdate (tab_id tab) true) e. apply Ht. left.
  - refute Hs (TabsMove (tab_id tab) target TAB_POSITION_START) e.
    rewrite Ht, Hw by left. reflexivity.
Qed.

Lemma group_step_clean b group tabs tr :
  GroupStep target group tabs tr -> sure b tr ->
  has_window b target = true -> has_group b (group_id group) = true ->
  Forall (fun ev => clean ev = true) tr.
Proof.
  intros [|e n|e n e'|e e'|e e'] Hs Hw Hg.
  - repeat constructor.
  - refute Hs (TabGroupsMove (group_id group) target TAB_POSITION_END) e.
    rewrite Hg, Hw. reflexivity.
  - refute Hs (TabGroupsMove (group_id group) target TAB_POSITION_END) e.
    rewrite Hg, Hw. reflexivity.
  - refute Hs (TabGroupsMove (group_id group) target TAB_POSITION_END) e.
    rewrite Hg, Hw. reflexivity.
  - refute Hs (TabGroupsMove (group_id group) target TAB_POSITION_END) e.
    rewrite Hg, Hw. reflexivity.
Qed.

Lemma phaseB_clean b grouped tr :
  PhaseB target grouped tr -> sure b tr -> has_window b target = true ->
  (forall g, g ∈ grouped -> has_group b (group_id (gt_group g)) = true) ->
  Forall (fun ev => clean ev = true) tr.
Proof.
  induction 1 as [|g gs tr He _ IH|g gs t1 tr Hne Hstep _ IH]; intros Hs Hw Hg.
  - constructor.
  - apply IH; auto. intros g' Hg'. apply Hg. right. exact Hg'.
  - apply Forall_app. split.
    + eapply group_step_clean; [exact Hstep| |exact Hw|apply Hg; left].
      eapply sure_sub; [|exact Hs]. sub_trace.
    + apply IH; auto.
      * eapply sure_sub; [|exact Hs]. sub_trace.
      * intros g' Hg'. apply Hg. right. exact Hg'.
Qed.

Lemma phaseC_clean b ids tr :
  PhaseC target ids tr -> sure b tr -> has_window b target = true ->
  (forall x, x ∈ ids -> has_tab b x = true) ->
  Forall (fun ev => clean ev = true) tr.
Proof.
  intros [->|Hne|e tr' Hne _] Hs Hw Hx.
  - constructor.
  - repeat constructor.
  - refute Hs (TabsMoveMany ids target TAB_POSITION_END) e.
    rewrite Hw, andb_true_r. apply forallb_forall. intros x Hin.
    apply Hx. apply list_elem_of_In. exact Hin.
Qed.

Lemma classify_events_clean w grouped :
  Forall (fun ev => clean ev = true) (classify_events w grouped).
Proof.
  unfold classify_events. constructor; [reflexivity|].
  apply Forall_forall. intros ev Hev.
  apply list_elem_of_fmap in Hev as (g & -> & _). reflexivity.
Qed.

(** On such a host a window's migration runs without a rejection. *)
Lemma window_done_clean b src tr :
  WindowDone target src tr ->
  coherent browser b tr -> cooperative b -> has_window b target = true ->
  Forall (fun ev => clean ev = true) tr.
Proof.
  intros Hd Hco Hc Hw. pose proof (coop_sure tr b Hc Hco) as Hs.
  destruct Hd as [|tabs grouped trA trB trC Hnil HA HB HC].
  - repeat constructor.
  - apply coherent_browser_cons in Hco as [R Hco]. apply tabs_reply in R.
    rewrite read_next in Hco by reflexivity.
    apply coherent_app in Hco as [Hreads _].
    destruct (reads_coherent _ _ _ Hreads) as (Hgs & Hts & _).
    assert (Hex : forall t, t ∈ tabs -> has_tab b (tab_id t) = true).
    { intros t Ht. rewrite R in Ht. apply elem_of_tabs_of in Ht as [Ht _].
      apply has_tab_true. eauto. }
    constructor; [reflexivity|]. rewrite !Forall_app. split; [|split; [|split]].
    + apply classify_events_clean.
    + eapply phaseA_clean; [exact HA| |exact Hw|].
      * eapply sure_sub; [|exact Hs]. sub_trace.
      * intros t Ht. apply Hex. simpl in Ht.
        apply elem_of_lfilter in Ht as [Ht _]. exact Ht.
    + eapply phaseB_clean; [exact HB| |exact Hw|].
      * eapply sure_sub; [|exact Hs]. sub_trace.
      * intros g Hg. apply has_group_true.
        assert (Hin : gt_group g ∈ groups_of src b).
        { rewrite <- Hgs. apply list_elem_of_fmap. eauto. }
        apply elem_of_lfilter in Hin as [Hin _].
        apply list_elem_of_fmap. eauto.
    + eapply phaseC_clean; [exact HC| |exact Hw|].
      * eapply sure_sub; [|exact Hs]. sub_trace.
      * intros x Hx. apply list_elem_of_fmap in Hx as (t & -> & Ht).
        apply Hex. simpl in Ht.
        apply elem_of_lfilter in Ht as [Ht _].
        apply elem_of_lfilter in Ht as [Ht _]. exact Ht.
Qed.

(** On such a host no read of a window's migration is rejected. *)
Lemma window_aborted_absurd b src tr e :
  WindowAborted src tr e -> sure b tr -> False.
Proof.
  intros [e0|tabs e0 Hne|tabs reads e0 Hne Hg] Hs.
  - refute Hs (TabsQuery src None) e0. reflexivity.
  - refute Hs (TabGroupsQuery src) e0. reflexivity.
  - destruct (gather_rejected _ _ Hg) as (g & e' & Hin).
    assert (Habs : succeeded (Failure e') = true); [|discriminate Habs].
    apply (Hs (TabsQuery src (Some (group_id g)))); [|reflexivity].
    do 2 right. unfold read_events. apply list_elem_of_fmap.
    exists (g, Rejected e'). split; [reflexivity|exact Hin].
Qed.

Lemma run_clean ws tr r :
  WindowsRun target ws tr r ->
  forall b,
    coherent browser b tr -> cooperative b -> has_window b target = true ->
    Forall (fun ev => clean ev = true) tr /\ r = Resolved tt.
Proof.
  induction 1 as [|w ws t1 tr r Hd _ IH|w ws t1 e Ha]; intros b Hco Hc Hw.
  - split; [constructor|reflexivity].
  - apply coherent_app in Hco as [Hco1 Hco2].
    destruct (IH (after browser b t1)) as [Hcl Hr]; auto.
    + intros r0. rewrite refuses_after. apply Hc.
    + rewrite has_window_after. exact Hw.
    + split; [|exact Hr]. apply Forall_app. split; [|exact Hcl].
      eapply window_done_clean; eauto.
  - exfalso.
    exact (window_aborted_absurd b _ _ _ Ha (coop_sure _ _ Hc Hco)).
Qed.

(** On such a host a merge into an existing window runs without a
    rejection and logs nothing. *)
Lemma merge_clean (st : St Browser) tr r st' :
  executeMerge browser target st = (tr, r, st') ->
  cooperative (host st) -> has_window (host st) target = true ->
  Forall (fun ev => clean ev = true) tr.
Proof.
  intros E Hc Hw.
  destruct (sound_executeMerge browser target _ _ _ _ E) as (Hco & _ & _).
  destruct (executeMerge_run browser target st) as (tr0 & r0 & E0 & Hrun).
  rewrite getSourceWindows_run in E0. simpl in E0. unfold answer, accepts in E0.
  rewrite !Hc in E0. simpl in E0. rewrite Hw in E0.
  injection E0 as <- <-. destruct Hrun as (trw & r' & st'' & Hr & E').
  rewrite E' in E. injection E as <- _ _.
  apply coherent_browser_cons in Hco as [_ Hco].
  apply coherent_browser_cons in Hco as [_ Hco].
  rewrite !read_next in Hco by reflexivity.
  apply coherent_app in Hco as [Hco _].
  destruct (run_clean _ _ _ Hr (host st) Hco Hc Hw) as [Hcl ->].
  repeat (constructor; [reflexivity|]). rewrite app_nil_r. exact Hcl.
Qed.

End Cooperative.

(** X11. On a reference host that refuses nothing of its own accord, with
    unique tab identifiers, a merge into an existing window gets no
    rejection and logs nothing, and it empties every source window: each
    tab of a normal window of the target's profile that is not registered
    is in the target window afterwards. *)
Theorem X11_cooperative_host_merges_all :
  forall (target : Z) (st : St Browser),
    cooperative (host st) ->
    has_window (host st) target = true ->
    NoDup (map tab_id (b_tabs (host st))) ->
    Forall (fun ev => clean ev = true)
           (fst (fst (executeMerge browser target st)))
    /\ forall w,
         w ∈ b_windows (host st) ->
         win_type w = normal ->
         win_incognito w = win_incognito (window_of target (host st)) ->
         win_id w <> target ->
         win_id w ∉ pwaWindowIds st ->
         tabs_of (win_id w) None (host (snd (executeMerge browser target st)))
         = []
         /\ forall t, t ∈ b_tabs (host st) -> tab_windowId t = win_id w ->
              exists t',
                t' ∈ b_tabs (host (snd (executeMerge browser target st)))
                /\ tab_id t' = tab_id t /\ tab_windowId t' = target.
Proof.
  intros target st Hc Hw Hnd.
  pose proof (merge_events_to_target Browser browser target st) as Hto.
  destruct (executeMerge browser target st) as [[tr r] st'] eqn:E.
  simpl fst in *. simpl snd.
  pose proof (merge_clean target st tr r st' E Hc Hw) as Hcl.
  split; [exact Hcl|].
  intros w Hin Hty Hinc Hne Hreg.
  assert (Hq : existsb merge_failed tr = false).
  { apply not_true_is_false. intros Hex.
    apply existsb_exists in Hex as (ev & Hev & Hm).
    apply list_elem_of_In in Hev. rewrite Forall_forall in Hcl.
    specialize (Hcl ev Hev). destruct ev as [r0 a|m]; discriminate. }
  assert (Hempty : forall t, t ∈ b_tabs (host st') -> tab_windowId t <> win_id w).
  { intros t Ht Hwin.
    destruct (merge_left_behind target st tr r st' E Hnd Hq w t)
      as (r0 & e & Hev & _); auto.
    { apply elem_of_sources. auto. }
    rewrite Forall_forall in Hcl. specialize (Hcl _ Hev). discriminate. }
  split.
  - apply lfilter_none. intros t Ht. rewrite andb_true_r.
    apply Z.eqb_neq. apply Hempty. exact Ht.
  - intros t Ht Hwin.
    destruct (sound_executeMerge browser target _ _ _ _ E) as (_ & Hs & _).
    destruct (drift_after target tr (host st) Hto) as [_ Hf].
    rewrite <- Hs in Hf. destruct (Hf t Ht) as (t' & Ht' & Hid & [Hx|[Hx _]]).
    + exists t'. auto.
    + exfalso. apply (Hempty t' Ht'). congruence.
Qed.

(** ** The script names only what it was told *)

Section Informed.
Variable target : Z.

Lemma names_known_mono T T' G G' r :
  (forall x, x ∈ T -> x ∈ T') -> (forall g, g ∈ G -> g ∈ G') ->
  names_known T G r -> names_known T' G' r.
Proof. intros HT HG. destruct r; simpl; auto. Qed.

Lemma informed_mono tr :
  forall T T' G G',
    (forall x, x ∈ T -> x ∈ T') -> (forall g, g ∈ G -> g ∈ G') ->
    informed T G tr -> informed T' G' tr.
Proof.
  induction tr as [|[r a|m] tr IH]; intros T T' G G' HT HG; simpl; auto.
  - intros [Hn Hi]. split; [eapply names_known_mono; eauto|].
    eapply IH; [| |exact Hi].
    + intros x. rewrite !elem_of_app. intros [Hx|Hx]; auto.
    + intros g. rewrite !elem_of_app. intros [Hg|Hg]; auto.
  - apply IH; auto.
Qed.

Lemma informed_app t1 :
  forall T G t2,
    informed T G t1 -> informed T G t2 -> informed T G (t1 ++ t2).
Proof.
  induction t1 as [|[r a|m] t1 IH]; intros T G t2; simpl; auto.
  intros [Hn H1] H2. split; [exact Hn|]. apply IH; [exact H1|].
  eapply informed_mono; [| |exact H2].
  - intros x Hx. apply elem_of_app. auto.
  - intros g Hg. apply elem_of_app. auto.
Qed.

(** Reads name nothing. *)
Lemma reads_informed tr :
  forall T G,
    Forall (fun ev => mutating_event ev = false) tr -> informed T G tr.
Proof.
  induction tr as [|[r a|m] tr IH]; intros T G Hf; simpl; auto.
  - apply Forall_cons in Hf as [Hr Hf]. split; [|apply IH; exact Hf].
    destruct r; try discriminate Hr; exact Logic.I.
  - apply Forall_cons in Hf as [_ Hf]. apply IH. exact Hf.
Qed.

Lemma phaseA_informed T G tabs tr :
  PhaseA target tabs tr ->
  (forall t, t ∈ tabs -> tab_id t ∈ T) -> informed T G tr.
Proof.
  induction 1 as [|tab tabs tr _ IH|tab tabs e tr _ IH|tab tabs e tr _ IH];
    intros Ht; simpl; auto;
    (assert (Hhd : tab_id tab ∈ T) by (apply Ht; left));
    (assert (Htl : informed T G tr)
       by (apply IH; intros t Hin; apply Ht; right; exact Hin)); auto.
Qed.

Lemma group_step_informed T G group tabs tr :
  GroupStep target group tabs tr ->
  group_id group ∈ G -> (forall t, t ∈ tabs -> tab_id t ∈ T) ->
  informed T G tr.
Proof.
  intros Hs Hg Ht.
  assert (Hids : forall x, x ∈ map tab_id tabs -> x ∈ T).
  { intros x Hx. apply list_elem_of_fmap in Hx as (t & -> & Hin). auto. }
  destruct Hs; simpl; repeat split; auto; left.
Qed.

Lemma phaseB_informed T G grouped tr :
  PhaseB target grouped tr ->
  (forall g, g ∈ grouped -> group_id (gt_group g) ∈ G) ->
  (forall g t, g ∈ grouped -> t ∈ gt_tabs g -> tab_id t ∈ T) ->
  informed T G tr.
Proof.
  induction 1 as [|g gs tr He _ IH|g gs t1 tr Hne Hs _ IH]; intros Hg Ht.
  - exact Logic.I.
  - apply IH.
    + intros g' Hg'. apply Hg. right. exact Hg'.
    + intros g' t Hg'. apply Ht. right. exact Hg'.
  - apply informed_app.
    + eapply group_step_informed; [exact Hs|apply Hg; left|].
      intros t. apply Ht. left.
    + apply IH.
      * intros g' Hg'. apply Hg. right. exact Hg'.
      * intros g' t Hg'. apply Ht. right. exact Hg'.
Qed.

Lemma one_by_one_informed T G ids tr :
  OneByOne target ids tr -> (forall x, x ∈ ids -> x ∈ T) -> informed T G tr.
Proof.
  induction 1 as [|x ids tr _ IH|x ids e tr _ IH]; intros Hx; simpl; auto;
    (split; [apply Hx; left|apply IH; intros y Hy; apply Hx; right; exact Hy]).
Qed.

Lemma phaseC_informed T G ids tr :
  PhaseC target ids tr -> (forall x, x ∈ ids -> x ∈ T) -> informed T G tr.
Proof.
  intros [->|Hne|e tr' Hne Ho] Hx; simpl; auto.
  split; [exact Hx|]. eapply one_by_one_informed; eauto.
Qed.

(** The queries for the tabs of each group make these tabs known to what
    follows. *)
Lemma group_reads_informed w G grouped rest :
  forall T,
    (forall T', (forall x, x ∈ T -> x ∈ T') ->
                (forall g t, g ∈ grouped -> t ∈ gt_tabs g -> tab_id t ∈ T') ->
                informed T' G rest) ->
    informed T G
      (map (fun g => Called (TabsQuery w (Some (group_id (gt_group g))))
                            (Tabs (gt_tabs g))) grouped ++ rest).
Proof.
  induction grouped as [|g gs IH]; intros T Hrest.
  - simpl. apply Hrest; [auto|]. intros g t Hg. inversion Hg.
  - simpl. split; [exact Logic.I|]. apply IH. intros T' HT Hgs.
    apply Hrest.
    + intros x Hx. apply HT. apply elem_of_app. right. exact Hx.
    + intros g' t Hg' Ht. apply elem_of_cons in Hg' as [->|Hg'].
      * apply HT. apply elem_of_app. left. apply list_elem_of_fmap. eauto.
      * eapply Hgs; eauto.
Qed.

Lemma window_done_informed T G source tr :
  WindowDone target source tr -> informed T G tr.
Proof.
  intros [|tabs grouped trA trB trC Hnil HA HB HC]; [simpl; auto|].
  simpl. split; [exact Logic.I|]. split; [exact Logic.I|].
  apply group_reads_informed. intros T' HT Hgs.
  assert (Htabs : forall t, t ∈ tabs -> tab_id t ∈ T').
  { intros t Ht. apply HT. apply elem_of_app. left.
    apply list_elem_of_fmap. eauto. }
  apply informed_app; [|apply informed_app].
  - eapply phaseA_informed; [exact HA|]. intros t Ht. apply Htabs.
    simpl in Ht. apply elem_of_lfilter in Ht as [Ht _]. exact Ht.
  - eapply phaseB_informed; [exact HB| |].
    + intros g Hg. apply elem_of_app. left. rewrite map_map.
      apply list_elem_of_fmap. eauto.
    + intros g t Hg Ht. eapply Hgs; eauto.
  - eapply phaseC_informed; [exact HC|]. intros x Hx.
    apply list_elem_of_fmap in Hx as (t & -> & Ht). apply Htabs.
    simpl in Ht. apply elem_of_lfilter in Ht as [Ht _].
    apply elem_of_lfilter in Ht as [Ht _]. exact Ht.
Qed.

Lemma windows_run_informed ws tr r :
  WindowsRun target ws tr r -> forall T G, informed T G tr.
Proof.
  induction 1 as [|w ws t1 tr r Hd _ IH|w ws t1 e Ha]; intros T G.
  - exact Logic.I.
  - apply informed_app; [eapply window_done_informed; eauto|apply IH].
  - apply reads_informed.
    destruct (window_aborted_contents _ _ _ Ha) as (A1 & _).
    eapply Forall_impl; [exact A1|]. simpl. tauto.
Qed.

End Informed.

(** X12. Whatever the host answers, a merge names in its moves, pin updates
    and group requests only tabs and groups it was told about before: a tab
    that an earlier tab query of the merge listed, a group that an earlier
    group query listed, or the group an earlier [tabs.group] made. *)
Theorem X12_names_only_what_was_listed :
  forall (S : Type) (H : Host S) (target : Z) (st : St S),
    informed [] [] (fst (fst (executeMerge H target st))).
Proof.
  intros S H target st.
  destruct (executeMerge_run H target st) as (tr0 & r0 & E0 & Hrun).
  assert (H0 : informed [] [] tr0).
  { apply reads_informed. rewrite getSourceWindows_run in E0.
    destruct (windows_get H target (host st)) as [T|e];
      [destruct (windows_getAll H [normal] (host st)) as [all|e]|];
      injection E0 as <- _; repeat constructor. }
  destruct r0 as [ws|e].
  - destruct Hrun as (tr & r & st' & Hr & ->). simpl.
    apply informed_app; [exact H0|]. apply informed_app.
    + eapply windows_run_informed; eauto.
    + destruct r; simpl; auto.
  - rewrite Hrun. simpl. apply informed_app; [exact H0|]. simpl. auto.
Qed.

(** ** Merging again *)

Section MergeAgain.
Variable target : Z.

Lemma reads_after tr b :
  Forall (fun ev => mutating_event ev = false) tr -> after browser b tr = b.
Proof.
  induction 1 as [|[r a|m] tr Hev _ IH]; [reflexivity|..].
  - rewrite after_browser_cons, read_next by exact Hev. exact IH.
  - rewrite after_logged. exact IH.
Qed.

(** Over source windows that are all empty a run issues reads only. *)
Lemma run_nothing_to_do ws tr r :
  WindowsRun target ws tr r ->
  forall b,
    coherent browser b tr ->
    (forall w, w ∈ ws -> tabs_of (win_id w) None b = []) ->
    Forall (fun ev => mutating_event ev = false) tr.
Proof.
  induction 1 as [|w ws t1 tr r Hd _ IH|w ws t1 e Ha]; intros b Hco Hempty.
  - constructor.
  - apply coherent_app in Hco as [Hco1 Hco2].
    assert (H1 : Forall (fun ev => mutating_event ev = false) t1).
    { destruct Hd as [|tabs grouped trA trB trC Hnil HA HB HC].
      - repeat constructor.
      - apply coherent_browser_cons in Hco1 as [R _]. apply tabs_reply in R.
        rewrite Hempty in R by left. contradiction. }
    apply Forall_app. split; [exact H1|].
    rewrite (reads_after _ _ H1) in Hco2. apply (IH b Hco2).
    intros w' Hw'. apply Hempty. right. exact Hw'.
  - destruct (window_aborted_contents _ _ _ Ha) as (A1 & _).
    eapply Forall_impl; [exact A1|]. simpl. tauto.
Qed.

(** A merge that finds every source window empty issues reads only and
    changes nothing. *)
Lemma merge_nothing_to_do (st : St Browser) :
  (forall w, w ∈ sources target (pwaWindowIds st) (host st) ->
             tabs_of (win_id w) None (host st) = []) ->
  Forall (fun ev => mutating_event ev = false)
         (fst (fst (executeMerge browser target st)))
  /\ snd (executeMerge browser target st) = st.
Proof.
  intros Hempty.
  assert (Hreads : Forall (fun ev => mutating_event ev = false)
                          (fst (fst (executeMerge browser target st)))).
  { destruct (executeMerge browser target st) as [[tr r] st'] eqn:E.
    destruct (sound_executeMerge browser target _ _ _ _ E) as (Hco & _ & _).
    destruct (executeMerge_run browser target st) as (tr0 & r0 & E0 & Hrun).
    rewrite getSourceWindows_run in E0. simpl in E0. unfold answer in E0.
    destruct (accepts (host st) (WindowsGet target)).
    2:{ injection E0 as <- <-. rewrite Hrun in E. injection E as <- _ _.
        repeat constructor. }
    destruct (accepts (host st) (WindowsGetAll [normal])).
    2:{ injection E0 as <- <-. rewrite Hrun in E. injection E as <- _ _.
        repeat constructor. }
    injection E0 as <- <-. destruct Hrun as (trw & r' & st'' & Hr & E').
    rewrite E' in E. injection E as <- _ _. simpl.
    apply coherent_browser_cons in Hco as [_ Hco].
    apply coherent_browser_cons in Hco as [_ Hco].
    rewrite !read_next in Hco by reflexivity.
    apply coherent_app in Hco as [Hco _].
    repeat (constructor; [reflexivity|]). apply Forall_app. split.
    - eapply run_nothing_to_do; [exact Hr|exact Hco|exact Hempty].
    - destruct r'; repeat constructor. }
  split; [exact Hreads|].
  destruct (executeMerge browser target st) as [[tr r] st'] eqn:E.
  destruct (sound_executeMerge browser target _ _ _ _ E) as (_ & Hs & Hp).
  simpl in *. rewrite (reads_after _ _ Hreads) in Hs.
  destruct st as [p h], st' as [p' h']. simpl in *. congruence.
Qed.

End MergeAgain.

(** X13. On a reference host that refuses nothing of its own accord, with
    unique tab identifiers, merging into the same window a second time
    moves nothing: the second merge issues reads only and leaves the state
    as the first merge left it. *)
Theorem X13_merging_again_moves_nothing :
  forall (target : Z) (st : St Browser),
    cooperative (host st) ->
    has_window (host st) target = true ->
    NoDup (map tab_id (b_tabs (host st))) ->
    let st' := snd (executeMerge browser target st) in
    Forall (fun ev => mutating_event ev = false)
           (fst (fst (executeMerge browser target st')))
    /\ snd (executeMerge browser target st') = st'.
Proof.
  intros target st Hc Hw Hnd st'. apply merge_nothing_to_do.
  intros w Hin. subst st'.
  destruct (executeMerge browser target st) as [[tr r] st1] eqn:E.
  destruct (sound_executeMerge browser target _ _ _ _ E) as (_ & Hs & Hp).
  pose proof (merge_clean target st tr r st1 E Hc Hw) as Hcl.
  simpl in *.
  assert (Hsrc : w ∈ sources target (pwaWindowIds st) (host st)).
  { rewrite Hp in Hin. unfold sources, window_of in *.
    rewrite Hs, after_windows in Hin. exact Hin. }
  assert (Hq : existsb merge_failed tr = false).
  { apply not_true_is_false. intros Hex.
    apply existsb_exists in Hex as (ev & Hev & Hm).
    apply list_elem_of_In in Hev. rewrite Forall_forall in Hcl.
    specialize (Hcl ev Hev). destruct ev as [r0 a|m]; discriminate. }
  apply lfilter_none. intros t Ht. rewrite andb_true_r.
  apply Z.eqb_neq. intros Hwin.
  destruct (merge_left_behind target st tr r st1 E Hnd Hq w t Hsrc Ht Hwin)
    as (r0 & e & Hev & _).
  rewrite Forall_forall in Hcl. specialize (Hcl _ Hev). discriminate.
Qed.

(** ** Tabs outside the source windows *)

Section Isolation.
Variable target : Z.
Variable t : Tab.

Lemma spared_move_tab x w i l :
  x <> tab_id t -> t ∈ l -> t ∈ move_tab x w i l.
Proof. intros Hne Hin. apply elem_of_move_tab_inv. right. auto. Qed.

Lemma spared_move_tabs xs w i l :
  tab_id t ∉ xs -> t ∈ l -> t ∈ move_tabs xs w i l.
Proof.
  revert i l. induction xs as [|x xs IH]; intros i l Hout Hin; [exact Hin|].
  apply not_elem_of_cons in Hout as [Hne Hout]. simpl.
  apply IH; [exact Hout|]. apply spared_move_tab; auto.
Qed.

Lemma spared_map (f : Tab -> Tab) l : f t = t -> t ∈ l -> t ∈ map f l.
Proof. intros Hf Hin. apply list_elem_of_fmap. exists t. auto. Qed.

(** A request that names neither the tab nor its group leaves the tab as
    it is. *)
Lemma apart_effect r b : spares t r -> Apart t b -> Apart t (effect r b).
Proof.
  intros Hsp [Hin Hnd Hgr Hls].
  split.
  - destruct r as [w|tys|w g|w|x w i|xs w i|g w i|x p|xs w|g title color collapsed];
      simpl in *; auto.
    + apply spared_move_tab; auto.
    + apply spared_move_tabs; auto.
    + apply elem_of_move_group_tabs. right. auto.
    + apply spared_map; [|exact Hin].
      destruct (tab_id t =? x) eqn:E; [|reflexivity].
      apply Z.eqb_eq in E. congruence.
    + apply spared_map; [|exact Hin].
      rewrite bool_decide_eq_false_2 by exact Hsp. reflexivity.
  - rewrite effect_ids. exact Hnd.
  - destruct r as [w|tys|w g0|w|x w i|xs w i|g0 w i|x p|xs w|g0 title color collapsed];
      simpl in *; auto.
    + intros g Hg Hid. apply list_elem_of_fmap in Hg as (g1 & -> & Hg1).
      destruct (group_id g1 =? g0) eqn:E.
      * apply Z.eqb_eq in E. simpl in Hid. congruence.
      * auto.
    + intros g Hg Hid. apply elem_of_app in Hg as [Hg|Hg]; [auto|].
      apply list_elem_of_singleton in Hg. subst g. simpl in Hid. exfalso.
      destruct Hls as [Hn|Hl].
      * pose proof (fresh_group_id_pos (b_groups b)).
        unfold TAB_GROUP_ID_NONE in Hn. lia.
      * apply fresh_group_id_above in Hl. lia.
    + intros g Hg Hid. apply list_elem_of_fmap in Hg as (g1 & -> & Hg1).
      destruct (group_id g1 =? g0); simpl in *; auto.
  - destruct Hls as [Hn|Hl]; [left; exact Hn|right].
    apply group_ids_effect. exact Hl.
Qed.

Lemma apart_next r b : spares t r -> Apart t b -> Apart t (browser_next b r).
Proof.
  intros Hsp Ha. unfold browser_next.
  destruct (accepts b r); [apply apart_effect; assumption|exact Ha].
Qed.

Lemma known_spares T G r :
  names_known T G r -> tab_id t ∉ T -> tab_groupId t ∉ G -> spares t r.
Proof.
  destruct r; simpl; auto; intros Hn HT HG; congruence.
Qed.

(** What the host answers to a query of another window does not name the
    tab, nor its group; nor does the identifier of a new group. *)
Lemma learned_elsewhere b r :
  Apart t b ->
  asks_elsewhere (tab_windowId t) (Called r (browser_reply b r)) ->
  (tab_id t ∉ learned_tabs (Called r (browser_reply b r)))
  /\ (tab_groupId t ∉ learned_groups (Called r (browser_reply b r))).
Proof.
  intros [Hin Hnd Hgr Hls] Hq. unfold browser_reply.
  destruct (accepts b r);
    [|split; destruct r; simpl; apply not_elem_of_nil].
  destruct r as [w|tys|w g|w|x w i|xs w i|g w i|x p|xs w|g title color collapsed];
    simpl in *; split; try apply not_elem_of_nil.
  - intros Hid. apply list_elem_of_fmap in Hid as (t1 & Hid & Ht1).
    apply elem_of_tabs_of in Ht1 as (Hb1 & Hw1 & _).
    assert (t = t1) by (eapply NoDup_fmap_inj; eauto). subst t1.
    congruence.
  - intros Hid. apply list_elem_of_fmap in Hid as (g1 & Hid & Hg1).
    apply elem_of_lfilter in Hg1 as [Hg1 Hw1]. apply Z.eqb_eq in Hw1.
    apply Hq. rewrite <- Hw1. apply Hgr; auto.
  - intros Hid. apply list_elem_of_singleton in Hid.
    destruct Hls as [Hn|Hl].
    + pose proof (fresh_group_id_pos (b_groups b)).
      unfold TAB_GROUP_ID_NONE in Hn. lia.
    + apply fresh_group_id_above in Hl. lia.
Qed.

(** A coherent trace that names only what it was told, and that does not
    query the tab's window, leaves the tab as it is. *)
Lemma apart_after tr :
  forall b T G,
    Apart t b ->
    coherent browser b tr ->
    informed T G tr ->
    Forall (asks_elsewhere (tab_windowId t)) tr ->
    tab_id t ∉ T -> tab_groupId t ∉ G ->
    Apart t (after browser b tr).
Proof.
  induction tr as [|[r a|m] tr IH]; intros b T G Ha Hco Hi Hq HT HG.
  - exact Ha.
  - apply coherent_browser_cons in Hco as [-> Hco].
    apply Forall_cons in Hq as [Hq0 Hq]. destruct Hi as [Hn Hi].
    rewrite after_browser_cons.
    destruct (learned_elsewhere b r Ha Hq0) as [LT LG].
    eapply IH; [|exact Hco|exact Hi|exact Hq| |].
    + apply apart_next; [|exact Ha]. eapply known_spares; eauto.
    + rewrite elem_of_app. tauto.
    + rewrite elem_of_app. tauto.
  - apply Forall_cons in Hq as [_ Hq]. rewrite after_logged.
    eapply IH; eauto.
Qed.

(** *** A merge queries the source windows only *)

Lemma phase_events_ask W tr :
  Forall (phase_event target) tr -> Forall (asks_elsewhere W) tr.
Proof.
  intros Hf. eapply Forall_impl; [exact Hf|]. intros [r a|m]; simpl; [|auto].
  intros [Hm _]. destruct r; try discriminate Hm; exact Logic.I.
Qed.

Lemma window_done_asks W source tr :
  WindowDone target source tr -> source <> W -> Forall (asks_elsewhere W) tr.
Proof.
  intros [|tabs grouped trA trB trC Hnil HA HB HC] Hne.
  - repeat constructor. exact Hne.
  - constructor; [exact Hne|]. rewrite !Forall_app. repeat split.
    + unfold classify_events. constructor; [exact Hne|].
      apply Forall_forall. intros ev Hev.
      apply list_elem_of_fmap in Hev as (g & -> & _). exact Hne.
    + apply phase_events_ask. eapply phaseA_phase_events; eauto.
    + apply phase_events_ask. eapply phaseB_phase_events; eauto.
    + apply phase_events_ask. eapply phaseC_phase_events; eauto.
Qed.

Lemma window_aborted_asks W source tr e :
  WindowAborted source tr e -> source <> W -> Forall (asks_elsewhere W) tr.
Proof.
  intros [e0|tabs e0 Hnil|tabs reads e0 Hnil Hg] Hne.
  - repeat constructor. exact Hne.
  - repeat constructor; exact Hne.
  - constructor; [exact Hne|]. constructor; [exact Hne|].
    apply Forall_forall. intros ev Hev. unfold read_events in Hev.
    apply list_elem_of_fmap in Hev as ([g r] & -> & _). exact Hne.
Qed.

Lemma windows_run_asks W ws tr r :
  WindowsRun target ws tr r -> W ∉ map win_id ws ->
  Forall (asks_elsewhere W) tr.
Proof.
  induction 1 as [|w ws t1 tr r Hd _ IH|w ws t1 e Ha]; intros Hout.
  - constructor.
  - simpl in Hout. apply not_elem_of_cons in Hout as [Hne Hout].
    apply Forall_app. split; [|apply IH; exact Hout].
    eapply window_done_asks; eauto.
  - simpl in Hout. apply not_elem_of_cons in Hout as [Hne Hout].
    eapply window_aborted_asks; eauto.
Qed.

(** A merge on the reference host leaves the tab as it is when the tab's
    window is not among the windows it migrates. *)
Lemma merge_apart (st : St Browser) :
  Apart t (host st) ->
  tab_windowId t ∉ map win_id (sources target (pwaWindowIds st) (host st)) ->
  Apart t (host (snd (executeMerge browser target st))).
Proof.
  intros Ha Hout.
  destruct (executeMerge browser target st) as [[tr r] st'] eqn:E.
  destruct (sound_executeMerge browser target _ _ _ _ E) as (Hco & Hs & _).
  simpl. rewrite Hs. clear Hs.
  destruct (executeMerge_run browser target st) as (tr0 & r0 & E0 & Hrun).
  rewrite getSourceWindows_run in E0. simpl in E0. unfold answer in E0.
  destruct (accepts (host st) (WindowsGet target)).
  2:{ injection E0 as <- <-. rewrite Hrun in E. injection E as <- _ _.
      rewrite reads_after by (repeat constructor). exact Ha. }
  destruct (accepts (host st) (WindowsGetAll [normal])).
  2:{ injection E0 as <- <-. rewrite Hrun in E. injection E as <- _ _.
      rewrite reads_after by (repeat constructor). exact Ha. }
  injection E0 as <- <-. destruct Hrun as (trw & r' & st'' & Hr & E').
  rewrite E' in E. injection E as <- _ _.
  apply coherent_browser_cons in Hco as [_ Hco].
  apply coherent_browser_cons in Hco as [_ Hco].
  rewrite !after_browser_cons.
  rewrite !read_next in * by reflexivity.
  apply coherent_app in Hco as [Hco _]. rewrite after_app.
  assert (Hend : forall b,
             after browser b (match r' with
                              | Resolved _ => []
                              | Rejected e => [Logged (WindowMergeFailed e)]
                              end) = b).
  { intros b. destruct r'; reflexivity. }
  rewrite Hend.
  eapply (apart_after trw (host st) [] []); auto.
  - eapply windows_run_informed; eauto.
  - eapply windows_run_asks; eauto.
  - apply not_elem_of_nil.
  - apply not_elem_of_nil.
Qed.

End Isolation.

(** X14. On the reference host with unique tab identifiers, whatever the
    host refuses, a merge leaves every tab outside the source windows
    exactly as it was (same window, pinned flag and group): a tab of the
    target, of a registered window, or of a window of another kind or
    profile.  This holds for a tab whose group, if it has one, is listed,
    and listed in the tab's window only. *)
Theorem X14_other_windows_untouched :
  forall (target : Z) (st : St Browser) (t : Tab),
    NoDup (map tab_id (b_tabs (host st))) ->
    t ∈ b_tabs (host st) ->
    (tab_windowId t = target
     \/ tab_windowId t ∈ pwaWindowIds st
     \/ forall w, w ∈ b_windows (host st) -> win_id w = tab_windowId t ->
                  win_type w <> normal
                  \/ win_incognito w
                     <> win_incognito (window_of target (host st))) ->
    (forall g, g ∈ b_groups (host st) -> group_id g = tab_groupId t ->
               group_windowId g = tab_windowId t) ->
    (tab_groupId t = TAB_GROUP_ID_NONE
     \/ tab_groupId t ∈ map group_id (b_groups (host st))) ->
    t ∈ b_tabs (host (snd (executeMerge browser target st))).
Proof.
  intros target st t Hnd Hin Hwin Hgr Hls.
  apply (apart_in t). apply merge_apart.
  - split; assumption.
  - intros Hsrc. apply list_elem_of_fmap in Hsrc as (w & Hid & Hw).
    apply elem_of_sources in Hw as (Hb & Hty & Hinc & Hne & Hreg).
    destruct Hwin as [Ht|[Hp|Hother]].
    + congruence.
    + apply Hreg. rewrite <- Hid. exact Hp.
    + destruct (Hother w Hb (eq_sym Hid)) as [H1|H1]; contradiction.
Qed.

(** ** The further properties on the example states *)

(** Window 4 is registered: the merge into window 1 queries window 2, which
    is neither the target nor registered. *)
Lemma X5_witness :
  2 ∈ window_reads (fst (fst (executeMerge browser 1 (mkSt {[4]} (demo willing)))))
  /\ (2 <> 1 /\ 2 ∉ ({[4]} : gset Z)).
Proof.
  assert (H : 2 ∈ window_reads
                    (fst (fst (executeMerge browser 1
                                 (mkSt {[4]} (demo willing)))))) by in_trace.
  split; [exact H|].
  exact (proj1 (X5_excluded_never_migrated Browser browser 1
                  (mkSt {[4]} (demo willing))) 2 H).
Defined.

(** A host that rejects the group query: the merge logs the failure, last. *)
Lemma X6_witness :
  Logged (WindowMergeFailed "rejected")
  ∈ fst (fst (executeMerge browser 1
                (mkSt ∅ (demo (fun r => match r with
                                        | TabGroupsQuery _ => true
                                        | _ => false
                                        end)))))
  /\ last (fst (fst (executeMerge browser 1
                       (mkSt ∅ (demo (fun r => match r with
                                               | TabGroupsQuery _ => true
                                               | _ => false
                                               end))))))
     = Some (Logged (WindowMergeFailed "rejected")).
Proof.
  assert (H : Logged (WindowMergeFailed "rejected")
              ∈ fst (fst (executeMerge browser 1
                            (mkSt ∅ (demo (fun r => match r with
                                                    | TabGroupsQuery _ => true
                                                    | _ => false
                                                    end)))))) by in_trace.
  split; [exact H|].
  exact (proj2 (proj2 (proj2 (X6_merge_failure_log Browser browser 1 _)))
               "rejected"%string H).
Defined.

(** The shortcut with tab 10 of window 1 active. *)
Lemma X8_witness :
  "merge-windows"%string = "merge-windows"%string
  /\ onCommand browser (fun _ => Resolved [mkTab 10 1 false (-1)])
               "merge-windows" (mkSt ∅ (demo willing))
     = onClicked browser 1 (mkSt ∅ (demo willing)).
Proof.
  split; [reflexivity|].
  exact (proj1 (proj2 (X8_shortcut_as_button Browser browser
                         (fun _ => Resolved [mkTab 10 1 false (-1)])
                         "merge-windows"%string (mkSt ∅ (demo willing))))
               eq_refl).
Defined.

(** Tab 50 of the popup window 5 of [demo]. *)
Lemma X9_witness :
  mkTab 50 5 false (-1) ∈ b_tabs (demo picky)
  /\ exists t',
       t' ∈ b_tabs (host (snd (executeMerge browser 1 (mkSt ∅ (demo picky)))))
       /\ tab_id t' = 50
       /\ (tab_windowId t' = 1
           \/ (tab_windowId t' = 5 /\ tab_groupId t' = -1)).
Proof.
  assert (H : mkTab 50 5 false (-1) ∈ b_tabs (demo picky)) by in_trace.
  split; [exact H|].
  exact (proj1 (X9_tabs_only_reach_target 1 (mkSt ∅ (demo picky)))
               (mkTab 50 5 false (-1)) H).
Defined.

(** On [demo picky] tab 20 stays in window 2: its move was rejected. *)
Lemma X10_witness :
  NoDup (map tab_id (b_tabs (demo picky)))
  /\ existsb merge_failed
       (fst (fst (executeMerge browser 1 (mkSt ∅ (demo picky))))) = false
  /\ mkWindow 2 false normal ∈ b_windows (demo picky)
  /\ 2 <> 1
  /\ (2 ∉ (∅ : gset Z))
  /\ mkTab 20 2 true (-1)
     ∈ b_tabs (host (snd (executeMerge browser 1 (mkSt ∅ (demo picky)))))
  /\ refused_for 20 (fst (fst (executeMerge browser 1 (mkSt ∅ (demo picky))))).
Proof.
  assert (H1 : NoDup (map tab_id (b_tabs (demo picky)))) by by_compute.
  assert (H2 : existsb merge_failed
                 (fst (fst (executeMerge browser 1 (mkSt ∅ (demo picky)))))
               = false) by (vm_compute; reflexivity).
  assert (H3 : mkWindow 2 false normal ∈ b_windows (demo picky)) by in_trace.
  assert (H4 : 2 <> 1) by discriminate.
  assert (H5 : 2 ∉ (∅ : gset Z)) by apply not_elem_of_empty.
  assert (H6 : mkTab 20 2 true (-1)
               ∈ b_tabs (host (snd (executeMerge browser 1
                                      (mkSt ∅ (demo picky)))))) by in_trace.
  repeat (split; [assumption|]).
  exact (X10_left_behind_only_if_refused 1 (mkSt ∅ (demo picky))
           (mkWindow 2 false normal) (mkTab 20 2 true (-1))
           H1 H2 H3 eq_refl eq_refl H4 H5 H6 eq_refl).
Defined.

(** On [demo willing] the merge into window 1 empties window 2. *)
Lemma X11_witness :
  cooperative (demo willing)
  /\ has_window (demo willing) 1 = true
  /\ NoDup (map tab_id (b_tabs (demo willing)))
  /\ mkWindow 2 false normal ∈ b_windows (demo willing)
  /\ 2 <> 1
  /\ (2 ∉ (∅ : gset Z))
  /\ Forall (fun ev => clean ev = true)
            (fst (fst (executeMerge browser 1 (mkSt ∅ (demo willing)))))
  /\ tabs_of 2 None
       (host (snd (executeMerge browser 1 (mkSt ∅ (demo willing))))) = [].
Proof.
  assert (H1 : cooperative (demo willing)) by (intros r; reflexivity).
  assert (H2 : has_window (demo willing) 1 = true) by reflexivity.
  assert (H3 : NoDup (map tab_id (b_tabs (demo willing)))) by by_compute.
  assert (H4 : mkWindow 2 false normal ∈ b_windows (demo willing)) by in_trace.
  assert (H5 : 2 <> 1) by discriminate.
  assert (H6 : 2 ∉ (∅ : gset Z)) by apply not_elem_of_empty.
  repeat (split; [assumption|]).
  destruct (X11_cooperative_host_merges_all 1 (mkSt ∅ (demo willing)) H1 H2 H3)
    as [Hclean Hall].
  split; [exact Hclean|].
  exact (proj1 (Hall (mkWindow 2 false normal) H4 eq_refl eq_refl H5 H6)).
Defined.

(** On [demo willing] a second merge into window 1 changes nothing. *)
Lemma X13_witness :
  cooperative (demo willing)
  /\ has_window (demo willing) 1 = true
  /\ NoDup (map tab_id (b_tabs (demo willing)))
  /\ snd (executeMerge browser 1
            (snd (executeMerge browser 1 (mkSt ∅ (demo willing)))))
     = snd (executeMerge browser 1 (mkSt ∅ (demo willing))).
Proof.
  assert (H1 : cooperative (demo willing)) by (intros r; reflexivity).
  assert (H2 : has_window (demo willing) 1 = true) by reflexivity.
  assert (H3 : NoDup (map tab_id (b_tabs (demo willing)))) by by_compute.
  repeat (split; [assumption|]).
  exact (proj2 (X13_merging_again_moves_nothing 1 (mkSt ∅ (demo willing))
                  H1 H2 H3)).
Defined.

(** Window 4 of [demo] is registered: its tab 40 is untouched by the merge
    into window 1, whatever [picky] refuses. *)
Lemma X14_witness :
  NoDup (map tab_id (b_tabs (demo picky)))
  /\ mkTab 40 4 false (-1) ∈ b_tabs (demo picky)
  /\ (4 ∈ ({[4]} : gset Z))
  /\ mkTab 40 4 false (-1)
     ∈ b_tabs (host (snd (executeMerge browser 1 (mkSt {[4]} (demo picky))))).
Proof.
  assert (H1 : NoDup (map tab_id (b_tabs (demo picky)))) by by_compute.
  assert (H2 : mkTab 40 4 false (-1) ∈ b_tabs (demo picky)) by in_trace.
  assert (H3 : 4 ∈ ({[4]} : gset Z)) by (apply elem_of_singleton; reflexivity).
  assert (H4 : forall g, g ∈ b_groups (demo picky) ->
                         group_id g = tab_groupId (mkTab 40 4 false (-1)) ->
                         group_windowId g = tab_windowId (mkTab 40 4 false (-1))).
  { intros g Hg Hid. each_elem Hg. discriminate Hid. }
  repeat (split; [assumption|]).
  exact (X14_other_windows_untouched 1 (mkSt {[4]} (demo picky))
           (mkTab 40 4 false (-1)) H1 H2 (or_intror (or_introl H3)) H4
           (or_introl eq_refl)).
Defined.
